(** * Verification of [tuning.py]: session-log parsing and oscillation estimate

    The development embeds the functions of [src/python/tuning.py]:
    [process_sessions] and [find_osc_period], which carry the program's
    logic, and [get_files], [get_heli] and [main] around them, together with
    the Python built-ins and the library calls they use.

    - Python [str] values are lists of characters with code points 0..255.
    - Python [int] is [Z]; Python [float] (the gain) is an IEEE-754 binary64
      value, [spec_float] with [prec = 53] and [emax = 1024], so the gain is
      computed bit for bit.  [int(s)] refuses a numeral of more than 4300
      digits, the default limit of CPython 3.11 and later.
    - Exceptions are an explicit error result.
    - [re.findall] is a backtracking matcher over the compiled form of the
      pattern of [match_exp].
    - [numpy.array(data)] is an array of numbers when every reading fits a
      64-bit integer, and an array of objects otherwise.  On an array of
      numbers the numpy/scipy calls of [find_osc_period] ([signal.detrend],
      [rfft], [rfftfreq], [abs], [argmax]) are modelled by the mathematical
      function each one computes, over the real numbers: rounding of the
      float64 spectrum is not part of the model, and the properties stated
      about the estimate are those that do not depend on it (when the call
      fails, the spectrum of one sample and of equal samples).  On an array
      of objects the calls follow the arithmetic of Python on the elements,
      with its errors, up to the transform, which refuses such an array
      (numpy 2).
    - The file system is what the program reads of it: the entries that the
      scan of a directory yields, and the text of each file.  What [main]
      prints is the list of the calls of [print]; a line that shows a float
      is kept with the float. *)

From Stdlib Require Import ZArith List Ascii String Bool Lia.
From Stdlib Require Import Reals Lra.
From Stdlib Require Import Floats.SpecFloat.
From Stdlib Require Import DecimalString.
From stdpp Require Import gmap list sorting.

Local Open Scope Z_scope.

(** ** Exceptions *)

Inductive exn : Type :=
| AssertionError
| ValueError
| ZeroDivisionError
| IndexError
| TypeError
| OverflowError.

Inductive result (A : Type) : Type :=
| Ok (a : A)
| Raise (e : exn).

Arguments Ok {A} a.
Arguments Raise {A} e.

Definition bind {A B : Type} (m : result A) (k : A -> result B) : result B :=
  match m with
  | Ok a => k a
  | Raise e => Raise e
  end.

Notation "'let*' x ':=' m 'in' k" := (bind m (fun x => k))
  (at level 10, x pattern, m at level 100, k at level 200).

Fixpoint for_each {A B : Type} (f : A -> result B) (l : list A) : result (list B) :=
  match l with
  | [] => Ok []
  | a :: l' =>
      let* b := f a in
      let* bs := for_each f l' in
      Ok (b :: bs)
  end.

Definition succeeds {A : Type} (m : result A) : bool :=
  match m with Ok _ => true | Raise _ => false end.

(** ** Python built-ins on [str] *)

Module Py.

Definition str : Type := list ascii.

(** A string literal of the source. *)
Definition lit (s : string) : str := list_ascii_of_string s.

Definition ord (c : ascii) : Z := Z.of_N (N_of_ascii c).

(** [str.isspace] on one character: the code points below 256 that
    Unicode classes as whitespace. *)
Definition isspace (c : ascii) : bool :=
  let n := ord c in
  ((9 <=? n) && (n <=? 13)) || ((28 <=? n) && (n <=? 32))
  || (n =? 133) || (n =? 160).

(** The whitespace that [int()] and [float()] skip around a numeral:
    the ASCII set of the C parser, and the two non-ASCII spaces that the
    conversion of the string to ASCII turns into a blank. *)
Definition isspace_numeric (c : ascii) : bool :=
  let n := ord c in
  ((9 <=? n) && (n <=? 13)) || (n =? 32) || (n =? 133) || (n =? 160).

Definition isdigit (c : ascii) : bool :=
  let n := ord c in (48 <=? n) && (n <=? 57).

Definition digit_value (c : ascii) : Z := ord c - 48.

Fixpoint lstrip_with (sp : ascii -> bool) (s : str) : str :=
  match s with
  | [] => []
  | c :: s' => if sp c then lstrip_with sp s' else s
  end.

Definition rstrip_with (sp : ascii -> bool) (s : str) : str :=
  rev (lstrip_with sp (rev s)).

Definition strip_with (sp : ascii -> bool) (s : str) : str :=
  rstrip_with sp (lstrip_with sp s).

(** [str.strip()] *)
Definition strip (s : str) : str := strip_with isspace s.

(** [s.split(sep)] for a separator of one character: never empty. *)
Fixpoint split (sep : ascii) (s : str) : list str :=
  match s with
  | [] => [[]]
  | c :: s' =>
      if Ascii.eqb c sep then [] :: split sep s'
      else match split sep s' with
           | h :: t => (c :: h) :: t
           | [] => [[c]]
           end
  end.

(** Truth value of a string, as [filter(None, ...)] tests it. *)
Definition truthy (s : str) : bool :=
  match s with [] => false | _ :: _ => true end.

(** [l[i]] on a list, negative indices counting from the end. *)
Definition getitem {A : Type} (l : list A) (i : Z) : result A :=
  let len := Z.of_nat (length l) in
  let j := if i <? 0 then i + len else i in
  if (j <? 0) || (len <=? j) then Raise IndexError
  else match nth_error l (Z.to_nat j) with
       | Some a => Ok a
       | None => Raise IndexError
       end.

(** [range(a, b)] *)
Definition range (a b : Z) : list Z :=
  map (fun i => a + Z.of_nat i) (seq 0 (Z.to_nat (b - a))).

(** *** [int(s)] in base 10

    Whitespace around the numeral, an optional sign, and digits with single
    underscores between them.  A numeral of more than [max_str_digits]
    digits is refused, as CPython 3.11 and later do by default
    ([sys.int_info.default_max_str_digits]); leading zeros count, the sign
    and the underscores do not. *)

Inductive prev_char : Type := PStart | PDigit | PUnderscore.

(** Digits with single underscores between them. *)
Fixpoint digits_value (s : str) (prev : prev_char) (acc : Z) : option Z :=
  match s with
  | [] => match prev with PDigit => Some acc | _ => None end
  | c :: s' =>
      if isdigit c then digits_value s' PDigit (10 * acc + digit_value c)
      else if Ascii.eqb c "_"%char then
        match prev with
        | PDigit => digits_value s' PUnderscore acc
        | _ => None
        end
      else None
  end.

(** An optional sign in front of the rest. *)
Definition split_sign (s : str) : bool * str :=
  match s with
  | c :: s' =>
      if Ascii.eqb c "-"%char then (true, s')
      else if Ascii.eqb c "+"%char then (false, s')
      else (false, s)
  | [] => (false, [])
  end.

(** [sys.get_int_max_str_digits()], as the interpreter starts. *)
Definition max_str_digits : Z := 4300.

(** The digits of a numeral: the underscores between them do not count,
    leading zeros do. *)
Definition count_digits (s : str) : Z := Z.of_nat (length (List.filter isdigit s)).

(** [int(s)]: blanks around the numeral, a sign, digits with single
    underscores between them; too many digits are refused like a text that
    is no numeral. *)
Definition int (s : str) : result Z :=
  let '(neg, body) := split_sign (strip_with isspace_numeric s) in
  match digits_value body PStart 0 with
  | Some n =>
      if count_digits body <=? max_str_digits then Ok (if neg then - n else n)
      else Raise ValueError
  | None => Raise ValueError
  end.

(** *** [float]: IEEE-754 binary64 *)

Definition prec : Z := 53.
Definition emax : Z := 1024.

Abbreviation float := spec_float.

(** The float nearest to [num / den] (ties to even). *)
Definition float_of_ratio (neg : bool) (num den : positive) : float :=
  let '(mz, ez, lz) := SFdiv_core_binary prec emax (Zpos num) 0 (Zpos den) 0 in
  binary_round_aux prec emax neg mz ez lz.

(** The float nearest to [m * 10 ^ e], for [m >= 0]. *)
Definition float_of_decimal (neg : bool) (m e : Z) : float :=
  match m with
  | Z0 => S754_zero neg
  | Zpos p =>
      if 0 <=? e then binary_round prec emax neg (p * Z.to_pos (10 ^ e)) 0
      else float_of_ratio neg p (Z.to_pos (10 ^ (- e)))
  | Zneg _ => S754_nan
  end.

(** Conversion of an [int] to [float], overflow giving an infinity. *)
Definition float_of_Z (z : Z) : float := binary_normalize prec emax z 0 false.

Definition is_zero (x : float) : bool :=
  match x with S754_zero _ => true | _ => false end.

(** [x / y] on floats *)
Definition truediv (x y : float) : result float :=
  if is_zero y then Raise ZeroDivisionError else Ok (SFdiv prec emax x y).

(** [float(z)], as arithmetic between an [int] and a [float] converts the
    integer: an integer that rounds beyond the largest float is refused. *)
Definition float_of_int (z : Z) : result float :=
  match float_of_Z z with
  | S754_infinity _ => Raise OverflowError
  | x => Ok x
  end.

(** [a / b] on integers: the float nearest to the quotient. *)
Definition int_truediv (a b : Z) : result float :=
  match b with
  | Z0 => Raise ZeroDivisionError
  | _ =>
      let neg := xorb (a <? 0) (b <? 0) in
      match Z.abs a with
      | Zpos p =>
          match float_of_ratio neg p (Z.to_pos (Z.abs b)) with
          | S754_infinity _ => Raise OverflowError
          | x => Ok x
          end
      | _ => Ok (S754_zero neg)
      end
  end.

(** *** [float(s)] *)

(** Underscores are accepted between two digits only, and dropped. *)
Fixpoint drop_underscores (s : str) (prev : option ascii) : option str :=
  match s with
  | [] =>
      match prev with
      | Some p => if Ascii.eqb p "_"%char then None else Some []
      | None => Some []
      end
  | c :: s' =>
      if Ascii.eqb c "_"%char then
        match prev with
        | Some p => if isdigit p then drop_underscores s' (Some c) else None
        | None => None
        end
      else
        match prev with
        | Some p =>
            if Ascii.eqb p "_"%char && negb (isdigit c) then None
            else option_map (cons c) (drop_underscores s' (Some c))
        | None => option_map (cons c) (drop_underscores s' (Some c))
        end
  end.

(** The leading digits of [s]: their value on top of [acc], how many
    there are, and the rest of [s]. *)
Fixpoint take_digits (s : str) (acc : Z) (count : nat) : Z * nat * str :=
  match s with
  | c :: s' =>
      if isdigit c then take_digits s' (10 * acc + digit_value c) (S count)
      else (acc, count, s)
  | [] => (acc, count, [])
  end.

(** The exponent part: nothing, or [e] or [E], an optional sign and at
    least one digit, up to the end of the string. *)
Definition parse_exponent (s : str) : option Z :=
  match s with
  | [] => Some 0
  | c :: s' =>
      if Ascii.eqb c "e"%char || Ascii.eqb c "E"%char then
        let '(eneg, s1) := split_sign s' in
        match take_digits s1 0 0 with
        | (_, O, _) => None
        | (ev, S _, []) => Some (if eneg then - ev else ev)
        | (_, S _, _ :: _) => None
        end
      else None
  end.

(** A decimal numeral: sign, digits with an optional point, exponent. *)
Definition parse_decimal (s : str) : option float :=
  let '(neg, s1) := split_sign s in
  let '(mi, ni, s2) := take_digits s1 0 0 in
  let '(m, nf, s3) :=
    match s2 with
    | c :: s2' => if Ascii.eqb c "."%char then take_digits s2' mi 0 else (mi, O, s2)
    | [] => (mi, O, s2)
    end in
  match (ni + nf)%nat with
  | O => None
  | S _ =>
      match parse_exponent s3 with
      | Some e => Some (float_of_decimal neg m (e - Z.of_nat nf))
      | None => None
      end
  end.

Definition lower (c : ascii) : ascii :=
  let n := ord c in
  if (65 <=? n) && (n <=? 90) then ascii_of_N (Z.to_N (n + 32)) else c.

Fixpoint str_eqb (a b : str) : bool :=
  match a, b with
  | [], [] => true
  | x :: a', y :: b' => Ascii.eqb x y && str_eqb a' b'
  | _, _ => false
  end.

(** [inf], [infinity] and [nan] in any case, with an optional sign. *)
Definition parse_inf_or_nan (s : str) : option float :=
  let '(neg, s1) := split_sign s in
  let w := map lower s1 in
  if str_eqb w (lit "inf") || str_eqb w (lit "infinity") then Some (S754_infinity neg)
  else if str_eqb w (lit "nan") then Some S754_nan
  else None.

Definition float_of_str (s : str) : result float :=
  match drop_underscores (strip_with isspace_numeric s) None with
  | None => Raise ValueError
  | Some s2 =>
      match parse_decimal s2 with
      | Some x => Ok x
      | None =>
          match parse_inf_or_nan s2 with
          | Some x => Ok x
          | None => Raise ValueError
          end
      end
  end.

End Py.

(** ** The regular-expression matcher of [re]

    The compiled form of a pattern is a sequence of operations, named as in
    Python's [sre] engine.  Only the operations that [match_exp] uses are
    present; the flags [re.MULTILINE] and [re.DOTALL] are built into them. *)

Module Sre.
Import Py.

Inductive op : Type :=
| AT_BEGINNING_LINE                 (* [^] under MULTILINE *)
| AT_END_LINE                       (* [$] under MULTILINE *)
| LITERAL (c : ascii)
| MIN_REPEAT_ANY (capture : bool).  (* [.+?] under DOTALL; [(.+?)] when capturing *)

Definition pattern : Type := list op.

Definition literal (s : string) : pattern := map LITERAL (lit s).

Definition linebreak : ascii := "010"%char.

(** [prev] is the character in front of the current position, if any. *)
Definition at_beginning_line (prev : option ascii) : bool :=
  match prev with
  | None => true
  | Some c => Ascii.eqb c linebreak
  end.

Definition at_end_line (s : str) : bool :=
  match s with
  | [] => true
  | c :: _ => Ascii.eqb c linebreak
  end.

(** A lazy repeat of the any-character class: take one character and try the
    rest of the pattern, [tail]; take one more each time the rest fails.
    [taken] holds the characters taken so far, last one first. *)
Fixpoint min_repeat_any (tail : option ascii -> str -> option (list str * nat))
    (capture : bool) (s taken : str) : option (list str * nat) :=
  match s with
  | [] => None
  | c :: s' =>
      let taken' := c :: taken in
      match tail (Some c) s' with
      | Some (gs, n) =>
          Some ((if capture then [rev taken'] else []) ++ gs,
                (length taken' + n)%nat)
      | None => min_repeat_any tail capture s' taken'
      end
  end.

(** Matching [p] at the head of [s]: the captured groups and the number of
    characters consumed, for the first way to match that backtracking
    finds. *)
Fixpoint match_at (p : pattern) (prev : option ascii) (s : str)
  : option (list str * nat) :=
  match p with
  | [] => Some ([], O)
  | AT_BEGINNING_LINE :: p' =>
      if at_beginning_line prev then match_at p' prev s else None
  | AT_END_LINE :: p' =>
      if at_end_line s then match_at p' prev s else None
  | LITERAL c :: p' =>
      match s with
      | c' :: s' =>
          if Ascii.eqb c' c then
            match match_at p' (Some c') s' with
            | Some (gs, n) => Some (gs, S n)
            | None => None
            end
          else None
      | [] => None
      end
  | MIN_REPEAT_ANY capture :: p' => min_repeat_any (match_at p') capture s []
  end.

Record match_object : Type :=
  { m_start : nat; m_end : nat; m_groups : list str }.

(** The scan of [finditer]: [pos] is the offset of [s] in the text and
    [skip] the number of characters still covered by the last match.  The
    search resumes where the last match ended.  (A match of [match_exp] is
    never empty, so the rule for empty matches is not needed.) *)
Fixpoint scan (p : pattern) (prev : option ascii) (s : str) (pos skip : nat)
  : list match_object :=
  match skip with
  | S k =>
      match s with
      | [] => []
      | c :: s' => scan p (Some c) s' (S pos) k
      end
  | O =>
      match match_at p prev s with
      | Some (gs, n) =>
          {| m_start := pos; m_end := (pos + n)%nat; m_groups := gs |} ::
          match s with
          | [] => []
          | c :: s' => scan p (Some c) s' (S pos) (Nat.pred n)
          end
      | None =>
          match s with
          | [] => []
          | c :: s' => scan p (Some c) s' (S pos) O
          end
      end
  end.

Definition finditer (p : pattern) (text : str) : list match_object :=
  scan p None text O O.

(** [re.findall] for a pattern with two groups: a list of pairs. *)
Definition group_pair (m : match_object) : str * str :=
  (nth 0 (m_groups m) [], nth 1 (m_groups m) []).

Definition findall (p : pattern) (text : str) : list (str * str) :=
  map group_pair (finditer p text).

End Sre.

(** ** The numeric library calls

    On an array of numbers each call is the function that the library
    documents, computed in exact real arithmetic: the values of the array
    are read as real numbers, and neither rounding nor NaN and the
    infinities are part of the model.  The calls on an array of objects
    come last. *)

Module Numpy.

Local Open Scope R_scope.

Definition complex : Type := R * R.

(** [x / y] on Python numbers ([1 / sampling_rate] in the source and
    [1.0 / (n * d)] inside [rfftfreq]): a zero divisor raises. *)
Definition truediv (x y : R) : result R :=
  if Req_dec_T y 0 then Raise ZeroDivisionError else Ok (x / y).

Definition sum (a : list R) : R := fold_right Rplus 0 a.

Definition mean (a : list R) : R := sum a / INR (length a).

(** [scipy.signal.detrend(data, type='constant')]: [data - mean(data)] *)
Definition detrend (data : list R) : list R :=
  let m := mean data in map (fun x => x - m) data.

Definition cadd (z w : complex) : complex := (fst z + fst w, snd z + snd w).

(** Bin [k] of the discrete Fourier transform of [a]:
    the sum over [j] of [a_j * exp (- 2 pi i j k / n)]. *)
Definition dft_term (n k j : nat) (x : R) : complex :=
  let theta := 2 * PI * INR j * INR k / INR n in
  (x * cos theta, - (x * sin theta)).

Definition dft_bin (a : list R) (k : nat) : complex :=
  fold_right cadd (0, 0)
    (map (fun jx => dft_term (length a) k (fst jx) (snd jx))
         (combine (seq 0 (length a)) a)).

(** [numpy.fft.rfft]: the bins [0 .. n // 2]; no transform of nothing. *)
Definition rfft (a : list R) : result (list complex) :=
  match a with
  | [] => Raise ValueError
  | _ :: _ => Ok (map (dft_bin a) (seq 0 (Nat.div (length a) 2 + 1)))
  end.

(** [numpy.fft.rfftfreq(n, d)]: [arange(0, n // 2 + 1) * (1.0 / (n * d))] *)
Definition rfftfreq (n : nat) (d : R) : result (list R) :=
  let* val := truediv 1 (INR n * d) in
  Ok (map (fun i => INR i * val) (seq 0 (Nat.div n 2 + 1))).

(** [abs] of a complex number *)
Definition absolute (z : complex) : R := sqrt (fst z * fst z + snd z * snd z).

(** [numpy.argmax]: the first index of the largest element. *)
Fixpoint argmax_from (best_i : nat) (best : R) (i : nat) (a : list R) : nat :=
  match a with
  | [] => best_i
  | x :: a' =>
      if Rlt_dec best x then argmax_from i x (S i) a'
      else argmax_from best_i best (S i) a'
  end.

Definition argmax (a : list R) : result nat :=
  match a with
  | [] => Raise ValueError
  | x :: a' => Ok (argmax_from O x 1%nat a')
  end.

(** *** Arrays of Python integers

    [numpy.array(data)] picks the element type from the values.  Integers
    that fit [int64] or [uint64] give an array of numbers ([int64],
    [uint64], or [float64] when both kinds are present); one integer
    outside these ranges makes it an array of objects, which keeps the
    Python integers.  Arithmetic on an array of objects is the arithmetic
    of Python on its elements, and the transform has no version for such
    an array (numpy 2). *)

Inductive ndarray : Type :=
| Numeric (values : list R)
| Object (values : list Z).

Definition fits_machine_int (z : Z) : bool :=
  ((- 2 ^ 63 <=? z) && (z <? 2 ^ 64))%Z.

(** [numpy.array(data)] *)
Definition array (data : list Z) : ndarray :=
  if forallb fits_machine_int data then Numeric (map IZR data) else Object data.

(** [scipy.signal.detrend(data, type='constant')] on an array of objects:
    the mean is the quotient of two Python integers, and each difference
    converts an integer to a float. *)
Definition detrend_object (data : list Z) : result (list Py.float) :=
  let* m := Py.int_truediv (fold_right Z.add 0%Z data) (Z.of_nat (length data)) in
  for_each (fun x => let* xf := Py.float_of_int x in
                     Ok (SFsub Py.prec Py.emax xf m))
    data.

(** [numpy.fft.rfft] on an array of objects *)
Definition rfft_object (a : list Py.float) : result (list complex) :=
  Raise TypeError.

End Numpy.

(** ** [tuning.py] *)

Import Py.

(** Rate in Hz of the serial output *)
Definition SAMPLING_RATE : R := 10%R.

Definition find_osc_period (data : list R) (sampling_rate : R) : result R :=
  let data := Numpy.detrend data in
  let* sampling_period := Numpy.truediv 1%R sampling_rate in
  let* yf := Numpy.rfft data in
  let* xf := Numpy.rfftfreq (length data) sampling_period in
  let* idx := Numpy.argmax (map Numpy.absolute yf) in
  getitem xf (Z.of_nat idx).

(** [find_osc_period] on an array of objects *)
Definition find_osc_period_object (data : list Z) (sampling_rate : R) : result R :=
  let* data := Numpy.detrend_object data in
  let* sampling_period := Numpy.truediv 1%R sampling_rate in
  let* yf := Numpy.rfft_object data in
  let* xf := Numpy.rfftfreq (length data) sampling_period in
  let* idx := Numpy.argmax (map Numpy.absolute yf) in
  getitem xf (Z.of_nat idx).

(** [find_osc_period] on an array, of numbers or of objects. *)
Definition find_osc_period_array (data : Numpy.ndarray) (sampling_rate : R) : result R :=
  match data with
  | Numpy.Numeric values => find_osc_period values sampling_rate
  | Numpy.Object values => find_osc_period_object values sampling_rate
  end.

(** ['^start(.+?)end.+?\[(.+?)\]$'] with [re.MULTILINE | re.DOTALL] *)
Definition match_exp : Sre.pattern :=
  [Sre.AT_BEGINNING_LINE] ++ Sre.literal "start" ++ [Sre.MIN_REPEAT_ANY true]
  ++ Sre.literal "end" ++ [Sre.MIN_REPEAT_ANY false]
  ++ Sre.literal "[" ++ [Sre.MIN_REPEAT_ANY true]
  ++ Sre.literal "]" ++ [Sre.AT_END_LINE].

Definition newline : ascii := "010"%char.

(** [1000.0] *)
Definition thousand : float := Eval vm_compute in float_of_Z 1000.

(** One datum of a session: [int(entry.split(',')[0])] *)
Definition data_point (entry : str) : result Z :=
  let* field := getitem (split ","%char entry) 0 in
  int field.

(** The non-empty stripped lines of a session body:
    [filter(None, map(str.strip, session.split('\n')))] *)
Definition session_lines (session : str) : list str :=
  List.filter truthy (map strip (split newline session)).

(** The data of a session, as the inner loop collects it. *)
Definition session_values (session : str) : result (list Z) :=
  for_each data_point (session_lines session).

Abbreviation sid_dict_t := (gmap Z (float * R)).

(** What the loop body computes from one element of [sessions]: the pair
    [(gain, period)]. *)
Definition session_record (block : str * str) : result (float * R) :=
  let '(session, gain) := block in
  let* gain_f := float_of_str gain in
  let* gain := Py.truediv gain_f thousand in
  let* data := session_values session in
  let* period := find_osc_period_array (Numpy.array data) SAMPLING_RATE in
  Ok (gain, period).

(** The body of the loop over the session ids. *)
Definition session_step (sessions : list (str * str)) (sid_dict : sid_dict_t)
    (sid : Z) : result sid_dict_t :=
  let* block := getitem sessions sid in
  let* record := session_record block in
  Ok (<[sid + 1 := record]> sid_dict).

Fixpoint for_sids (sessions : list (str * str)) (sid_dict : sid_dict_t)
    (sids : list Z) : result sid_dict_t :=
  match sids with
  | [] => Ok sid_dict
  | sid :: rest =>
      let* sid_dict' := session_step sessions sid_dict sid in
      for_sids sessions sid_dict' rest
  end.

(** [process_sessions], on the text that was read from [filename].  The
    [assert] is executed (the interpreter does not run with [-O]). *)
Definition process_sessions (text : str) (n_last : Z) : result sid_dict_t :=
  let sessions := Sre.findall match_exp text in
  let len := Z.of_nat (length sessions) in
  if len >=? n_last then
    for_sids sessions ∅ (rev (range (len - n_last) len))
  else Raise AssertionError.

(** ** Definitions used to state the properties *)

(** A log text given line by line, each line ended by a newline. *)
Definition unlines (ls : list string) : str :=
  concat (map (fun l => lit l ++ [newline]) ls).

(** A block is well formed when its gain field converts to a float and its
    body yields at least one datum, every datum converting to an integer. *)
Definition well_formed_block (block : str * str) : bool :=
  succeeds (float_of_str (snd block)) &&
  match session_values (fst block) with
  | Ok (_ :: _) => true
  | _ => false
  end.

(** The readings of a block fit a 64-bit integer, signed or unsigned, so
    that the array of the readings is an array of numbers. *)
Definition readings_fit (block : str * str) : bool :=
  match session_values (fst block) with
  | Ok data => forallb Numpy.fits_machine_int data
  | Raise _ => false
  end.

(** The session ids that a call with [n_last] reports when [k] blocks were
    found: the last [n_last] of [1 .. k]. *)
Definition is_trailing_id (k n_last key : Z) : Prop :=
  k - n_last < key <= k.

(** *** The sample series in the words of the specification *)

(** A blank line: nothing but whitespace. *)
Definition blank (line : str) : bool := forallb isspace line.

(** The part of a line in front of its first comma. *)
Fixpoint before_first_comma (line : str) : str :=
  match line with
  | [] => []
  | c :: line' => if Ascii.eqb c ","%char then [] else c :: before_first_comma line'
  end.

(** Split the body into lines, drop the blank ones, and read the integer
    in front of the first comma of each line that is left, in order. *)
Definition described_series (body : str) : result (list Z) :=
  for_each (fun line => int (before_first_comma line))
    (List.filter (fun line => negb (blank line)) (split newline body)).

(** The same, the integer being read with the whitespace around it left
    aside, whatever [str.isspace] counts as whitespace. *)
Definition described_series_lenient (body : str) : result (list Z) :=
  for_each (fun line => int (strip (before_first_comma line)))
    (List.filter (fun line => negb (blank line)) (split newline body)).

(** *** The estimate in the words of the specification *)

(** Magnitude of bin [k] of the spectrum of the series [s] after its mean
    was subtracted from every sample. *)
Definition spectrum_magnitude (s : list R) (k : nat) : R :=
  Numpy.absolute (Numpy.dft_bin (map (fun x => (x - Numpy.mean s)%R) s) k).

(** Frequency of bin [k] for [n] samples taken every [d] seconds. *)
Definition bin_frequency (n k : nat) (d : R) : R :=
  (INR k / (INR n * d))%R.

(** The last bin of the non-negative half of the spectrum. *)
Definition last_bin (n : nat) : nat := Nat.div n 2.

(** *** Numerals *)

(** Value of a string of decimal digits. *)
Definition decimal_value (digits : str) : Z :=
  fold_left (fun acc c => 10 * acc + digit_value c) digits 0.

Definition all_digits (s : str) : bool := forallb isdigit s.

(** The sign in front of a numeral, or of its exponent: none, [+] or [-]. *)
Inductive sign : Type := NoSign | PlusSign | MinusSign.

Definition sign_text (sg : sign) : str :=
  match sg with
  | NoSign => []
  | PlusSign => ["+"%char]
  | MinusSign => ["-"%char]
  end.

Definition is_minus (sg : sign) : bool :=
  match sg with MinusSign => true | _ => false end.

(** The exponent of a numeral: none, or the letter [e] or [E], a sign and
    digits. *)
Inductive exponent : Type :=
| NoExponent
| Exponent (mark : ascii) (sg : sign) (digits : str).

Definition exponent_text (ex : exponent) : str :=
  match ex with
  | NoExponent => []
  | Exponent mark sg digits => mark :: sign_text sg ++ digits
  end.

Definition exponent_value (ex : exponent) : Z :=
  match ex with
  | NoExponent => 0
  | Exponent _ sg digits =>
      if is_minus sg then - decimal_value digits else decimal_value digits
  end.

Definition exponent_ok (ex : exponent) : bool :=
  match ex with
  | NoExponent => true
  | Exponent mark _ digits =>
      (Ascii.eqb mark "e"%char || Ascii.eqb mark "E"%char)
      && truthy digits && all_digits digits
  end.

(** A decimal numeral with a point: a sign, the digits [ip] of the integer
    part, the point, the digits [fp] of the fractional part, an exponent.
    One of [ip] and [fp] may be empty, as in [.5] and [1.]. *)
Definition point_numeral (sg : sign) (ip fp : str) (ex : exponent) : str :=
  sign_text sg ++ ip ++ lit "." ++ fp ++ exponent_text ex.

(** [x == y] on floats *)
Definition float_eq (x y : float) : bool := SFeqb x y.

(** *** Block discovery *)

(** The character in front of the position reached after [t], when [prev]
    was in front of [t]. *)
Fixpoint last_of (prev : option ascii) (t : str) : option ascii :=
  match t with
  | [] => prev
  | c :: t' => last_of (Some c) t'
  end.

(** What it means for the pattern [p] to match the text [w] in front of
    [rest], with the groups [gs]: the reading of a pattern as a set of
    texts, without any order of preference. *)
Fixpoint accepts (p : Sre.pattern) (prev : option ascii) (w rest : str)
    (gs : list str) : Prop :=
  match p with
  | [] => w = [] /\ gs = []
  | Sre.AT_BEGINNING_LINE :: p' =>
      Sre.at_beginning_line prev = true /\ accepts p' prev w rest gs
  | Sre.AT_END_LINE :: p' =>
      Sre.at_end_line (w ++ rest) = true /\ accepts p' prev w rest gs
  | Sre.LITERAL c :: p' =>
      exists w', w = c :: w' /\ accepts p' (Some c) w' rest gs
  | Sre.MIN_REPEAT_ANY capture :: p' =>
      exists t w' gs',
        t <> [] /\ w = t ++ w' /\
        gs = (if capture then [t] else []) ++ gs' /\
        accepts p' (last_of prev t) w' rest gs'
  end.

(** The match [m] covers, in [text], a region [start body end sep [gain]]
    that begins a line and ends one; [body], [sep] and [gain] are not
    empty, and the groups of the match are [body] and [gain]. *)
Definition block_at (text : str) (m : Sre.match_object) : Prop :=
  exists before body sep gain after,
    text = before ++ lit "start" ++ body ++ lit "end" ++ sep
                  ++ lit "[" ++ gain ++ lit "]" ++ after /\
    length before = Sre.m_start m /\
    (Sre.m_end m = Sre.m_start m + (5 + length body + 3 + length sep
                                    + 1 + length gain + 1))%nat /\
    body <> [] /\ sep <> [] /\ gain <> [] /\
    Sre.m_groups m = [body; gain] /\
    Sre.at_beginning_line (last_of None before) = true /\
    Sre.at_end_line after = true.

(** The matches come one after the other from offset [lo] on: each one is
    not empty and starts no earlier than the one before it ends. *)
Fixpoint ordered_from (lo : nat) (ms : list Sre.match_object) : Prop :=
  match ms with
  | [] => True
  | m :: ms' =>
      (lo <= Sre.m_start m)%nat /\ (Sre.m_start m < Sre.m_end m)%nat /\
      ordered_from (Sre.m_end m) ms'
  end.

(** *** Auxiliary notions of the proofs *)

(** How the character in front, as [int] tracks it, relates to the one
    that [float] tracks. *)
Definition prev_agrees (pk : prev_char) (pc : option ascii) : Prop :=
  match pk with
  | PStart =>
      match pc with
      | None => True
      | Some c => isdigit c = false /\ Ascii.eqb c "_"%char = false
      end
  | PDigit => exists c, pc = Some c /\ isdigit c = true
  | PUnderscore => pc = Some "_"%char
  end.

(** The first, and the last, character of [s] is not whitespace for [sp]. *)
Definition head_kept (sp : ascii -> bool) (s : str) : Prop :=
  match s with [] => True | c :: _ => sp c = false end.

Definition last_kept (sp : ascii -> bool) (s : str) : Prop := head_kept sp (rev s).

Definition comma : ascii := ","%char.

(** The character [c] does not occur in [s]. *)
Definition lacks (c : ascii) (s : str) : bool :=
  forallb (fun x => negb (Ascii.eqb x c)) s.

Definition no_comma (s : str) : bool := forallb (fun c => negb (Ascii.eqb c comma)) s.

(** The characters of a numeral that [int] accepts. *)
Definition numeral_char (c : ascii) : bool :=
  isdigit c || Ascii.eqb c "_"%char || Ascii.eqb c "-"%char || Ascii.eqb c "+"%char.

(** *** Log texts and floats of the examples *)

Definition two_blocks : str :=
  unlines ["start"; "1,0"; "2,1"; "end [2000]"; "start"; "3,0"; "4,1"; "end [3000]"]%string.

Definition block_1500 : str := unlines ["start"; "1,0"; "2,1"; "end [1500]"]%string.

Definition block_1_5 : str := unlines ["start"; "1,0"; "2,1"; "end [1.5]"]%string.

Definition bad_gain_then_good : str :=
  unlines ["start"; "1,0"; "2,1"; "end [abc]"; "start"; "3,0"; "4,1"; "end [1000]"]%string.

(** A block whose one reading is [2 ^ 64]. *)
Definition big_reading : str :=
  unlines ["start"; "18446744073709551616,0"; "end [1000]"]%string.

Definition unterminated_then_good : str :=
  unlines ["start"; "1,0"; "2,1"; "start"; "3,0"; "4,1"; "end [1000]"]%string.

(** [1.0], [1.5], [2.0], [3.0] and [0.0015] *)
Definition float_1 : float := S754_finite false 4503599627370496 (-52).
Definition float_1_5 : float := S754_finite false 6755399441055744 (-52).
Definition float_2 : float := S754_finite false 4503599627370496 (-51).
Definition float_3 : float := S754_finite false 6755399441055744 (-51).
Definition float_0_0015 : float := S754_finite false 6917529027641082 (-62).

(** [-5.0] and [-0.005] *)
Definition float_minus_5 : float := Eval vm_compute in float_of_decimal true 5 0.
Definition float_minus_0_005 : float :=
  Eval vm_compute in SFdiv prec emax (float_of_decimal true 5 0) thousand.

(** ** The rest of [tuning.py]: the data files, the helicopter line, the report *)

(** *** More built-ins *)

(** [str.lower()] on one character, for the code points below 256: the
    ASCII capitals and the capitals of Latin-1 (the multiplication sign
    U+00D7 is none). *)
Definition lower_char (c : ascii) : ascii :=
  let n := ord c in
  if ((65 <=? n) && (n <=? 90))
     || ((192 <=? n) && (n <=? 222) && negb (n =? 215))
  then ascii_of_N (Z.to_N (n + 32)) else c.

(** [s.lower()] *)
Definition str_lower (s : str) : str := map lower_char s.

(** [s.startswith(prefix)] *)
Fixpoint startswith (s prefix : str) : bool :=
  match prefix, s with
  | [], _ => true
  | p :: prefix', c :: s' => Ascii.eqb c p && startswith s' prefix'
  | _ :: _, [] => false
  end.

(** [s.endswith(suffix)] *)
Definition endswith (s suffix : str) : bool := startswith (rev s) (rev suffix).

(** [sub in s] *)
Fixpoint contains (s sub : str) : bool :=
  startswith s sub ||
  match s with
  | [] => false
  | _ :: s' => contains s' sub
  end.

(** [infile.readlines()] on the text of the file: the lines, each one with
    the newline that ends it; the last line may have none. *)
Fixpoint readlines (text : str) : list str :=
  match text with
  | [] => []
  | c :: text' =>
      if Ascii.eqb c newline then [c] :: readlines text'
      else match readlines text' with
           | line :: lines => (c :: line) :: lines
           | [] => [[c]]
           end
  end.

(** [str(n)] for an [int], as [format] renders it. *)
Definition str_of_int (n : Z) : str :=
  list_ascii_of_string (NilZero.string_of_int (Z.to_int n)).

(** [str(x)] for the value of [get_heli]: a string, or [None]. *)
Definition str_of_optional (x : option str) : str :=
  match x with
  | Some s => s
  | None => lit "None"
  end.

(** *** [get_files] *)

(** The entries that [os.scandir] yields: the attributes that the program
    reads. *)
Module Os.

Record DirEntry : Type :=
  { name : str; path : str; is_file : bool }.

End Os.

Definition DATA_PATH : str := lit "data".

(** [get_files], on the entries that the scan of [path] yields. *)
Definition get_files (it : list Os.DirEntry) : list str :=
  map Os.path
    (List.filter (fun entry => endswith (Os.name entry) (lit ".txt") && Os.is_file entry)
       it).

(** *** [get_heli] *)

(** The loop over the lines; falling off the end of the function gives
    [None]. *)
Fixpoint get_heli_lines (lines : list str) : option str :=
  match lines with
  | [] => None
  | line :: lines' =>
      if contains (str_lower line) (lit "heli") then Some (strip line)
      else get_heli_lines lines'
  end.

(** [get_heli], on the text of [filename]. *)
Definition get_heli (text : str) : option str := get_heli_lines (readlines text).

(** *** [main] *)

(** What one call of [print] writes.  The lines that show a float are kept
    with the float, not with its digits. *)
Inductive printed : Type :=
| Text (s : str)
| Ultimate_gain (gain : float)         (* ['Ultimate gain: {}'.format(gain)] *)
| Oscillation_period (period : R).     (* ['Oscillation period (s): {:.3f}\n'.format(period)] *)

(** The exceptions that can end [main]. *)
Inductive main_exn : Type :=
| Raised (e : exn)
| KeyError.

(** A computation that prints: what was printed, and how it ended. *)
Definition io (A : Type) : Type := list printed * (A + main_exn).

Definition io_ret {A : Type} (a : A) : io A := ([], inl a).

Definition io_bind {A B : Type} (m : io A) (k : A -> io B) : io B :=
  match m with
  | (out, inl a) => let '(out', r) := k a in (out ++ out', r)
  | (out, inr e) => (out, inr e)
  end.

Definition print (p : printed) : io unit := ([p], inl tt).

Definition io_of_result {A : Type} (m : result A) : io A :=
  match m with
  | Ok a => ([], inl a)
  | Raise e => ([], inr (Raised e))
  end.

Fixpoint io_for {A : Type} (body : A -> io unit) (l : list A) : io unit :=
  match l with
  | [] => io_ret tt
  | a :: l' => io_bind (body a) (fun _ => io_for body l')
  end.

(** The keys of a dict, as iterating over it yields them. *)
Definition keys (d : sid_dict_t) : list Z := map fst (map_to_list d).

(** [max(d)] *)
Definition max_key (d : sid_dict_t) : result Z :=
  match keys d with
  | [] => Raise ValueError
  | k :: ks => Ok (fold_left Z.max ks k)
  end.

(** [sorted(d)] *)
Definition sorted (d : sid_dict_t) : list Z := merge_sort Z.le (keys d).

(** [d[key]] *)
Definition lookup_key (d : sid_dict_t) (key : Z) : io (float * R) :=
  match d !! key with
  | Some v => io_ret v
  | None => ([], inr KeyError)
  end.

(** The body of the loop over the sessions of one file. *)
Definition print_session (sessions : sid_dict_t) (sid : Z) : io unit :=
  io_bind (lookup_key sessions sid) (fun '(gain, period) =>
  io_bind (print (Text (lit "Session " ++ str_of_int sid ++ lit ":"))) (fun _ =>
  io_bind (print (Ultimate_gain gain)) (fun _ =>
  print (Oscillation_period period)))).

(** The body of the loop over the files; [read] gives the text of a file. *)
Definition print_file (read : str -> str) (infile : str) : io unit :=
  io_bind (print (Text (repeat "-"%char 30))) (fun _ =>
  io_bind (print (Text (str_of_optional (get_heli (read infile)) ++ lit " - " ++ infile)))
    (fun _ =>
  io_bind (io_of_result (process_sessions (read infile) 1)) (fun sessions =>
  io_bind (io_of_result (max_key sessions)) (fun total =>
  io_bind (print (Text (str_of_int total ++ lit " sessions in total" ++ [newline])))
    (fun _ =>
  io_bind (io_for (print_session sessions) (rev (sorted sessions))) (fun _ =>
  print (Text []))))))).

(** [main]: [scandir] gives the entries of a directory and [read] the text
    of a file. *)
Definition main (scandir : str -> list Os.DirEntry) (read : str -> str) : io unit :=
  io_for (print_file read) (get_files (scandir DATA_PATH)).


(** ** Definitions used to state further properties *)

(** *** A log as it is written *)

(** A block of a log, with the lines in front of it. *)
Record written_block : Type :=
  { w_lead : str; w_body : str; w_sep : str; w_gain : str }.

(** [start body end sep [gain]] *)
Definition block_text (b : written_block) : str :=
  lit "start" ++ w_body b ++ lit "end" ++ w_sep b ++ lit "[" ++ w_gain b ++ lit "]".

(** The text is empty or ends with a newline: it is made of whole lines. *)
Definition whole_lines (s : str) : bool :=
  match rev s with
  | [] => true
  | c :: _ => Ascii.eqb c newline
  end.

(** The lines in front of the block are whole lines without the letter
    [s]; the body has no [e], the separator no opening and the gain no
    closing bracket, and none of the three is empty. *)
Definition plain_block (b : written_block) : bool :=
  lacks "s" (w_lead b) && whole_lines (w_lead b)
  && truthy (w_body b) && lacks "e" (w_body b)
  && truthy (w_sep b) && lacks "[" (w_sep b)
  && truthy (w_gain b) && lacks "]" (w_gain b).

(** The blocks one after the other, each one ending its line, and the text
    behind the last one. *)
Definition written_log (blocks : list written_block) (trailer : str) : str :=
  concat (map (fun b => w_lead b ++ block_text b ++ [newline]) blocks) ++ trailer.

(** *** A session body as it is written *)

(** A line of a body: the value, a comma, and the rest of the line. *)
Definition row_line (row : str * str) : str := fst row ++ comma :: snd row.

(** The lines one after the other, each one ended by a newline. *)
Definition written_body (rows : list (str * str)) : str :=
  concat (map (fun row => row_line row ++ [newline]) rows).

(** The value has no comma, and neither part of the line has a newline. *)
Definition plain_row (row : str * str) : bool :=
  no_comma (fst row) && lacks newline (fst row) && lacks newline (snd row).

(** *** The report of one file *)

(** The two lines that head the report of a file. *)
Definition heading (read : str -> str) (infile : str) : list printed :=
  [Text (repeat "-"%char 30);
   Text (str_of_optional (get_heli (read infile)) ++ lit " - " ++ infile)].

(** The lines on the last session of a file of [k] blocks, and the empty
    line that ends the report. *)
Definition last_session_lines (k : Z) (gain : float) (period : R) : list printed :=
  [Text (str_of_int k ++ lit " sessions in total" ++ [newline]);
   Text (lit "Session " ++ str_of_int k ++ lit ":");
   Ultimate_gain gain;
   Oscillation_period period;
   Text []].

(** The report of a file, told from the last block of its text. *)
Definition file_report (read : str -> str) (infile : str) : io unit :=
  let sessions := Sre.findall match_exp (read infile) in
  match last sessions with
  | None => (heading read infile, inr (Raised AssertionError))
  | Some block =>
      match session_record block with
      | Raise e => (heading read infile, inr (Raised e))
      | Ok (gain, period) =>
          (heading read infile
           ++ last_session_lines (Z.of_nat (length sessions)) gain period,
           inl tt)
      end
  end.

(** The report of a file was printed to its end. *)
Definition completes (m : io unit) : bool :=
  match snd m with inl _ => true | inr _ => false end.

(** * Properties *)

(** ** The estimator *)
Section Estimator.
Local Open Scope R_scope.

Lemma length_detrend data : length (Numpy.detrend data) = length data.
Proof. unfold Numpy.detrend. now rewrite length_map. Qed.

(** [argmax_from] continues a scan of [pre ++ a] that has seen [pre]. *)
Lemma argmax_from_spec a : forall pre best_i best,
  (best_i < length pre)%nat ->
  nth best_i pre 0 = best ->
  (forall j, (j < length pre)%nat -> nth j pre 0 <= best) ->
  (forall j, (j < best_i)%nat -> nth j pre 0 < best) ->
  let r := Numpy.argmax_from best_i best (length pre) a in
  (r < length (pre ++ a))%nat /\
  (forall j, (j < length (pre ++ a))%nat -> nth j (pre ++ a) 0 <= nth r (pre ++ a) 0) /\
  (forall j, (j < r)%nat -> nth j (pre ++ a) 0 < nth r (pre ++ a) 0).
Proof.
  induction a as [|x a IH]; intros pre best_i best Hlt Hbest Hmax Hfirst; simpl.
  - rewrite app_nil_r. rewrite Hbest. auto.
  - assert (Hlen : length (pre ++ [x]) = S (length pre)).
    { rewrite length_app. simpl. lia. }
    replace (pre ++ x :: a) with ((pre ++ [x]) ++ a) by (now rewrite <- app_assoc).
    destruct (Rlt_dec best x) as [Hx | Hx].
    + specialize (IH (pre ++ [x]) (length pre) x). rewrite Hlen in IH.
      apply IH.
      * lia.
      * rewrite app_nth2 by lia. now rewrite Nat.sub_diag.
      * intros j Hj. destruct (Nat.eq_dec j (length pre)) as [-> | Hne].
        -- rewrite app_nth2 by lia. rewrite Nat.sub_diag. simpl. lra.
        -- rewrite app_nth1 by lia. specialize (Hmax j). lapply Hmax; [lra | lia].
      * intros j Hj. rewrite app_nth1 by lia. specialize (Hmax j).
        lapply Hmax; [lra | lia].
    + specialize (IH (pre ++ [x]) best_i best). rewrite Hlen in IH.
      apply IH.
      * lia.
      * rewrite app_nth1 by lia. assumption.
      * intros j Hj. destruct (Nat.eq_dec j (length pre)) as [-> | Hne].
        -- rewrite app_nth2 by lia. rewrite Nat.sub_diag. simpl. lra.
        -- rewrite app_nth1 by lia. apply Hmax. lia.
      * intros j Hj. rewrite app_nth1 by lia. now apply Hfirst.
Qed.

Lemma argmax_spec a :
  a <> [] ->
  exists idx, Numpy.argmax a = Ok idx /\
    (idx < length a)%nat /\
    (forall j, (j < length a)%nat -> nth j a 0 <= nth idx a 0) /\
    (forall j, (j < idx)%nat -> nth j a 0 < nth idx a 0).
Proof.
  destruct a as [|x a]; [congruence | intros _].
  eexists. split; [reflexivity|].
  apply (argmax_from_spec a [x] O x).
  - simpl. lia.
  - reflexivity.
  - intros j Hj. simpl in Hj. replace j with O by lia. simpl. lra.
  - intros j Hj. lia.
Qed.

Lemma getitem_nth {A} (l : list A) (i : nat) (d : A) :
  (i < length l)%nat -> getitem l (Z.of_nat i) = Ok (nth i l d).
Proof.
  intros Hi. unfold getitem.
  destruct (Z.ltb_spec (Z.of_nat i) 0) as [Hneg | _]; [lia|].
  destruct (Z.ltb_spec (Z.of_nat i) 0) as [Hneg | _]; [lia|].
  destruct (Z.leb_spec (Z.of_nat (length l)) (Z.of_nat i)) as [Hge | _]; [lia|].
  simpl. rewrite Nat2Z.id.
  destruct (nth_error l i) as [a|] eqn:E.
  - now rewrite (nth_error_nth _ _ d E).
  - apply nth_error_None in E. lia.
Qed.

Lemma rfft_ok a :
  a <> [] ->
  Numpy.rfft a = Ok (map (Numpy.dft_bin a) (seq 0 (last_bin (length a) + 1))).
Proof. destruct a; [congruence | reflexivity]. Qed.

(** What [find_osc_period] returns on a non-empty series. *)
Lemma find_osc_period_char s r :
  s <> [] -> r <> 0 ->
  exists idx,
    (idx <= last_bin (length s))%nat /\
    (forall k, (k <= last_bin (length s))%nat ->
               spectrum_magnitude s k <= spectrum_magnitude s idx) /\
    (forall k, (k < idx)%nat -> spectrum_magnitude s k < spectrum_magnitude s idx) /\
    find_osc_period s r = Ok (bin_frequency (length s) idx (1 / r)).
Proof.
  intros Hs Hr.
  unfold find_osc_period.
  set (d := Numpy.detrend s).
  assert (Hd : d <> []).
  { intros E. apply (f_equal (@length R)) in E. subst d.
    rewrite length_detrend in E. destruct s; [congruence | discriminate]. }
  assert (Hn : INR (length s) <> 0).
  { apply not_0_INR. destruct s; [congruence | discriminate]. }
  unfold Numpy.truediv at 1. destruct (Req_dec_T r 0) as [E | _]; [contradiction|].
  cbn [bind].
  assert (Hlen : length d = length s) by apply length_detrend.
  rewrite (rfft_ok d Hd), Hlen. cbn [bind].
  unfold Numpy.rfftfreq, Numpy.truediv.
  destruct (Req_dec_T (INR (length s) * (1 / r)) 0) as [E | _].
  { exfalso. apply Rmult_integral in E. destruct E as [E | E]; [contradiction|].
    unfold Rdiv in E. rewrite Rmult_1_l in E. revert E. now apply Rinv_neq_0_compat. }
  cbn [bind]. fold (last_bin (length s)).
  set (mags := map Numpy.absolute (map (Numpy.dft_bin d) (seq 0 (last_bin (length s) + 1)))).
  assert (Hmlen : length mags = (last_bin (length s) + 1)%nat).
  { subst mags. now rewrite !length_map, length_seq. }
  destruct (argmax_spec mags) as (idx & Hidx & Hlt & Hmax & Hfirst).
  { intros E. rewrite E in Hmlen. simpl in Hmlen. lia. }
  rewrite Hidx. cbn [bind].
  assert (Hmag : forall k, (k <= last_bin (length s))%nat ->
                           nth k mags 0 = spectrum_magnitude s k).
  { intros k Hk. subst mags. rewrite map_map.
    rewrite (nth_indep _ 0 (Numpy.absolute (Numpy.dft_bin d 0%nat))).
    2:{ rewrite length_map, length_seq. lia. }
    rewrite (map_nth (fun x => Numpy.absolute (Numpy.dft_bin d x))).
    rewrite seq_nth by lia. reflexivity. }
  exists idx. rewrite Hmlen in Hlt, Hmax. split; [lia|]. split; [|split].
  - intros k Hk. rewrite <- !Hmag by lia. apply Hmax. lia.
  - intros k Hk. rewrite <- !Hmag by lia. now apply Hfirst.
  - unfold last_bin in *.
    rewrite (getitem_nth _ _ 0) by (rewrite length_map, length_seq; lia).
    f_equal.
    rewrite (nth_indep _ 0 ((fun i => INR i * (1 / (INR (length s) * (1 / r)))) O))
      by (rewrite length_map, length_seq; lia).
    rewrite (map_nth (fun i => INR i * (1 / (INR (length s) * (1 / r))))).
    rewrite seq_nth by lia. unfold bin_frequency. simpl. unfold Rdiv. ring.
Qed.


Lemma spectrum_two_samples_0 x y : spectrum_magnitude [x; y] 0 = 0.
Proof.
  unfold spectrum_magnitude, Numpy.dft_bin, Numpy.dft_term, Numpy.absolute,
    Numpy.cadd, Numpy.mean, Numpy.sum.
  cbn [length map seq combine fold_right fst snd INR].
  replace (2 * PI * 0 * 0 / (1 + 1)) with 0 by field.
  replace (2 * PI * 1 * 0 / (1 + 1)) with 0 by field.
  rewrite cos_0, sin_0.
  match goal with |- sqrt ?a = 0 => replace a with 0 by field end.
  apply sqrt_0.
Qed.

Lemma spectrum_two_samples_1 x y : spectrum_magnitude [x; y] 1 = Rabs (x - y).
Proof.
  unfold spectrum_magnitude, Numpy.dft_bin, Numpy.dft_term, Numpy.absolute,
    Numpy.cadd, Numpy.mean, Numpy.sum.
  cbn [length map seq combine fold_right fst snd INR].
  replace (2 * PI * 0 * 1 / (1 + 1)) with 0 by field.
  replace (2 * PI * 1 * 1 / (1 + 1)) with PI by field.
  rewrite cos_0, sin_0, cos_PI, sin_PI.
  match goal with |- sqrt ?a = _ => replace a with (Rsqr (x - y)) by (unfold Rsqr; field) end.
  apply sqrt_Rsqr_abs.
Qed.

(** Two different samples: the dominant bin is the last one, at half the
    sampling rate. *)
Lemma find_osc_period_two_samples x y r :
  x <> y -> r <> 0 -> find_osc_period [x; y] r = Ok (r / 2).
Proof.
  intros Hxy Hr.
  destruct (find_osc_period_char [x; y] r) as (idx & Hidx & Hmax & _ & E);
    [discriminate | assumption |].
  rewrite E. f_equal. unfold last_bin in *. simpl in Hidx.
  assert (idx = 1%nat) as ->.
  { destruct idx as [|[|idx]]; [exfalso | reflexivity | lia].
    specialize (Hmax 1%nat). cbn in Hmax.
    rewrite spectrum_two_samples_0, spectrum_two_samples_1 in Hmax.
    assert (0 < Rabs (x - y)) by (apply Rabs_pos_lt; lra).
    specialize (Hmax ltac:(lia)). lra. }
  unfold bin_frequency. simpl. field. assumption.
Qed.






End Estimator.

(** ** The loop over the sessions *)
Lemma getitem_lookup {A} (l : list A) (i : Z) :
  0 <= i < Z.of_nat (length l) ->
  exists a, l !! Z.to_nat i = Some a /\ getitem l i = Ok a.
Proof.
  intros Hi. unfold getitem.
  destruct (Z.ltb_spec i 0) as [Hneg | _]; [lia|].
  destruct (Z.ltb_spec i 0) as [Hneg | _]; [lia|].
  destruct (Z.leb_spec (Z.of_nat (length l)) i) as [Hge | _]; [lia|].
  cbn [orb].
  destruct (nth_error l (Z.to_nat i)) as [a|] eqn:E.
  - exists a. split; [|reflexivity]. rewrite <- E. clear.
    generalize (Z.to_nat i). induction l; intros [|n]; simpl; auto.
  - apply nth_error_None in E. lia.
Qed.

Lemma thousand_not_zero : is_zero thousand = false.
Proof. reflexivity. Qed.

(** An array of readings that fit is an array of numbers. *)
Lemma array_fits data :
  forallb Numpy.fits_machine_int data = true ->
  Numpy.array data = Numpy.Numeric (map IZR data).
Proof. intros H. unfold Numpy.array. now rewrite H. Qed.

Lemma session_record_well_formed block :
  well_formed_block block = true -> readings_fit block = true ->
  exists v, session_record block = Ok v.
Proof.
  destruct block as [session gain].
  unfold well_formed_block, readings_fit, session_record.
  cbn [fst snd]. intros H Hfit. apply andb_true_iff in H as [Hg Hd].
  destruct (float_of_str gain) as [g|]; [|discriminate]. cbn [bind].
  unfold Py.truediv. rewrite thousand_not_zero. cbn [bind].
  destruct (session_values session) as [[|z data]|]; try discriminate. cbn [bind].
  rewrite (array_fits _ Hfit). cbn [find_osc_period_array].
  destruct (find_osc_period_char (map IZR (z :: data)) SAMPLING_RATE)
    as (idx & _ & _ & _ & E).
  - discriminate.
  - unfold SAMPLING_RATE. lra.
  - rewrite E. cbn [bind]. eauto.
Qed.

Lemma range_spec a b i : In i (range a b) <-> a <= i < b.
Proof.
  unfold range. rewrite in_map_iff. split.
  - intros (j & <- & Hj). apply in_seq in Hj. lia.
  - intros Hi. exists (Z.to_nat (i - a)). split; [lia|]. apply in_seq. lia.
Qed.

Lemma range_NoDup a b : List.NoDup (range a b).
Proof.
  unfold range. apply Finite.Injective_map_NoDup; [|apply seq_NoDup].
  intros x y. lia.
Qed.

Lemma range_length a b : Z.of_nat (length (range a b)) = Z.max 0 (b - a).
Proof. unfold range. rewrite length_map, length_seq. lia. Qed.

(** The loop over the session ids: every id of the list gets its record. *)
Lemma for_sids_spec sessions sids : forall d0,
  (forall sid, In sid sids ->
     0 <= sid < Z.of_nat (length sessions) /\
     forall block, sessions !! Z.to_nat sid = Some block ->
                   exists v, session_record block = Ok v) ->
  exists d,
    for_sids sessions d0 sids = Ok d /\
    dom d = dom d0 ∪ list_to_set (map (fun sid => sid + 1) sids) /\
    (forall key v, d !! key = Some v ->
       d0 !! key = Some v \/
       exists block, In (key - 1) sids /\
                     sessions !! Z.to_nat (key - 1) = Some block /\
                     session_record block = Ok v).
Proof.
  induction sids as [|sid sids IH]; intros d0 Hok.
  - exists d0. split; [reflexivity|]. split; [|auto].
    cbn [map]. now rewrite list_to_set_nil, union_empty_r_L.
  - destruct (Hok sid (or_introl eq_refl)) as [Hrange Hrec].
    destruct (getitem_lookup sessions sid Hrange) as (block & Hblock & Hget).
    destruct (Hrec block Hblock) as [v Hv].
    cbn [for_sids]. unfold session_step. rewrite Hget. cbn [bind].
    rewrite Hv. cbn [bind].
    destruct (IH (<[sid + 1 := v]> d0)) as (d & Hd & Hdom & Hval).
    { intros sid' Hin. apply Hok. now right. }
    exists d. split; [exact Hd|]. split.
    + rewrite Hdom, dom_insert_L. cbn [map]. rewrite list_to_set_cons.
      rewrite (comm_L (∪) {[sid + 1]} (dom d0)). now rewrite (assoc_L (∪)).
    + intros key v' Hkey. destruct (Hval key v' Hkey) as [H0 | (b & Hin & Hb & Hr)].
      * destruct (decide (key = sid + 1)) as [-> | Hne].
        -- rewrite lookup_insert_eq in H0. injection H0 as <-.
           right. exists block. replace (sid + 1 - 1) with sid by lia.
           split; [now left | auto].
        -- rewrite lookup_insert_ne in H0 by congruence. now left.
      * right. exists b. split; [now right | auto].
Qed.

(** C3: when block discovery finds fewer blocks than [n_last],
    [process_sessions] fails with the assertion error of its check
    [len(sessions) >= n_last]; it does not go on with the blocks there
    are. *)
Theorem process_sessions_insufficient (text : str) (n_last : Z) :
  Z.of_nat (length (Sre.findall match_exp text)) < n_last ->
  process_sessions text n_last = Raise AssertionError.
Proof.
  intros H. unfold process_sessions.
  destruct (Z.geb_spec (Z.of_nat (length (Sre.findall match_exp text))) n_last);
    [lia | reflexivity].
Qed.

(** C1, amended: when the [k] blocks that block discovery finds are well
    formed, their readings fit a 64-bit integer, and [0 <= n_last <= k],
    [process_sessions] returns a mapping with exactly [n_last] entries; its
    keys are the last [n_last] integers of [1 .. k], and the entry of a key
    is the record of the block at that position among all [k] blocks. *)
Theorem process_sessions_trailing_ids (text : str) (n_last : Z) :
  let sessions := Sre.findall match_exp text in
  let k := Z.of_nat (length sessions) in
  forallb well_formed_block sessions = true ->
  forallb readings_fit sessions = true ->
  0 <= n_last <= k ->
  exists sid_dict,
    process_sessions text n_last = Ok sid_dict /\
    Z.of_nat (size sid_dict) = n_last /\
    (forall key, key ∈ dom sid_dict <-> is_trailing_id k n_last key) /\
    (forall key v, sid_dict !! key = Some v ->
       exists block, sessions !! Z.to_nat (key - 1) = Some block /\
                     session_record block = Ok v).
Proof.
  intros sessions k Hwf Hfit Hn.
  unfold process_sessions. fold sessions. fold k.
  destruct (Z.geb_spec k n_last) as [_ | Hlt]; [|lia].
  destruct (for_sids_spec sessions (rev (range (k - n_last) k)) ∅)
    as (d & Hd & Hdom & Hval).
  { intros sid Hin. apply in_rev, range_spec in Hin. split; [unfold k in *; lia|].
    intros block Hblock.
    assert (Hin' : In block sessions)
      by (apply list_elem_of_In; eapply list_elem_of_lookup_2; exact Hblock).
    rewrite forallb_forall in Hwf. rewrite forallb_forall in Hfit.
    apply session_record_well_formed; [now apply Hwf | now apply Hfit]. }
  exists d. split; [exact Hd|].
  assert (Hkeys : forall key, key ∈ dom d <-> is_trailing_id k n_last key).
  { intros key. rewrite Hdom, dom_empty_L, elem_of_union, elem_of_list_to_set.
    rewrite list_elem_of_In, in_map_iff. unfold is_trailing_id. split.
    - intros [H | (sid & <- & Hin)]; [now apply elem_of_empty in H|].
      apply in_rev, range_spec in Hin. lia.
    - intros Hkey. right. exists (key - 1). split; [lia|].
      apply -> in_rev. apply range_spec. lia. }
  split; [|split; [exact Hkeys|]].
  - rewrite <- size_dom, Hdom, dom_empty_L, union_empty_l_L.
    rewrite size_list_to_set.
    + rewrite length_map, length_rev, range_length. lia.
    + apply NoDup_ListNoDup.
      apply Finite.Injective_map_NoDup; [intros x y; lia|].
      apply NoDup_rev, range_NoDup.
  - intros key v Hkey. destruct (Hval key v Hkey) as [H0 | (b & _ & Hb & Hr)].
    + rewrite lookup_empty in H0. discriminate.
    + eauto.
Qed.

(** ** Block discovery *)
Section Matcher.
Local Open Scope nat_scope.

Lemma last_of_snoc prev t c : last_of prev (t ++ [c]) = Some c.
Proof. revert prev. induction t; intros prev; simpl; auto. Qed.

Lemma last_of_app prev t u : last_of prev (t ++ u) = last_of (last_of prev t) u.
Proof. revert prev. induction t; intros prev; simpl; auto. Qed.

Lemma ascii_eqb_eq (a b : ascii) : Ascii.eqb a b = true -> a = b.
Proof. apply Ascii.eqb_eq. Qed.

(** The lazy repeat, for any tail whose matches have the shape [A]. *)
Lemma min_repeat_any_sound
    (tail : option ascii -> str -> option (list str * nat))
    (A : option ascii -> str -> str -> list str -> Prop) capture :
  (forall prev s gs n, tail prev s = Some (gs, n) ->
     exists w rest, s = w ++ rest /\ length w = n /\ A prev w rest gs) ->
  forall s taken gs n,
    Sre.min_repeat_any tail capture s taken = Some (gs, n) ->
    exists t w rest gs',
      t <> [] /\ s = t ++ w ++ rest /\
      n = length taken + length t + length w /\
      gs = (if capture then [rev taken ++ t] else []) ++ gs' /\
      forall q, A (last_of q t) w rest gs'.
Proof.
  intros Htail. induction s as [|c s IH]; intros taken gs n H; [discriminate|].
  cbn [Sre.min_repeat_any] in H. cbn zeta in H.
  destruct (tail (Some c) s) as [[gs0 n0]|] eqn:E.
  - injection H as <- <-.
    destruct (Htail _ _ _ _ E) as (w & rest & -> & <- & HA).
    exists [c], w, rest, gs0.
    split; [discriminate|]. split; [reflexivity|]. split; [simpl; lia|].
    split; [reflexivity|]. intros q. exact HA.
  - destruct (IH _ _ _ H) as (t & w & rest & gs' & Ht & -> & -> & -> & HA).
    exists (c :: t), w, rest, gs'.
    split; [discriminate|]. split; [reflexivity|]. split; [simpl; lia|].
    split; [simpl; now rewrite <- app_assoc|]. intros q. simpl. apply HA.
Qed.

(** Whatever the matcher finds is a match in the declarative sense. *)
Lemma match_at_sound p : forall prev s gs n,
  Sre.match_at p prev s = Some (gs, n) ->
  exists w rest, s = w ++ rest /\ length w = n /\ accepts p prev w rest gs.
Proof.
  induction p as [|o p IH]; intros prev s gs n H.
  - injection H as <- <-. exists [], s. repeat split.
  - destruct o as [| |c|capture]; cbn [Sre.match_at] in H.
    + destruct (Sre.at_beginning_line prev) eqn:B; [|discriminate].
      destruct (IH _ _ _ _ H) as (w & rest & -> & <- & HA).
      exists w, rest. repeat split; auto.
    + destruct (Sre.at_end_line s) eqn:B; [|discriminate].
      destruct (IH _ _ _ _ H) as (w & rest & -> & <- & HA).
      exists w, rest. repeat split; auto.
    + destruct s as [|c' s]; [discriminate|].
      destruct (Ascii.eqb c' c) eqn:E; [|discriminate].
      apply ascii_eqb_eq in E. subst c'.
      destruct (Sre.match_at p (Some c) s) as [[gs0 n0]|] eqn:M; [|discriminate].
      injection H as <- <-.
      destruct (IH _ _ _ _ M) as (w & rest & -> & <- & HA).
      exists (c :: w), rest. repeat split; auto. cbn [accepts]. eauto.
    + destruct (min_repeat_any_sound (Sre.match_at p) (accepts p) capture IH _ _ _ _ H)
        as (t & w & rest & gs' & Ht & -> & -> & -> & HA).
      exists (t ++ w), rest. repeat split.
      * now rewrite <- app_assoc.
      * rewrite length_app. simpl. lia.
      * cbn [accepts]. exists t, w, gs'. repeat split; auto.
Qed.

(** A match of [match_exp] is a block. *)
Lemma match_exp_block prev s gs n :
  Sre.match_at match_exp prev s = Some (gs, n) ->
  Sre.at_beginning_line prev = true /\
  exists body sep gain rest,
    s = lit "start" ++ body ++ lit "end" ++ sep ++ lit "[" ++ gain ++ lit "]" ++ rest /\
    n = 5 + length body + 3 + length sep + 1 + length gain + 1 /\
    body <> [] /\ sep <> [] /\ gain <> [] /\
    gs = [body; gain] /\
    Sre.at_end_line rest = true.
Proof.
  intros H. apply match_at_sound in H as (w & rest & -> & <- & HA).
  cbn in HA.
  destruct HA as (Hb & w1 & -> & w2 & -> & w3 & -> & w4 & -> & w5 & -> & HA).
  destruct HA as (body & w6 & gs1 & Hbody & -> & -> & HA).
  destruct HA as (w7 & -> & w8 & -> & w9 & -> & HA).
  destruct HA as (sep & w10 & gs2 & Hsep & -> & -> & w11 & -> & HA).
  destruct HA as (gain & w12 & gs3 & Hgain & -> & -> & w13 & -> & He & -> & ->).
  split; [exact Hb|].
  exists body, sep, gain, rest. repeat split; auto.
  - cbn. repeat (rewrite <- app_assoc; cbn). reflexivity.
  - cbn [length]. rewrite !length_app. cbn [length]. rewrite !length_app.
    cbn [length]. rewrite !length_app. cbn [length]. lia.
Qed.

Lemma ordered_from_le lo lo' ms :
  lo' <= lo -> ordered_from lo ms -> ordered_from lo' ms.
Proof. destruct ms; simpl; [auto|]. intros ? (? & ? & ?). repeat split; auto. lia. Qed.

(** The scan, started after [before] with [skip] characters to pass. *)
Lemma scan_blocks text : forall s before skip,
  text = before ++ s ->
  let ms := Sre.scan match_exp (last_of None before) s (length before) skip in
  ordered_from (length before + skip) ms /\ Forall (block_at text) ms.
Proof.
  induction s as [|c s IH]; intros before skip Htext.
  - destruct skip; cbn [Sre.scan]; [|split; [exact I | constructor]].
    destruct (Sre.match_at match_exp (last_of None before) []) as [[gs n]|] eqn:M;
      [|split; [exact I | constructor]].
    apply match_exp_block in M as (_ & body & sep & gain & rest & E & _).
    discriminate.
  - assert (Hnext : text = (before ++ [c]) ++ s) by (now rewrite <- app_assoc).
    assert (Hlen : length (before ++ [c]) = S (length before))
      by (rewrite length_app; simpl; lia).
    pose proof (fun k => IH (before ++ [c]) k Hnext) as IH'.
    rewrite last_of_snoc, Hlen in IH'. cbn zeta in IH'.
    destruct skip as [|k]; cbn [Sre.scan].
    + destruct (Sre.match_at match_exp (last_of None before) (c :: s))
        as [[gs n]|] eqn:M.
      * apply match_exp_block in M
          as (Hb & body & sep & gain & rest & E & -> & Hbody & Hsep & Hgain & -> & He).
        destruct (IH' (Nat.pred (5 + length body + 3 + length sep + 1 + length gain + 1)))
          as [Hord Hall].
        split.
        -- cbn [ordered_from Sre.m_start Sre.m_end]. repeat split; [lia | lia |].
           eapply ordered_from_le; [|exact Hord]. lia.
        -- constructor; [|exact Hall].
           exists before, body, sep, gain, rest. cbn [Sre.m_start Sre.m_end Sre.m_groups].
           repeat split; auto. now rewrite Htext, E.
      * destruct (IH' 0) as [Hord Hall]. split; [|exact Hall].
        eapply ordered_from_le; [|exact Hord]. lia.
    + destruct (IH' k) as [Hord Hall]. split; [|exact Hall].
      eapply ordered_from_le; [|exact Hord]. lia.
Qed.

(** A literal in front of the text is matched character by character. *)
Lemma match_at_literal (w : str) : forall p prev s,
  w <> [] ->
  Sre.match_at (map Sre.LITERAL w ++ p) prev (w ++ s)
  = match Sre.match_at p (last_of prev w) s with
    | Some (gs, n) => Some (gs, length w + n)
    | None => None
    end.
Proof.
  induction w as [|c w IH]; intros p prev s Hw; [congruence|].
  cbn [map app Sre.match_at last_of length]. rewrite Ascii.eqb_refl.
  destruct w as [|c' w].
  - cbn [map app last_of length]. destruct (Sre.match_at p (Some c) s) as [[gs n]|]; reflexivity.
  - rewrite IH by discriminate.
    destruct (Sre.match_at p (last_of (Some c) (c' :: w)) s) as [[gs n]|]; reflexivity.
Qed.

(** A literal is not matched where the text starts with another character. *)
Lemma match_at_literal_mismatch c p prev x s :
  Ascii.eqb x c = false ->
  Sre.match_at (Sre.LITERAL c :: p) prev (x :: s) = None.
Proof. intros H. cbn [Sre.match_at]. now rewrite H. Qed.

(** The lazy repeat stops after [t] when the tail fails inside [t] and
    succeeds behind it. *)
Lemma min_repeat_any_stops tail capture (t : str) : forall rest taken gs n,
  t <> [] ->
  (forall t1 c t2, t = t1 ++ c :: t2 -> t2 <> [] -> tail (Some c) (t2 ++ rest) = None) ->
  tail (last_of None t) rest = Some (gs, n) ->
  Sre.min_repeat_any tail capture (t ++ rest) taken
  = Some ((if capture then [rev taken ++ t] else []) ++ gs,
          length taken + length t + n).
Proof.
  induction t as [|c t IH]; intros rest taken gs n Ht Hfail Hok; [congruence|].
  cbn [app Sre.min_repeat_any]. cbn zeta.
  destruct t as [|c' t].
  - cbn [app last_of] in *. rewrite Hok. cbn [rev length]. do 2 f_equal. lia.
  - rewrite (Hfail [] c (c' :: t) eq_refl) by discriminate.
    rewrite (IH rest (c :: taken) gs n); [| discriminate | | exact Hok].
    + cbn [rev length]. rewrite <- app_assoc. cbn [app]. do 2 f_equal. lia.
    + intros t1 x t2 E Ht2. apply (Hfail (c :: t1) x t2); [|exact Ht2].
      cbn [app]. now rewrite E.
Qed.

Lemma lacks_split c t t1 x t2 :
  lacks c t = true -> t = t1 ++ x :: t2 -> t2 <> [] ->
  exists y t3, t2 = y :: t3 /\ Ascii.eqb y c = false.
Proof.
  intros H -> Ht2. destruct t2 as [|y t3]; [congruence|]. exists y, t3.
  split; [reflexivity|]. unfold lacks in H. rewrite forallb_app in H.
  apply andb_true_iff in H as [_ H]. cbn in H.
  apply andb_true_iff in H as [_ H]. apply andb_true_iff in H as [H _].
  now apply negb_true_iff.
Qed.

(** A lazy repeat in front of a literal [c] stops at the first [c] when
    none occurs in [t] and the tail succeeds there. *)
Lemma min_repeat_any_until c p capture t rest gs n :
  t <> [] -> lacks c t = true ->
  Sre.match_at (Sre.LITERAL c :: p) (last_of None t) rest = Some (gs, n) ->
  Sre.min_repeat_any (Sre.match_at (Sre.LITERAL c :: p)) capture (t ++ rest) []
  = Some ((if capture then [t] else []) ++ gs, length t + n).
Proof.
  intros Ht Hc Hok.
  rewrite (min_repeat_any_stops _ capture t rest [] gs n Ht); [reflexivity | | exact Hok].
  intros t1 x t2 E Ht2.
  destruct (lacks_split c t t1 x t2 Hc E Ht2) as (y & t3 & -> & Hy).
  cbn [app]. now apply match_at_literal_mismatch.
Qed.

(** One block and nothing else: the matcher finds it, whatever stands
    between the brackets. *)
Lemma match_exp_one_block body sep gain :
  body <> [] -> lacks "e" body = true ->
  sep <> [] -> lacks "[" sep = true ->
  gain <> [] -> lacks "]" gain = true ->
  Sre.match_at match_exp None
    (lit "start" ++ body ++ lit "end" ++ sep ++ lit "[" ++ gain ++ lit "]")
  = Some ([body; gain],
          5 + (length body + (3 + (length sep + (1 + (length gain + 1)))))).
Proof.
  intros Hb Eb Hs Es Hg Eg.
  unfold match_exp. cbn [app Sre.match_at Sre.at_beginning_line].
  unfold Sre.literal.
  rewrite (match_at_literal (lit "start")) by discriminate.
  cbn [Sre.match_at].
  change (map Sre.LITERAL (lit "end") ++ ?p)
    with (Sre.LITERAL "e" :: map Sre.LITERAL (lit "nd") ++ p).
  rewrite (min_repeat_any_until "e" _ true body _ [gain]
             (3 + (length sep + (1 + (length gain + 1))))); [reflexivity | exact Hb | exact Eb |].
  change (Sre.LITERAL "e" :: map Sre.LITERAL (lit "nd") ++ ?p)
    with (map Sre.LITERAL (lit "end") ++ p).
  rewrite (match_at_literal (lit "end")) by discriminate.
  cbn [Sre.match_at].
  change (map Sre.LITERAL (lit "[") ++ ?p) with (Sre.LITERAL "[" :: p).
  rewrite (min_repeat_any_until "[" _ false sep _ [gain] (1 + (length gain + 1)));
    [reflexivity | exact Hs | exact Es |].
  change (Sre.LITERAL "[" :: ?p) with (map Sre.LITERAL (lit "[") ++ p).
  rewrite (match_at_literal (lit "[")) by discriminate.
  cbn [Sre.match_at].
  change (map Sre.LITERAL (lit "]") ++ ?p) with (Sre.LITERAL "]" :: p).
  rewrite (min_repeat_any_until "]" _ true gain _ [] 1); [reflexivity | exact Hg | exact Eg |].
  reflexivity.
Qed.

Lemma match_exp_nothing prev : Sre.match_at match_exp prev [] = None.
Proof. cbn. now destruct (Sre.at_beginning_line prev). Qed.

(** Past the end of the last match nothing is left to scan. *)
Lemma scan_past_end : forall s prev pos skip,
  length s <= skip -> Sre.scan match_exp prev s pos skip = [].
Proof.
  induction s as [|c s IH]; intros prev pos skip H.
  - destruct skip; cbn [Sre.scan]; [|reflexivity]. now rewrite match_exp_nothing.
  - destruct skip as [|k]; [cbn in H; lia|]. cbn [Sre.scan]. apply IH. cbn in H. lia.
Qed.

Lemma finditer_whole_text text gs :
  Sre.match_at match_exp None text = Some (gs, length text) ->
  Sre.finditer match_exp text
  = [{| Sre.m_start := 0; Sre.m_end := length text; Sre.m_groups := gs |}].
Proof.
  intros H. unfold Sre.finditer. destruct text as [|c text].
  - now rewrite match_exp_nothing in H.
  - cbn [Sre.scan]. rewrite H. f_equal. apply scan_past_end. cbn. lia.
Qed.

Lemma findall_one_block body sep gain :
  body <> [] -> lacks "e" body = true ->
  sep <> [] -> lacks "[" sep = true ->
  gain <> [] -> lacks "]" gain = true ->
  Sre.findall match_exp
    (lit "start" ++ body ++ lit "end" ++ sep ++ lit "[" ++ gain ++ lit "]")
  = [(body, gain)].
Proof.
  intros Hb Eb Hs Es Hg Eg. unfold Sre.findall.
  rewrite (finditer_whole_text _ [body; gain]); [reflexivity|].
  rewrite match_exp_one_block by assumption. do 2 f_equal.
  cbn [lit list_ascii_of_string app length]. rewrite !length_app.
  cbn [length]. rewrite !length_app. cbn [length]. rewrite !length_app. cbn [length]. lia.
Qed.

(** C4, amended: the blocks are found in the order of the text, one after
    the other without overlap or nesting, and each one is a region
    [start body end sep [gain]] that begins a line and ends one, with
    [body], [sep] and [gain] not empty but otherwise any text.  Block
    discovery does not check that the gain field is a numeral, nor that a
    body holds one session only: a text that is one such region, with no
    letter [e] in [body], no opening bracket in [sep] and no closing
    bracket in [gain], is found as one block with that body and that gain,
    whatever the gain is and however many [start] lines the body holds. *)
Theorem finditer_blocks_in_order :
  (forall text : str,
     let ms := Sre.finditer match_exp text in
     Sre.findall match_exp text = map Sre.group_pair ms /\
     ordered_from 0 ms /\
     Forall (block_at text) ms) /\
  (forall body sep gain : str,
     body <> [] -> lacks "e" body = true ->
     sep <> [] -> lacks "[" sep = true ->
     gain <> [] -> lacks "]" gain = true ->
     Sre.findall match_exp
       (lit "start" ++ body ++ lit "end" ++ sep ++ lit "[" ++ gain ++ lit "]")
     = [(body, gain)]).
Proof.
  split.
  - intros text ms. split; [reflexivity|].
    apply (scan_blocks text text [] 0). reflexivity.
  - apply findall_one_block.
Qed.

(** C4, amended, at a block whose gain field is [abc]. *)
Lemma finditer_blocks_in_order_witness :
  Sre.findall match_exp
    (lit "start" ++ (newline :: lit "1,0" ++ [newline]) ++ lit "end" ++ lit " "
     ++ lit "[" ++ lit "abc" ++ lit "]")
  = [(newline :: lit "1,0" ++ [newline], lit "abc")].
Proof.
  apply (proj2 finditer_blocks_in_order (newline :: lit "1,0" ++ [newline])
           (lit " ") (lit "abc"));
    (discriminate || reflexivity).
Defined.
End Matcher.

(** ** Numerals *)
Section Characters.

Lemma isdigit_not_underscore c : isdigit c = true -> Ascii.eqb c "_"%char = false.
Proof.
  intros H. destruct (Ascii.eqb_spec c "_"%char) as [-> | _]; [discriminate | reflexivity].
Qed.

Lemma isdigit_not_sign c :
  isdigit c = true -> Ascii.eqb c "-"%char = false /\ Ascii.eqb c "+"%char = false.
Proof.
  intros H. split.
  - destruct (Ascii.eqb_spec c "-"%char) as [-> | _]; [discriminate | reflexivity].
  - destruct (Ascii.eqb_spec c "+"%char) as [-> | _]; [discriminate | reflexivity].
Qed.

Lemma isdigit_not_space c :
  isdigit c = true -> isspace c = false /\ isspace_numeric c = false.
Proof.
  unfold isdigit, isspace, isspace_numeric. intros H.
  apply andb_true_iff in H as [H1 H2].
  apply Z.leb_le in H1. apply Z.leb_le in H2.
  split.
  - repeat (apply orb_false_iff; split); try (apply andb_false_iff);
      try (right; apply Z.leb_gt; lia); try (left; apply Z.leb_gt; lia);
      apply Z.eqb_neq; lia.
  - repeat (apply orb_false_iff; split); try (apply andb_false_iff);
      try (right; apply Z.leb_gt; lia); try (left; apply Z.leb_gt; lia);
      apply Z.eqb_neq; lia.
Qed.

Lemma isspace_numeric_isspace c : isspace_numeric c = true -> isspace c = true.
Proof.
  unfold isspace, isspace_numeric. intros H.
  repeat (apply orb_true_iff in H as [H | H]).
  - apply andb_true_iff in H as [H1 H2]. now rewrite H1, H2.
  - apply Z.eqb_eq in H. rewrite H. reflexivity.
  - rewrite H. now rewrite !orb_true_r.
  - rewrite H. now rewrite !orb_true_r.
Qed.

End Characters.

Section IntAndFloat.

(** A numeral that [int] accepts: once the underscores are dropped, only
    digits are left, with the same value. *)
Lemma digits_value_drop_underscores s : forall pk pc acc count n,
  prev_agrees pk pc ->
  digits_value s pk acc = Some n ->
  exists ds,
    drop_underscores s pc = Some ds /\
    forallb isdigit ds = true /\
    take_digits ds acc count = (n, (count + length ds)%nat, []) /\
    (pk = PStart -> ds <> []).
Proof.
  induction s as [|c s IH]; intros pk pc acc count n Hprev H.
  - destruct pk; try discriminate. injection H as <-.
    destruct Hprev as (c & -> & Hc). exists []. cbn.
    rewrite (isdigit_not_underscore c Hc).
    split; [reflexivity|]. split; [reflexivity|]. split; [|discriminate].
    do 2 f_equal. lia.
  - cbn [digits_value] in H. cbn [drop_underscores].
    destruct (isdigit c) eqn:Hc.
    + rewrite (isdigit_not_underscore c Hc).
      destruct (IH PDigit (Some c) (10 * acc + digit_value c) (S count) n) as (ds & E & Hds & Htake & _).
      { exists c. auto. }
      { exact H. }
      exists (c :: ds).
      assert (Hdrop : option_map (cons c) (drop_underscores s (Some c)) = Some (c :: ds))
        by now rewrite E.
      split.
      { destruct pc as [p|]; [|exact Hdrop].
        destruct (Ascii.eqb p "_"); exact Hdrop. }
      split; [cbn; now rewrite Hc, Hds|].
      split; [|discriminate].
      cbn [take_digits]. rewrite Hc, Htake. cbn [length]. f_equal. f_equal. lia.
    + destruct (Ascii.eqb c "_") eqn:Hu; [|discriminate].
      destruct pk; try discriminate.
      destruct Hprev as (p & -> & Hp). rewrite Hp.
      destruct (IH PUnderscore (Some c) acc count n) as (ds & E & Hds & Htake & _).
      { apply Ascii.eqb_eq in Hu. now subst c. }
      { exact H. }
      exists ds. split; [exact E|]. split; [exact Hds|]. split; [exact Htake|].
      discriminate.
Qed.

Lemma split_sign_cases s :
  (exists c, (c = "-"%char \/ c = "+"%char) /\
             s = c :: snd (split_sign s) /\
             fst (split_sign s) = Ascii.eqb c "-"%char) \/
  (split_sign s = (false, s) /\
   match s with
   | c :: _ => Ascii.eqb c "-"%char = false /\ Ascii.eqb c "+"%char = false
   | [] => True
   end).
Proof.
  destruct s as [|c s]; [right; split; auto|]. cbn [split_sign].
  destruct (Ascii.eqb_spec c "-"%char) as [-> | Hm].
  - left. exists "-"%char. auto.
  - destruct (Ascii.eqb_spec c "+"%char) as [-> | Hp].
    + left. exists "+"%char. auto.
    + right. auto.
Qed.

Lemma split_sign_digits ds :
  forallb isdigit ds = true -> split_sign ds = (false, ds).
Proof.
  destruct ds as [|c ds]; [reflexivity|]. cbn. intros H.
  apply andb_true_iff in H as [Hc _].
  destruct (isdigit_not_sign c Hc) as [-> ->]. reflexivity.
Qed.

(** The float of a numeral that [int] accepts. *)
Lemma float_of_str_of_int s z :
  int s = Ok z ->
  exists (neg : bool) (n : Z),
    0 <= n /\ z = (if neg then - n else n) /\
    float_of_str s = Ok (float_of_decimal neg n 0).
Proof.
  unfold Py.int, float_of_str. set (s0 := strip_with isspace_numeric s).
  destruct (split_sign s0) as [neg body] eqn:Es.
  destruct (digits_value body PStart 0) as [n|] eqn:Ed; [|discriminate].
  destruct (count_digits body <=? max_str_digits); [|discriminate].
  intros H. injection H as <-.
  exists neg, n.
  assert (Hn : 0 <= n).
  { clear - Ed. assert (G : forall s pk acc m, 0 <= acc -> digits_value s pk acc = Some m -> 0 <= m).
    { induction s as [|c s IH]; intros pk acc m Hacc H.
      - destruct pk; try discriminate. now injection H as <-.
      - cbn in H. destruct (isdigit c) eqn:Hc.
        + eapply IH; [|exact H]. unfold isdigit in Hc. unfold digit_value.
          apply andb_true_iff in Hc as [H1 _]. apply Z.leb_le in H1. lia.
        + destruct (Ascii.eqb c "_"); [|discriminate].
          destruct pk; try discriminate. eapply IH; eauto. }
    eapply G; [|exact Ed]. lia. }
  split; [exact Hn|]. split; [reflexivity|].
  destruct (split_sign_cases s0) as [(c & Hc & E & Hneg) | (E & Hhead)].
  - rewrite Es in E, Hneg. cbn [fst snd] in E, Hneg.
    destruct (digits_value_drop_underscores body PStart (Some c) 0 0%nat n)
      as (ds & Hdrop & Hds & Htake & Hne); [|exact Ed|].
    { cbn. destruct Hc as [-> | ->]; split; reflexivity. }
    rewrite E. cbn [drop_underscores].
    assert (Hu : Ascii.eqb c "_"%char = false) by (destruct Hc as [-> | ->]; reflexivity).
    rewrite Hu, Hdrop. cbn [option_map].
    unfold parse_decimal.
    assert (Hsplit : split_sign (c :: ds) = (neg, ds)).
    { destruct Hc as [-> | ->]; cbn in Hneg; subst neg; reflexivity. }
    rewrite Hsplit, Htake. cbn [Nat.add].
    destruct ds as [|d ds]; [now specialize (Hne eq_refl)|].
    cbn [length Nat.add parse_exponent]. now rewrite Z.sub_0_r.
  - rewrite Es in E. injection E as -> ->.
    destruct (digits_value_drop_underscores s0 PStart None 0 0%nat n)
      as (ds & Hdrop & Hds & Htake & Hne); [exact I | exact Ed |].
    rewrite Hdrop. unfold parse_decimal.
    rewrite (split_sign_digits ds Hds), Htake. cbn [Nat.add].
    destruct ds as [|d ds]; [now specialize (Hne eq_refl)|].
    cbn [length Nat.add parse_exponent]. now rewrite Z.sub_0_r.
Qed.

End IntAndFloat.

Section Floats.

Lemma shr_1_nonneg mrs : 0 <= shr_m mrs -> 0 <= shr_m (shr_1 mrs).
Proof.
  destruct mrs as [m r s]. cbn [shr_m]. intros H.
  destruct m as [|p|p]; [cbn; lia | | lia].
  destruct p; cbn; lia.
Qed.

Lemma iter_pos_invariant {A} (P : A -> Prop) (f : A -> A) :
  (forall a, P a -> P (f a)) -> forall p a, P a -> P (SpecFloat.iter_pos f p a).
Proof.
  intros Hf. induction p as [p IH | p IH |]; intros a Ha; cbn [SpecFloat.iter_pos]; auto.
Qed.

Lemma shr_fexp_nonneg m e l :
  0 <= m -> 0 <= shr_m (fst (shr_fexp prec emax m e l)).
Proof.
  intros Hm. unfold shr_fexp, shr.
  assert (H0 : 0 <= shr_m (shr_record_of_loc m l)) by (destruct l as [|[]]; exact Hm).
  destruct (fexp prec emax (Zdigits2 m + e) - e) as [|p|p]; cbn [fst]; auto.
  apply (iter_pos_invariant (fun mrs => 0 <= shr_m mrs)); auto using shr_1_nonneg.
Qed.

Lemma round_nearest_even_nonneg m l : 0 <= m -> 0 <= round_nearest_even m l.
Proof.
  intros Hm. unfold round_nearest_even. destruct l as [|[]]; try lia.
  destruct (Z.even m); lia.
Qed.

Lemma binary_round_aux_not_nan sx mx ex lx :
  0 <= mx -> binary_round_aux prec emax sx mx ex lx <> S754_nan.
Proof.
  intros Hm. unfold binary_round_aux.
  pose proof (shr_fexp_nonneg mx ex lx Hm) as H1.
  destruct (shr_fexp prec emax mx ex lx) as [mrs' e'] eqn:E1. cbn [fst] in H1.
  pose proof (shr_fexp_nonneg _ e' loc_Exact
                (round_nearest_even_nonneg _ (loc_of_shr_record mrs') H1)) as H2.
  destruct (shr_fexp prec emax (round_nearest_even (shr_m mrs') (loc_of_shr_record mrs'))
              e' loc_Exact) as [mrs'' e''] eqn:E2.
  cbn [fst] in H2.
  destruct (shr_m mrs'') as [|p|p]; [discriminate | | lia].
  destruct (e'' <=? emax - prec); discriminate.
Qed.

Lemma binary_round_not_nan sx mx ex : binary_round prec emax sx mx ex <> S754_nan.
Proof.
  unfold binary_round.
  destruct (shl_align mx ex (fexp prec emax (Z.pos (digits2_pos mx) + ex))) as [mz ez].
  apply binary_round_aux_not_nan. lia.
Qed.

Lemma float_of_Z_not_nan z : float_of_Z z <> S754_nan.
Proof.
  unfold float_of_Z, binary_normalize.
  destruct z; [discriminate | apply binary_round_not_nan ..].
Qed.

Lemma SFdiv_thousand_not_nan x :
  x <> S754_nan -> SFdiv prec emax x thousand <> S754_nan.
Proof.
  intros Hx. unfold thousand.
  destruct x as [s | s | | s m e]; [discriminate | discriminate | congruence |].
  unfold SFdiv.
  destruct (SFdiv_core_binary prec emax (Z.pos m) e (Z.pos 8796093022208000) (-43))
    as [[mz ez] lz] eqn:E.
  apply binary_round_aux_not_nan.
  unfold SFdiv_core_binary in E.
  set (m' := match _ with Z.pos _ => _ | Z0 => _ | Z.neg _ => _ end) in E.
  assert (Hm' : 0 <= m').
  { subst m'. destruct (_ - _ - _) as [|p|p]; [lia | | lia].
    apply Z.shiftl_nonneg. lia. }
  pose proof (Z_div_mod m' (Z.pos 8796093022208000) eq_refl) as Hdiv.
  destruct (Z.div_eucl m' (Z.pos 8796093022208000)) as [q r].
  injection E as <- _ _. nia.
Qed.

Lemma SFeqb_refl x : x <> S754_nan -> SFeqb x x = true.
Proof.
  intros Hx. unfold SFeqb, SFcompare.
  destruct x as [s | s | | s m e]; [reflexivity | destruct s; reflexivity | congruence |].
  rewrite Z.compare_refl. rewrite Pos.compare_cont_refl.
  destruct s; reflexivity.
Qed.

(** The float of an integer numeral, against the conversion of its value. *)
Lemma float_of_decimal_integer neg n :
  0 <= n ->
  float_eq (float_of_decimal neg n 0) (float_of_Z (if neg then - n else n)) = true /\
  float_eq
    (SFdiv prec emax (float_of_decimal neg n 0) thousand)
    (SFdiv prec emax (float_of_Z (if neg then - n else n)) thousand) = true.
Proof.
  intros Hn. destruct n as [|p|p]; [| |lia].
  - destruct neg; split; reflexivity.
  - assert (E : float_of_decimal neg (Z.pos p) 0
                = float_of_Z (if neg then - Z.pos p else Z.pos p)).
    { unfold float_of_decimal, float_of_Z. cbn [Z.leb Z.compare Z.pow Z.to_pos].
      rewrite Pos.mul_1_r. destruct neg; reflexivity. }
    rewrite E. unfold float_eq. split; apply SFeqb_refl.
    + apply float_of_Z_not_nan.
    + apply SFdiv_thousand_not_nan, float_of_Z_not_nan.
Qed.

End Floats.

(** ** Stripping *)
Section Strip.
Variable sp : ascii -> bool.

Lemma lstrip_spaces w s :
  forallb sp w = true -> lstrip_with sp (w ++ s) = lstrip_with sp s.
Proof.
  induction w as [|c w IH]; [reflexivity|]. cbn. intros H.
  apply andb_true_iff in H as [-> H]. auto.
Qed.

Lemma lstrip_kept s : head_kept sp s -> lstrip_with sp s = s.
Proof. destruct s as [|c s]; [reflexivity|]. cbn. now intros ->. Qed.

Lemma lstrip_all_spaces w : forallb sp w = true -> lstrip_with sp w = [].
Proof.
  intros H. rewrite <- (app_nil_r w). now rewrite lstrip_spaces.
Qed.

Lemma forallb_rev w : forallb sp (rev w) = forallb sp w.
Proof.
  induction w as [|c w IH]; [reflexivity|]. cbn [rev].
  rewrite forallb_app, IH. cbn. rewrite andb_true_r. apply andb_comm.
Qed.

Lemma head_kept_app s t : s <> [] -> head_kept sp s -> head_kept sp (s ++ t).
Proof. destruct s; [congruence | auto]. Qed.

(** A text between two runs of whitespace is what [strip] returns. *)
Lemma strip_with_core w1 core w2 :
  forallb sp w1 = true -> forallb sp w2 = true ->
  head_kept sp core -> last_kept sp core ->
  strip_with sp (w1 ++ core ++ w2) = core.
Proof.
  intros H1 H2 Hh Hl. unfold strip_with, rstrip_with.
  rewrite lstrip_spaces by assumption.
  destruct core as [|c core].
  - cbn [app]. rewrite (lstrip_all_spaces w2 H2). reflexivity.
  - rewrite (lstrip_kept ((c :: core) ++ w2)) by exact Hh.
    rewrite rev_app_distr, lstrip_spaces by now rewrite forallb_rev.
    rewrite lstrip_kept by exact Hl. apply rev_involutive.
Qed.

Lemma lstrip_decompose s :
  exists w, s = w ++ lstrip_with sp s /\ forallb sp w = true /\
            head_kept sp (lstrip_with sp s).
Proof.
  induction s as [|c s (w & E & Hw & Hh)].
  - exists []. repeat split.
  - cbn [lstrip_with]. destruct (sp c) eqn:Hc.
    + exists (c :: w). cbn. rewrite Hc, Hw. rewrite <- E. auto.
    + exists []. cbn. auto.
Qed.

(** Every text is its stripped form between two runs of whitespace. *)
Lemma strip_decompose s :
  exists w1 w2,
    s = w1 ++ strip_with sp s ++ w2 /\
    forallb sp w1 = true /\ forallb sp w2 = true /\
    head_kept sp (strip_with sp s) /\ last_kept sp (strip_with sp s).
Proof.
  destruct (lstrip_decompose s) as (w1 & E1 & Hw1 & Hh).
  destruct (lstrip_decompose (rev (lstrip_with sp s))) as (w & E2 & Hw & Hl).
  unfold strip_with, rstrip_with.
  set (t := lstrip_with sp s) in *. set (r := lstrip_with sp (rev t)) in *.
  assert (Et : t = rev r ++ rev w).
  { rewrite <- rev_app_distr, <- E2. symmetry. apply rev_involutive. }
  exists w1, (rev w). split; [now rewrite <- Et|].
  split; [exact Hw1|]. split; [now rewrite forallb_rev|]. split.
  - destruct (rev r) as [|c r'] eqn:Er; [exact I|].
    rewrite Et in Hh. exact Hh.
  - unfold last_kept. now rewrite rev_involutive.
Qed.

Lemma strip_empty_iff s : strip_with sp s = [] <-> forallb sp s = true.
Proof.
  split.
  - intros E. destruct (strip_decompose s) as (w1 & w2 & Es & H1 & H2 & _).
    rewrite E in Es. rewrite Es, forallb_app, H1. exact H2.
  - intros H. rewrite <- (app_nil_r s). change (s ++ []) with (s ++ [] ++ []).
    rewrite <- (app_nil_r (s ++ [] ++ [])), <- app_assoc.
    apply (strip_with_core s [] []); auto; exact I.
Qed.

End Strip.

(** ** The sample series *)
Section Series.

Lemma numeral_char_kept c :
  numeral_char c = true -> isspace c = false.
Proof.
  unfold numeral_char. intros H.
  repeat (apply orb_true_iff in H as [H | H]).
  - now apply isdigit_not_space.
  - apply Ascii.eqb_eq in H. now subst c.
  - apply Ascii.eqb_eq in H. now subst c.
  - apply Ascii.eqb_eq in H. now subst c.
Qed.

Lemma digits_value_chars s : forall pk acc n,
  digits_value s pk acc = Some n -> forallb numeral_char s = true.
Proof.
  induction s as [|c s IH]; intros pk acc n H; [reflexivity|].
  cbn in H. cbn [forallb]. unfold numeral_char at 1.
  destruct (isdigit c) eqn:Hc.
  - cbn. eauto.
  - destruct (Ascii.eqb c "_") eqn:Hu; [|discriminate].
    destruct pk; try discriminate. cbn. eauto.
Qed.

(** What a successful [int] says of the stripped numeral. *)
Lemma int_ok_numeral s z :
  int s = Ok z ->
  strip_with isspace_numeric s <> [] /\
  forallb numeral_char (strip_with isspace_numeric s) = true.
Proof.
  unfold Py.int. set (q := strip_with isspace_numeric s).
  destruct (split_sign q) as [neg b] eqn:Es.
  destruct (digits_value b PStart 0) as [n|] eqn:Ed; [|discriminate]. intros _.
  pose proof (digits_value_chars _ _ _ _ Ed) as Hb.
  assert (b <> []) by (intros ->; discriminate).
  destruct (split_sign_cases q) as [(c & Hc & E & _) | (E & _)];
    rewrite Es in E; cbn [snd] in E.
  - rewrite E. split; [discriminate|]. cbn [forallb]. rewrite Hb.
    destruct Hc as [-> | ->]; reflexivity.
  - injection E as _ <-. auto.
Qed.

Lemma int_strip_eq s t :
  strip_with isspace_numeric s = strip_with isspace_numeric t -> int s = int t.
Proof. unfold Py.int. now intros ->. Qed.

Lemma kept_of_all_kept (sp : ascii -> bool) s :
  forallb (fun c => negb (sp c)) s = true -> head_kept sp s /\ last_kept sp s.
Proof.
  intros H. unfold last_kept. split.
  - destruct s as [|c s]; [exact I|]. cbn in *.
    apply andb_true_iff in H as [H _]. now apply negb_true_iff.
  - rewrite <- (forallb_rev (fun c => negb (sp c))) in H.
    destruct (rev s) as [|c r]; [exact I|]. cbn in *.
    apply andb_true_iff in H as [H _]. now apply negb_true_iff.
Qed.

Lemma forallb_impl (P Q : ascii -> bool) s :
  (forall c, P c = true -> Q c = true) -> forallb P s = true -> forallb Q s = true.
Proof.
  intros HPQ. induction s as [|c s IH]; [reflexivity|]. cbn.
  intros H. apply andb_true_iff in H as [Hc Hs]. now rewrite (HPQ c Hc), IH.
Qed.

(** A line is what stands in front of its first comma, followed by
    nothing or by that comma and the rest. *)
Lemma before_first_comma_decompose line :
  no_comma (before_first_comma line) = true /\
  (line = before_first_comma line \/
   exists rest, line = before_first_comma line ++ comma :: rest).
Proof.
  induction line as [|c line (Hno & IH)]; [split; [reflexivity | now left]|].
  cbn [before_first_comma]. destruct (Ascii.eqb_spec c ","%char) as [-> | Hc].
  - split; [reflexivity|]. right. exists line. reflexivity.
  - split.
    + unfold no_comma in *. cbn [forallb]. rewrite Hno. unfold comma.
      destruct (Ascii.eqb_spec c ","%char); [contradiction | reflexivity].
    + destruct IH as [IH | (rest & IH)].
      * left. cbn. now rewrite <- IH.
      * right. exists rest. cbn. now rewrite <- IH.
Qed.

Lemma before_first_comma_prefix a rest :
  no_comma a = true -> before_first_comma (a ++ comma :: rest) = a.
Proof.
  induction a as [|c a IH]; [reflexivity|]. cbn. intros H.
  apply andb_true_iff in H as [Hc Ha]. apply negb_true_iff in Hc.
  unfold comma in Hc. rewrite Hc. now rewrite IH.
Qed.

Lemma before_first_comma_all a :
  no_comma a = true -> before_first_comma a = a.
Proof.
  induction a as [|c a IH]; [reflexivity|]. cbn. intros H.
  apply andb_true_iff in H as [Hc Ha]. apply negb_true_iff in Hc.
  unfold comma in Hc. rewrite Hc. now rewrite IH.
Qed.

(** [entry.split(',')[0]] *)
Lemma split_comma_head entry :
  getitem (split ","%char entry) 0 = Ok (before_first_comma entry).
Proof.
  assert (H : exists t, split ","%char entry = before_first_comma entry :: t).
  { induction entry as [|c entry (t & IH)]; [now exists []|].
    cbn. destruct (Ascii.eqb c ","); [eauto|]. rewrite IH. eauto. }
  destruct H as (t & ->). unfold getitem. cbn [length].
  rewrite Nat2Z.inj_succ. change (0 <? 0) with false. cbn iota.
  destruct (Z.leb_spec (Z.succ (Z.of_nat (length t))) 0) as [Hle | _]; [lia|].
  reflexivity.
Qed.

(** Stripping a line first does not change the integer read in front of
    its first comma, when there is one to read. *)
Lemma data_point_strip line z :
  int (before_first_comma line) = Ok z -> data_point (strip line) = Ok z.
Proof.
  intros Hint. unfold data_point. rewrite split_comma_head. cbn [bind].
  rewrite <- Hint. apply int_strip_eq.
  set (p := before_first_comma line) in *.
  destruct (int_ok_numeral p z Hint) as [Hq Hchars].
  destruct (strip_decompose isspace_numeric p) as (w1 & w2 & Ep & H1 & H2 & Hh & Hl).
  set (q := strip_with isspace_numeric p) in *.
  assert (Hkept : forallb (fun c => negb (isspace c)) q = true).
  { revert Hchars. apply forallb_impl. intros c Hc.
    now rewrite (numeral_char_kept c Hc). }
  destruct (kept_of_all_kept isspace q Hkept) as [Hhu Hlu].
  assert (H1u : forallb isspace w1 = true)
    by (revert H1; apply forallb_impl, isspace_numeric_isspace).
  assert (H2u : forallb isspace w2 = true)
    by (revert H2; apply forallb_impl, isspace_numeric_isspace).
  destruct (before_first_comma_decompose line) as [Hno [E | (rest & E)]];
    fold p in Hno, E.
  - assert (Es : strip line = q).
    { unfold strip. rewrite E, Ep. now apply strip_with_core. }
    rewrite Es. rewrite before_first_comma_all.
    + rewrite <- (app_nil_r q) at 1. change (q ++ []) with ([] ++ q ++ []).
      now apply strip_with_core.
    + rewrite Ep in Hno. unfold no_comma in *. rewrite !forallb_app in Hno.
      apply andb_true_iff in Hno as [_ Hno]. now apply andb_true_iff in Hno as [Hno _].
  - destruct (strip_decompose isspace (comma :: rest))
      as (v1 & v2 & Ec & Hv1 & Hv2 & Hch & Hcl).
    set (core := strip_with isspace (comma :: rest)) in *.
    assert (v1 = []) as ->.
    { destruct v1 as [|c v1]; [reflexivity|]. injection Ec as <- _.
      cbn in Hv1. discriminate. }
    cbn [app] in Ec.
    destruct core as [|c core'] eqn:Ecore.
    { cbn [app] in Ec. rewrite <- Ec in Hv2. cbn in Hv2. discriminate. }
    injection Ec as <- Erest.
    assert (Hno' : no_comma (q ++ w2) = true).
    { rewrite Ep in Hno. unfold no_comma in *. rewrite !forallb_app in Hno.
      apply andb_true_iff in Hno as [_ Hno]. now rewrite forallb_app. }
    assert (Es : strip line = q ++ w2 ++ comma :: core').
    { unfold strip. rewrite E, Ep, Erest.
      replace ((w1 ++ q ++ w2) ++ comma :: core' ++ v2)
        with (w1 ++ (q ++ w2 ++ comma :: core') ++ v2)
        by (now repeat (rewrite <- ?app_assoc; cbn [app])).
      apply strip_with_core; auto.
      - now apply head_kept_app.
      - unfold last_kept in *. rewrite !rev_app_distr.
        rewrite <- app_assoc. apply head_kept_app; [|exact Hcl].
        cbn. intros N. apply app_eq_nil in N as [_ N]. discriminate. }
    rewrite Es, app_assoc, before_first_comma_prefix by exact Hno'.
    change (q ++ w2) with ([] ++ q ++ w2). now apply strip_with_core.
Qed.

Lemma blank_strip line : truthy (strip line) = negb (blank line).
Proof.
  unfold blank, strip. destruct (forallb isspace line) eqn:B.
  - apply strip_empty_iff in B. now rewrite B.
  - destruct (strip_with isspace line) eqn:E; [|reflexivity].
    apply strip_empty_iff in E. congruence.
Qed.

Lemma described_lines_values lines : forall data,
  for_each (fun line => int (before_first_comma line))
    (List.filter (fun line => negb (blank line)) lines) = Ok data ->
  for_each data_point (List.filter truthy (map strip lines)) = Ok data.
Proof.
  induction lines as [|line lines IH]; intros data H; [exact H|].
  cbn [List.filter map] in *. rewrite blank_strip.
  destruct (negb (blank line)); [|auto].
  cbn [for_each] in *.
  destruct (int (before_first_comma line)) as [z|] eqn:Ez; [|discriminate].
  rewrite (data_point_strip line z Ez). cbn [bind] in *.
  destruct (for_each _ (List.filter _ lines)) as [zs|] eqn:Ezs; [|discriminate].
  rewrite (IH zs eq_refl). exact H.
Qed.

(** Two ways to cut a text into a part without whitespace at its end and a
    run of whitespace are the same when the first part of one holds no
    whitespace at all. *)
Lemma kept_then_spaces_unique (sp : ascii -> bool) (q w2 core v2 : str) :
  q ++ w2 = core ++ v2 ->
  q <> [] -> last_kept sp q -> forallb sp w2 = true ->
  forallb (fun c => negb (sp c)) core = true -> forallb sp v2 = true ->
  q = core.
Proof.
  revert core. induction q as [|c q IH]; intros core E Hq Hl Hw2 Hcore Hv2; [congruence|].
  destruct core as [|d core].
  - (* the whole text is whitespace, but q ends with a kept character *)
    exfalso.
    assert (Hall : forallb sp ((c :: q) ++ w2) = true) by (rewrite E; exact Hv2).
    rewrite forallb_app in Hall. apply andb_true_iff in Hall as [Hall _].
    rewrite <- (forallb_rev sp) in Hall. unfold last_kept, head_kept in Hl.
    destruct (rev (c :: q)) as [|x r] eqn:Er.
    + apply (f_equal (@length ascii)) in Er. rewrite length_rev in Er. discriminate.
    + cbn in Hall. apply andb_true_iff in Hall as [Hx _]. congruence.
  - cbn [app] in E. injection E as <- E. f_equal.
    cbn in Hcore. apply andb_true_iff in Hcore as [_ Hcore].
    destruct q as [|c' q].
    + (* q is used up: the rest of core would be whitespace *)
      cbn [app] in E. destruct core as [|x core]; [reflexivity|]. exfalso.
      rewrite E in Hw2. cbn in Hw2, Hcore.
      apply andb_true_iff in Hw2 as [Hx _]. apply andb_true_iff in Hcore as [Hx' _].
      rewrite Hx in Hx'. discriminate.
    + apply IH; [exact E | discriminate | | exact Hw2 | exact Hcore | exact Hv2].
      unfold last_kept in *. cbn [rev] in *.
      destruct (rev q ++ [c']) as [|x r] eqn:Er.
      * apply (f_equal (@length ascii)) in Er. rewrite length_app in Er.
        cbn in Er. lia.
      * exact Hl.
Qed.

(** A run of whitespace behind a numeral does not matter to [int]. *)
Lemma int_trailing_spaces q w2 z :
  head_kept isspace q -> last_kept isspace q -> q <> [] ->
  forallb isspace w2 = true ->
  int (q ++ w2) = Ok z -> int q = Ok z.
Proof.
  intros Hh Hl Hq Hw2 Hint. rewrite <- Hint. apply int_strip_eq.
  destruct (int_ok_numeral _ _ Hint) as [Hne Hchars].
  destruct (strip_decompose isspace_numeric (q ++ w2)) as (v1 & v2 & E & Hv1 & Hv2 & Hch & Hcl).
  remember (strip_with isspace_numeric (q ++ w2)) as core eqn:Ecore.
  assert (v1 = []) as ->.
  { destruct v1 as [|x v1]; [reflexivity|]. exfalso.
    destruct q as [|c q]; [congruence|]. cbn [app] in E. injection E as <- _.
    cbn in Hv1. apply andb_true_iff in Hv1 as [Hx _].
    apply isspace_numeric_isspace in Hx. cbn in Hh. congruence. }
  cbn [app] in E.
  assert (Hkept : forallb (fun c => negb (isspace c)) core = true).
  { revert Hchars. apply forallb_impl. intros c Hc. now rewrite (numeral_char_kept c Hc). }
  assert (Hv2u : forallb isspace v2 = true)
    by (revert Hv2; apply forallb_impl, isspace_numeric_isspace).
  pose proof (kept_then_spaces_unique isspace q w2 core v2 E Hq Hl Hw2 Hkept Hv2u) as Eq.
  rewrite Eq at 1.
  rewrite <- (app_nil_r core) at 1. change (core ++ []) with ([] ++ core ++ []).
  apply strip_with_core; auto.
Qed.

(** What the code reads on a line is the integer in front of the first
    comma, whitespace around it left aside. *)
Lemma data_point_lenient line z :
  data_point (strip line) = Ok z -> int (strip (before_first_comma line)) = Ok z.
Proof.
  unfold data_point. rewrite split_comma_head. cbn [bind]. intros Hint.
  set (p := before_first_comma line) in *.
  destruct (before_first_comma_decompose line) as [Hno [E | (rest & E)]];
    fold p in Hno, E.
  - rewrite E in Hint. unfold strip in *.
    destruct (strip_decompose isspace p) as (w1 & w2 & Ep & H1 & H2 & Hh & Hl).
    set (q := strip_with isspace p) in *.
    assert (Hnoq : no_comma q = true).
    { rewrite Ep in Hno. unfold no_comma in *. rewrite !forallb_app in Hno.
      apply andb_true_iff in Hno as [_ Hno]. now apply andb_true_iff in Hno as [Hno _]. }
    now rewrite (before_first_comma_all q Hnoq) in Hint.
  - unfold strip in *.
    destruct (strip_decompose isspace p) as (w1 & w2 & Ep & H1 & H2 & Hh & Hl).
    set (q := strip_with isspace p) in *.
    destruct (strip_decompose isspace (comma :: rest))
      as (v1 & v2 & Ec & Hv1 & Hv2 & Hch & Hcl).
    set (core := strip_with isspace (comma :: rest)) in *.
    assert (v1 = []) as ->.
    { destruct v1 as [|c v1]; [reflexivity|]. injection Ec as <- _.
      cbn in Hv1. discriminate. }
    cbn [app] in Ec.
    destruct core as [|c core'] eqn:Ecore.
    { cbn [app] in Ec. rewrite <- Ec in Hv2. cbn in Hv2. discriminate. }
    injection Ec as <- Erest.
    assert (Hno' : no_comma (q ++ w2) = true).
    { rewrite Ep in Hno. unfold no_comma in *. rewrite !forallb_app in Hno.
      apply andb_true_iff in Hno as [_ Hno]. now rewrite forallb_app. }
    destruct q as [|x q'] eqn:Eq.
    + (* nothing but whitespace in front of the comma *)
      exfalso. cbn [app] in Ep.
      assert (Es : strip_with isspace line = comma :: core').
      { rewrite E, Ep, Erest.
        replace ((w1 ++ w2) ++ comma :: core' ++ v2)
          with ((w1 ++ w2) ++ (comma :: core') ++ v2)
          by (now rewrite <- ?app_assoc).
        apply strip_with_core; auto. now rewrite forallb_app, H1, H2. }
      rewrite Es in Hint. cbn in Hint. discriminate.
    + assert (Es : strip_with isspace line = (x :: q') ++ w2 ++ comma :: core').
      { rewrite E, Ep, Erest.
        replace ((w1 ++ (x :: q') ++ w2) ++ comma :: core' ++ v2)
          with (w1 ++ ((x :: q') ++ w2 ++ comma :: core') ++ v2)
          by (now repeat (rewrite <- ?app_assoc; cbn [app])).
        apply strip_with_core; auto.
        unfold last_kept in *. rewrite !rev_app_distr.
        rewrite <- app_assoc. apply head_kept_app; [|exact Hcl].
        cbn. intros N. apply app_eq_nil in N as [_ N]. discriminate. }
      rewrite Es, app_assoc, before_first_comma_prefix in Hint by exact Hno'.
      apply (int_trailing_spaces (x :: q') w2 z); auto; discriminate.
Qed.

Lemma values_lenient_lines lines : forall data,
  for_each data_point (List.filter truthy (map strip lines)) = Ok data ->
  for_each (fun line => int (strip (before_first_comma line)))
    (List.filter (fun line => negb (blank line)) lines) = Ok data.
Proof.
  induction lines as [|line lines IH]; intros data H; [exact H|].
  cbn [List.filter map] in *. rewrite blank_strip in H.
  destruct (negb (blank line)); [|auto].
  cbn [for_each] in *.
  destruct (data_point (strip line)) as [z|] eqn:Ez; [|discriminate].
  rewrite (data_point_lenient line z Ez). cbn [bind] in *.
  destruct (for_each data_point _) as [zs|] eqn:Ezs; [|discriminate].
  rewrite (IH zs eq_refl). exact H.
Qed.

(** C6: the data of a session are the series that the specification
    describes.  Split the body into lines and discard the blank ones: when
    every line that is left has an integer in front of its first comma,
    the code returns these integers, in the order of the lines; and what
    the code returns is, in every case, the list of the integers in front
    of the first commas of these lines, whitespace around them left aside.
    Nothing of the text after a comma is kept, and the list is the series
    that is passed to [find_osc_period]. *)
Theorem session_values_as_described (body : str) (data : list Z) :
  (described_series body = Ok data -> session_values body = Ok data) /\
  (session_values body = Ok data ->
   described_series_lenient body = Ok data /\
   forall gain gain_f,
     float_of_str gain = Ok gain_f ->
     session_record (body, gain)
     = let* period := find_osc_period_array (Numpy.array data) SAMPLING_RATE in
       Ok (SFdiv prec emax gain_f thousand, period)).
Proof.
  split.
  - intros H. now apply described_lines_values in H.
  - intros H. split.
    + now apply values_lenient_lines in H.
    + intros gain gain_f Hg. unfold session_record. rewrite Hg, H. reflexivity.
Qed.
End Series.

Section Numerals.

Lemma take_digits_app ip rest acc count :
  all_digits ip = true ->
  take_digits (ip ++ rest) acc count
  = take_digits rest (fold_left (fun a c => 10 * a + digit_value c) ip acc)
      (count + length ip)%nat.
Proof.
  revert acc count. induction ip as [|c ip IH]; intros acc count H.
  - cbn. now rewrite Nat.add_0_r.
  - cbn in H. apply andb_true_iff in H as [Hc H].
    cbn [app take_digits fold_left length]. rewrite Hc, IH by exact H.
    f_equal. lia.
Qed.

Lemma drop_underscores_none s : forall prev,
  forallb (fun c => negb (Ascii.eqb c "_"%char)) s = true ->
  match prev with Some p => Ascii.eqb p "_"%char = false | None => True end ->
  drop_underscores s prev = Some s.
Proof.
  induction s as [|c s IH]; intros prev H Hp.
  - cbn. destruct prev as [p|]; [now rewrite Hp | reflexivity].
  - cbn in H. apply andb_true_iff in H as [Hc H]. apply negb_true_iff in Hc.
    cbn [drop_underscores]. rewrite Hc.
    rewrite (IH (Some c) H Hc).
    destruct prev as [p|]; [now rewrite Hp | reflexivity].
Qed.

Lemma digits_value_point ip fp : forall pk acc,
  all_digits ip = true ->
  digits_value (ip ++ "."%char :: fp) pk acc = None.
Proof.
  induction ip as [|c ip IH]; intros pk acc H; [reflexivity|].
  cbn in H. apply andb_true_iff in H as [Hc H].
  cbn [app digits_value]. rewrite Hc. now apply IH.
Qed.

Lemma all_digits_kept s :
  all_digits s = true ->
  forallb (fun c => negb (isspace_numeric c)) s = true /\
  forallb (fun c => negb (Ascii.eqb c "_"%char)) s = true.
Proof.
  unfold all_digits. intros H. split; revert H; apply forallb_impl; intros c Hc.
  - now rewrite (proj2 (isdigit_not_space c Hc)).
  - now rewrite (isdigit_not_underscore c Hc).
Qed.

Lemma take_digits_all ds acc count :
  all_digits ds = true ->
  take_digits ds acc count
  = (fold_left (fun a c => 10 * a + digit_value c) ds acc, (count + length ds)%nat, []).
Proof.
  intros H. rewrite <- (app_nil_r ds) at 1. now rewrite take_digits_app.
Qed.

Lemma take_digits_stop c rest acc count :
  isdigit c = false -> take_digits (c :: rest) acc count = (acc, count, c :: rest).
Proof. intros H. cbn [take_digits]. now rewrite H. Qed.

Lemma sign_text_plain sg :
  forallb (fun c => negb (isspace_numeric c)) (sign_text sg) = true /\
  forallb (fun c => negb (Ascii.eqb c "_"%char)) (sign_text sg) = true.
Proof. destruct sg; split; reflexivity. Qed.

Lemma exponent_text_plain ex :
  exponent_ok ex = true ->
  forallb (fun c => negb (isspace_numeric c)) (exponent_text ex) = true /\
  forallb (fun c => negb (Ascii.eqb c "_"%char)) (exponent_text ex) = true.
Proof.
  destruct ex as [|mark sg ds]; [split; reflexivity|]. cbn [exponent_ok exponent_text].
  intros H. apply andb_true_iff in H as [H Hd]. apply andb_true_iff in H as [Hm _].
  destruct (all_digits_kept ds Hd) as [K U].
  destruct (sign_text_plain sg) as [Ks Us].
  cbn [forallb]. rewrite !forallb_app, K, U, Ks, Us.
  apply orb_true_iff in Hm as [Hm | Hm]; apply Ascii.eqb_eq in Hm; subst mark;
    split; reflexivity.
Qed.

(** The sign of a numeral is read off, whatever digits or point follow. *)
Lemma split_sign_text sg rest :
  match rest with
  | c :: _ => Ascii.eqb c "-"%char = false /\ Ascii.eqb c "+"%char = false
  | [] => True
  end ->
  split_sign (sign_text sg ++ rest) = (is_minus sg, rest).
Proof.
  intros H. destruct sg; [|reflexivity|reflexivity].
  cbn [sign_text app is_minus]. destruct rest as [|c rest]; [reflexivity|].
  destruct H as [H1 H2]. cbn [split_sign]. now rewrite H1, H2.
Qed.

Lemma digits_then_no_sign ds rest c0 :
  all_digits ds = true ->
  Ascii.eqb c0 "-"%char = false -> Ascii.eqb c0 "+"%char = false ->
  match ds ++ c0 :: rest with
  | c :: _ => Ascii.eqb c "-"%char = false /\ Ascii.eqb c "+"%char = false
  | [] => True
  end.
Proof.
  intros H H1 H2. destruct ds as [|c ds]; [cbn; auto|].
  cbn in H. apply andb_true_iff in H as [Hc _]. cbn [app].
  exact (isdigit_not_sign c Hc).
Qed.

Lemma parse_exponent_text ex :
  exponent_ok ex = true -> parse_exponent (exponent_text ex) = Some (exponent_value ex).
Proof.
  destruct ex as [|mark sg ds]; [reflexivity|]. cbn [exponent_ok exponent_text].
  intros H. apply andb_true_iff in H as [H Hd]. apply andb_true_iff in H as [Hm Ht].
  cbn [parse_exponent]. rewrite Hm.
  rewrite split_sign_text.
  - rewrite take_digits_all by exact Hd. destruct ds as [|d ds]; [discriminate|].
    cbn [length Nat.add exponent_value]. reflexivity.
  - destruct ds as [|d ds]; [exact I|]. cbn in Hd.
    apply andb_true_iff in Hd as [Hc _]. exact (isdigit_not_sign d Hc).
Qed.

Lemma exponent_text_head ex :
  exponent_ok ex = true ->
  match exponent_text ex with
  | c :: _ => isdigit c = false
  | [] => True
  end.
Proof.
  destruct ex as [|mark sg ds]; [exact (fun _ => I)|]. cbn [exponent_ok exponent_text].
  intros H. apply andb_true_iff in H as [H _]. apply andb_true_iff in H as [Hm _].
  apply orb_true_iff in Hm as [Hm | Hm]; apply Ascii.eqb_eq in Hm; subst mark; reflexivity.
Qed.

(** What [float] and [int] make of a numeral with a point, with blanks
    around it. *)
Lemma float_of_point_numeral w1 w2 sg ip fp ex :
  forallb isspace_numeric w1 = true -> forallb isspace_numeric w2 = true ->
  all_digits ip = true -> all_digits fp = true -> ip ++ fp <> [] ->
  exponent_ok ex = true ->
  int (w1 ++ point_numeral sg ip fp ex ++ w2) = Raise ValueError /\
  float_of_str (w1 ++ point_numeral sg ip fp ex ++ w2)
  = Ok (float_of_decimal (is_minus sg) (decimal_value (ip ++ fp))
          (exponent_value ex - Z.of_nat (length fp))).
Proof.
  intros Hw1 Hw2 Dip Dfp Hne Hex.
  destruct (all_digits_kept ip Dip) as [Kip Uip].
  destruct (all_digits_kept fp Dfp) as [Kfp Ufp].
  destruct (sign_text_plain sg) as [Ksg Usg].
  destruct (exponent_text_plain ex Hex) as [Kex Uex].
  set (core := point_numeral sg ip fp ex).
  assert (Kcore : forallb (fun c => negb (isspace_numeric c)) core = true).
  { subst core. unfold point_numeral. rewrite !forallb_app, Ksg, Kip, Kfp, Kex.
    reflexivity. }
  assert (Ucore : forallb (fun c => negb (Ascii.eqb c "_"%char)) core = true).
  { subst core. unfold point_numeral. rewrite !forallb_app, Usg, Uip, Ufp, Uex.
    reflexivity. }
  assert (Hstrip : strip_with isspace_numeric (w1 ++ core ++ w2) = core).
  { destruct (kept_of_all_kept isspace_numeric core Kcore) as [Hh Hl].
    now apply strip_with_core. }
  set (rest := ip ++ lit "." ++ fp ++ exponent_text ex).
  assert (Hsign : split_sign core = (is_minus sg, rest)).
  { subst core rest. unfold point_numeral. apply split_sign_text.
    cbn [lit list_ascii_of_string app].
    apply digits_then_no_sign; [exact Dip | reflexivity | reflexivity]. }
  split.
  - unfold Py.int. rewrite Hstrip, Hsign. subst rest.
    cbn [lit list_ascii_of_string app].
    now rewrite digits_value_point.
  - unfold float_of_str. rewrite Hstrip.
    rewrite drop_underscores_none; [|exact Ucore|exact I].
    unfold parse_decimal. rewrite Hsign. subst rest.
    cbn [lit list_ascii_of_string app].
    rewrite take_digits_app by exact Dip.
    rewrite take_digits_stop by reflexivity.
    change (Ascii.eqb "." ".") with true. cbn iota.
    rewrite take_digits_app by exact Dfp.
    assert (Hstop : take_digits (exponent_text ex)
                      (fold_left (fun a c => 10 * a + digit_value c) fp
                         (fold_left (fun a c => 10 * a + digit_value c) ip 0))
                      (0 + length fp)
                    = (decimal_value (ip ++ fp), length fp, exponent_text ex)).
    { unfold decimal_value. rewrite fold_left_app. cbn [Nat.add].
      pose proof (exponent_text_head ex Hex) as Hh.
      destruct (exponent_text ex) as [|c et]; [reflexivity|].
      now apply take_digits_stop. }
    rewrite Hstop. cbn [Nat.add].
    destruct (length ip + length fp)%nat eqn:El.
    { exfalso. apply Hne. destruct ip; [|discriminate]. destruct fp; [|discriminate].
      reflexivity. }
    now rewrite parse_exponent_text.
Qed.

End Numerals.

(** ** Worked examples *)

Lemma session_record_eval session gain gain_f data period :
  float_of_str gain = Ok gain_f ->
  session_values session = Ok data ->
  find_osc_period_array (Numpy.array data) SAMPLING_RATE = Ok period ->
  session_record (session, gain) = Ok (SFdiv prec emax gain_f thousand, period).
Proof.
  intros Hg Hd Hp. unfold session_record. rewrite Hg. cbn [bind].
  unfold Py.truediv. rewrite thousand_not_zero. cbn [bind].
  rewrite Hd. cbn [bind]. rewrite Hp. reflexivity.
Qed.

Lemma find_osc_period_pair (a b : Z) :
  a <> b -> forallb Numpy.fits_machine_int [a; b] = true ->
  find_osc_period_array (Numpy.array [a; b]) SAMPLING_RATE = Ok 5%R.
Proof.
  intros Hab Hfit. rewrite (array_fits _ Hfit).
  cbn [map find_osc_period_array]. rewrite find_osc_period_two_samples.
  - f_equal. unfold SAMPLING_RATE. lra.
  - intros E. apply eq_IZR in E. contradiction.
  - unfold SAMPLING_RATE. lra.
Qed.

Lemma process_sessions_eval text n_last sessions sids :
  Sre.findall match_exp text = sessions ->
  (Z.of_nat (length sessions) >=? n_last) = true ->
  rev (range (Z.of_nat (length sessions) - n_last) (Z.of_nat (length sessions))) = sids ->
  process_sessions text n_last = for_sids sessions ∅ sids.
Proof. intros E Hn Hs. unfold process_sessions. now rewrite E, Hn, Hs. Qed.

Lemma session_step_eval sessions sid_dict sid block record :
  getitem sessions sid = Ok block ->
  session_record block = Ok record ->
  session_step sessions sid_dict sid = Ok (<[sid + 1 := record]> sid_dict).
Proof.
  intros Hb Hr. unfold session_step. rewrite Hb. cbn [bind]. now rewrite Hr.
Qed.

(** One pass through the loop body on a block of two data, all of it
    computed but the spectrum, which [find_osc_period_pair] gives. *)
Ltac run_record :=
  erewrite session_record_eval;
  [ | vm_compute; reflexivity | vm_compute; reflexivity
    | apply find_osc_period_pair; [discriminate | reflexivity] ];
  reflexivity.

Ltac run_step :=
  erewrite session_step_eval; [ | vm_compute; reflexivity | run_record ];
  cbn [bind].

(** The scenario of the specification: the last block of two, and both. *)
Example two_blocks_last :
  process_sessions two_blocks 1 = Ok {[2 := (float_3, 5%R)]}.
Proof.
  rewrite (process_sessions_eval two_blocks 1
             [(newline :: lit "1,0" ++ newline :: lit "2,1" ++ [newline], lit "2000");
              (newline :: lit "3,0" ++ newline :: lit "4,1" ++ [newline], lit "3000")]
             [1]); try (vm_compute; reflexivity).
  cbn [for_sids]. run_step. reflexivity.
Qed.

Example two_blocks_both :
  process_sessions two_blocks 2
  = Ok (<[1 := (float_2, 5%R)]> {[2 := (float_3, 5%R)]}).
Proof.
  rewrite (process_sessions_eval two_blocks 2
             [(newline :: lit "1,0" ++ newline :: lit "2,1" ++ [newline], lit "2000");
              (newline :: lit "3,0" ++ newline :: lit "4,1" ++ [newline], lit "3000")]
             [1; 0]); try (vm_compute; reflexivity).
  cbn [for_sids]. run_step. run_step. reflexivity.
Qed.

(** ** The recorded gain *)
Section Gain.

Lemma session_record_gain session gain gain_f :
  float_of_str gain = Ok gain_f ->
  session_record (session, gain)
  = let* data := session_values session in
    let* period := find_osc_period_array (Numpy.array data) SAMPLING_RATE in
    Ok (SFdiv prec emax gain_f thousand, period).
Proof.
  intros Hg. unfold session_record. rewrite Hg. cbn [bind].
  unfold Py.truediv. rewrite thousand_not_zero. reflexivity.
Qed.

Lemma process_one_block text session gain gain_f (a b : Z) :
  Sre.findall match_exp text = [(session, gain)] ->
  float_of_str gain = Ok gain_f ->
  session_values session = Ok [a; b] ->
  a <> b -> forallb Numpy.fits_machine_int [a; b] = true ->
  process_sessions text 1 = Ok {[1 := (SFdiv prec emax gain_f thousand, 5%R)]}.
Proof.
  intros Hf Hg Hd Hab Hfit.
  rewrite (process_sessions_eval text 1 [(session, gain)] [0] Hf eq_refl eq_refl).
  cbn [for_sids].
  erewrite session_step_eval; [reflexivity | reflexivity |].
  apply (session_record_eval _ _ _ [a; b]); [exact Hg | exact Hd |].
  now apply find_osc_period_pair.
Qed.

(** C5: when the text between the brackets is an integer numeral of value
    [z], the conversion of the gain does not fail and the gain that is
    recorded is equal to [float(z) / 1000.0]; the block that ends with
    [end [1500]] gets the gain 1.5. *)
Theorem recorded_gain_of_integer_field :
  (forall (session gain : str) (z : Z),
     int gain = Ok z ->
     exists g,
       float_eq g (SFdiv prec emax (float_of_Z z) thousand) = true /\
       session_record (session, gain)
       = let* data := session_values session in
         let* period := find_osc_period_array (Numpy.array data) SAMPLING_RATE in
         Ok (g, period)) /\
  process_sessions block_1500 1 = Ok {[1 := (float_1_5, 5%R)]}.
Proof.
  split.
  - intros session gain z Hz.
    destruct (float_of_str_of_int gain z Hz) as (neg & n & Hn & -> & Hf).
    exists (SFdiv prec emax (float_of_decimal neg n 0) thousand). split.
    + now apply float_of_decimal_integer.
    + now apply session_record_gain.
  - apply (process_one_block block_1500
             (newline :: lit "1,0" ++ newline :: lit "2,1" ++ [newline]) (lit "1500")
             (float_of_Z 1500) 1 2);
      try (vm_compute; reflexivity). discriminate.
Qed.

(** C5 at the gain field [1500]. *)
Lemma recorded_gain_of_integer_field_witness :
  exists g,
    float_eq g (SFdiv prec emax (float_of_Z 1500) thousand) = true /\
    session_record (lit "1,0", lit "1500")
    = let* data := session_values (lit "1,0") in
      let* period := find_osc_period_array (Numpy.array data) SAMPLING_RATE in
      Ok (g, period).
Proof.
  apply (proj1 recorded_gain_of_integer_field (lit "1,0") (lit "1500") 1500).
  vm_compute. reflexivity.
Defined.

(** C9: when the text between the brackets is a decimal numeral with a
    point, a sign or none in front, digits on one side of the point at
    least, an exponent or none behind, and blanks around it, [int] would
    reject it, but the code converts it with [float]: the conversion does
    not fail, its value is the float nearest to the numeral, and the gain
    that is recorded is that value divided by 1000.0; the block that ends
    with [end [1.5]] gets the gain 0.0015. *)
Theorem recorded_gain_of_fraction_field :
  (forall (session w1 w2 : str) (sg : sign) (ip fp : str) (ex : exponent),
     forallb isspace_numeric w1 = true -> forallb isspace_numeric w2 = true ->
     all_digits ip = true -> all_digits fp = true -> ip ++ fp <> [] ->
     exponent_ok ex = true ->
     let gain := w1 ++ point_numeral sg ip fp ex ++ w2 in
     let value :=
       float_of_decimal (is_minus sg) (decimal_value (ip ++ fp))
         (exponent_value ex - Z.of_nat (length fp)) in
     int gain = Raise ValueError /\
     float_of_str gain = Ok value /\
     session_record (session, gain)
     = let* data := session_values session in
       let* period := find_osc_period_array (Numpy.array data) SAMPLING_RATE in
       Ok (SFdiv prec emax value thousand, period)) /\
  process_sessions block_1_5 1 = Ok {[1 := (float_0_0015, 5%R)]}.
Proof.
  split.
  - intros session w1 w2 sg ip fp ex Hw1 Hw2 Dip Dfp Hne Hex gain value.
    destruct (float_of_point_numeral w1 w2 sg ip fp ex Hw1 Hw2 Dip Dfp Hne Hex)
      as [Hint Hfloat].
    split; [exact Hint|]. split; [exact Hfloat|].
    now apply session_record_gain.
  - apply (process_one_block block_1_5
             (newline :: lit "1,0" ++ newline :: lit "2,1" ++ [newline]) (lit "1.5")
             float_1_5 1 2);
      try (vm_compute; reflexivity). discriminate.
Qed.

(** C9 at the gain field [-.5e1], between two blanks. *)
Lemma recorded_gain_of_fraction_field_witness :
  int (lit " -.5e1 ") = Raise ValueError /\
  float_of_str (lit " -.5e1 ") = Ok float_minus_5 /\
  session_record (lit "1,0", lit " -.5e1 ")
  = let* data := session_values (lit "1,0") in
    let* period := find_osc_period_array (Numpy.array data) SAMPLING_RATE in
    Ok (float_minus_0_005, period).
Proof.
  apply (proj1 recorded_gain_of_fraction_field (lit "1,0") (lit " ") (lit " ")
           MinusSign [] (lit "5") (Exponent "e" NoSign (lit "1")));
    (discriminate || reflexivity).
Defined.

End Gain.

Section Discovery.

(** C4, counterexample: a block whose gain field is [abc] is matched and
    counted, so the well-formed block after it gets the id 2 and not 1,
    and asking for both blocks fails with a conversion error; a block
    without a terminator is matched together with the block after it, as
    one block. *)
Lemma malformed_blocks_are_matched :
  Sre.findall match_exp bad_gain_then_good
  = [(newline :: lit "1,0" ++ newline :: lit "2,1" ++ [newline], lit "abc");
     (newline :: lit "3,0" ++ newline :: lit "4,1" ++ [newline], lit "1000")] /\
  float_of_str (lit "abc") = Raise ValueError /\
  process_sessions bad_gain_then_good 1 = Ok {[2 := (float_1, 5%R)]} /\
  process_sessions bad_gain_then_good 2 = Raise ValueError /\
  Sre.findall match_exp unterminated_then_good
  = [(newline :: lit "1,0" ++ newline :: lit "2,1" ++ newline :: lit "start"
        ++ newline :: lit "3,0" ++ newline :: lit "4,1" ++ [newline],
      lit "1000")].
Proof.
  assert (E : Sre.findall match_exp bad_gain_then_good
              = [(newline :: lit "1,0" ++ newline :: lit "2,1" ++ [newline], lit "abc");
                 (newline :: lit "3,0" ++ newline :: lit "4,1" ++ [newline], lit "1000")])
    by (vm_compute; reflexivity).
  split; [exact E|]. split; [vm_compute; reflexivity|]. split; [|split].
  - rewrite (process_sessions_eval _ 1 _ [1] E eq_refl eq_refl).
    cbn [for_sids]. run_step. reflexivity.
  - rewrite (process_sessions_eval _ 2 _ [1; 0] E eq_refl eq_refl).
    cbn [for_sids]. run_step. unfold session_step.
    replace (getitem _ 0) with
      (Ok (newline :: lit "1,0" ++ newline :: lit "2,1" ++ [newline], lit "abc"))
      by (vm_compute; reflexivity).
    cbn [bind]. unfold session_record.
    replace (float_of_str (lit "abc")) with (@Raise float ValueError)
      by (vm_compute; reflexivity).
    reflexivity.
  - vm_compute. reflexivity.
Qed.

End Discovery.

Section Witnesses.

(** C3 at a text of two blocks and [n_last = 3]. *)
Lemma process_sessions_insufficient_witness :
  process_sessions two_blocks 3 = Raise AssertionError.
Proof. apply (process_sessions_insufficient two_blocks 3). vm_compute. reflexivity. Defined.

(** C1, counterexample: a block that is well formed, its gain a numeral
    and its one line an integer, has no record when the integer is
    [2 ^ 64]: the array of the readings is an array of objects, which the
    transform refuses, and [process_sessions] raises [TypeError] for
    [n_last = 1 <= k = 1] where the claim has it return a mapping. *)
Lemma big_reading_has_no_record :
  forallb well_formed_block (Sre.findall match_exp big_reading) = true /\
  Z.of_nat (length (Sre.findall match_exp big_reading)) = 1 /\
  process_sessions big_reading 1 = Raise TypeError.
Proof.
  split; [vm_compute; reflexivity|]. split; [vm_compute; reflexivity|].
  rewrite (process_sessions_eval big_reading 1
             [(newline :: lit "18446744073709551616,0" ++ [newline], lit "1000")] [0]);
    try (vm_compute; reflexivity).
  cbn [for_sids]. unfold session_step.
  replace (getitem _ 0)
    with (Ok (newline :: lit "18446744073709551616,0" ++ [newline], lit "1000"))
    by (vm_compute; reflexivity).
  cbn [bind]. unfold session_record.
  replace (float_of_str (lit "1000")) with (Ok (float_of_Z 1000))
    by (vm_compute; reflexivity).
  cbn [bind]. unfold Py.truediv. rewrite thousand_not_zero. cbn [bind].
  replace (session_values (newline :: lit "18446744073709551616,0" ++ [newline]))
    with (Ok [18446744073709551616]) by (vm_compute; reflexivity).
  cbn [bind].
  replace (Numpy.array [18446744073709551616])
    with (Numpy.Object [18446744073709551616]) by (vm_compute; reflexivity).
  cbn [find_osc_period_array]. unfold find_osc_period_object.
  destruct (Numpy.detrend_object [18446744073709551616]) as [d|e] eqn:E;
    [|vm_compute in E; discriminate].
  cbn [bind]. unfold Numpy.truediv.
  destruct (Req_dec_T SAMPLING_RATE 0) as [N | _];
    [unfold SAMPLING_RATE in N; lra | reflexivity].
Qed.

(** C1, amended, at the text of two blocks and [n_last = 1]. *)
Lemma process_sessions_trailing_ids_witness :
  exists sid_dict,
    process_sessions two_blocks 1 = Ok sid_dict /\
    Z.of_nat (size sid_dict) = 1 /\
    (forall key, key ∈ dom sid_dict <->
                 is_trailing_id (Z.of_nat (length (Sre.findall match_exp two_blocks))) 1 key) /\
    (forall key v, sid_dict !! key = Some v ->
       exists block,
         Sre.findall match_exp two_blocks !! Z.to_nat (key - 1) = Some block /\
         session_record block = Ok v).
Proof.
  apply (process_sessions_trailing_ids two_blocks 1).
  - vm_compute. reflexivity.
  - vm_compute. reflexivity.
  - vm_compute. split; discriminate.
Defined.

(** C6 at a body of two lines, the second one indented. *)
Lemma session_values_as_described_witness :
  session_values (newline :: lit "1,0" ++ newline :: lit " 2,1" ++ [newline]) = Ok [1; 2] /\
  described_series_lenient (newline :: lit "1,0" ++ newline :: lit " 2,1" ++ [newline])
  = Ok [1; 2] /\
  forall gain gain_f,
    float_of_str gain = Ok gain_f ->
    session_record (newline :: lit "1,0" ++ newline :: lit " 2,1" ++ [newline], gain)
    = let* period := find_osc_period_array (Numpy.array [1; 2]) SAMPLING_RATE in
      Ok (SFdiv prec emax gain_f thousand, period).
Proof.
  destruct (session_values_as_described
              (newline :: lit "1,0" ++ newline :: lit " 2,1" ++ [newline]) [1; 2])
    as [Hcode Hseries].
  assert (Hv : session_values (newline :: lit "1,0" ++ newline :: lit " 2,1" ++ [newline])
               = Ok [1; 2]) by (apply Hcode; vm_compute; reflexivity).
  split; [exact Hv|]. apply Hseries. exact Hv.
Defined.

End Witnesses.

(** * Further properties *)

(** ** More on the loop over the sessions *)
Section Sessions.

Lemma getitem_lookup_eq {A} (l : list A) (i : Z) (a : A) :
  0 <= i -> getitem l i = Ok a -> l !! Z.to_nat i = Some a.
Proof.
  intros Hi H. unfold getitem in H.
  destruct (Z.ltb_spec i 0) as [Hneg | _]; [lia|].
  destruct (Z.ltb_spec i 0) as [Hneg | _]; [lia|].
  destruct (Z.leb_spec (Z.of_nat (length l)) i) as [Hge | Hlt]; [discriminate|].
  destruct (getitem_lookup l i (conj Hi Hlt)) as (b & Hb & Hg).
  unfold getitem in Hg.
  destruct (Z.ltb_spec i 0) as [Hneg | _]; [lia|].
  destruct (Z.ltb_spec i 0) as [Hneg | _]; [lia|].
  destruct (Z.leb_spec (Z.of_nat (length l)) i) as [Hge | _]; [lia|].
  cbn [orb] in H, Hg. rewrite Hb. congruence.
Qed.

(** The loop succeeds only when every id of the list has a record. *)
Lemma for_sids_ok_inv sessions sids : forall d0 d,
  for_sids sessions d0 sids = Ok d ->
  forall sid, In sid sids ->
    exists block v, getitem sessions sid = Ok block /\ session_record block = Ok v.
Proof.
  induction sids as [|sid0 sids IH]; intros d0 d H sid Hin; [destruct Hin|].
  cbn [for_sids] in H. unfold session_step in H.
  destruct (getitem sessions sid0) as [block|] eqn:Hg; [|discriminate].
  cbn [bind] in H.
  destruct (session_record block) as [v|] eqn:Hr; [|discriminate].
  cbn [bind] in H.
  destruct Hin as [<- | Hin]; [eauto|].
  exact (IH _ _ H sid Hin).
Qed.

(** The loop fails at the first id of the list that has no record, with
    the error of that record, or of the index. *)
Lemma for_sids_raise_inv sessions sids : forall d0 e,
  for_sids sessions d0 sids = Raise e ->
  exists before sid after,
    sids = before ++ sid :: after /\
    (forall s, In s before ->
       exists block v, getitem sessions s = Ok block /\ session_record block = Ok v) /\
    (getitem sessions sid = Raise e \/
     exists block, getitem sessions sid = Ok block /\ session_record block = Raise e).
Proof.
  induction sids as [|sid0 sids IH]; intros d0 e H; [discriminate|].
  cbn [for_sids] in H. unfold session_step in H.
  destruct (getitem sessions sid0) as [block|] eqn:Hg.
  - cbn [bind] in H. destruct (session_record block) as [v|] eqn:Hr.
    + cbn [bind] in H. destruct (IH _ _ H) as (before & sid & after & -> & Hb & Hs).
      exists (sid0 :: before), sid, after. split; [reflexivity|]. split; [|exact Hs].
      intros s [<- | Hin]; [eauto | now apply Hb].
    + cbn [bind] in H. injection H as <-. exists [], sid0, sids.
      split; [reflexivity|]. split; [intros s []|]. right. eauto.
  - cbn [bind] in H. injection H as <-. exists [], sid0, sids.
    split; [reflexivity|]. split; [intros s [] | now left].
Qed.

(** In a range, what comes behind an element is larger. *)
Lemma seq_split : forall (xs : list nat) s n y zs,
  seq s n = xs ++ y :: zs -> forall z, In z zs -> (y < z)%nat.
Proof.
  induction xs as [|x xs IH]; intros s n y zs E z Hz.
  - destruct n as [|n]; [discriminate|]. cbn in E. injection E as <- <-.
    apply in_seq in Hz. lia.
  - destruct n as [|n]; [discriminate|]. cbn in E. injection E as _ E.
    exact (IH _ _ _ _ E z Hz).
Qed.

Lemma range_split a b xs y zs :
  range a b = xs ++ y :: zs -> forall z, In z zs -> y < z.
Proof.
  unfold range. intros E z Hz.
  apply map_eq_app in E as (l1 & l2 & E & _ & E2).
  destruct l2 as [|y' zs']; [discriminate|]. cbn in E2. injection E2 as <- <-.
  apply in_map_iff in Hz as (z' & <- & Hz').
  pose proof (seq_split _ _ _ _ _ E z' Hz'). lia.
Qed.

(** *** The errors of a record *)

Lemma float_of_str_raise s e : float_of_str s = Raise e -> e = ValueError.
Proof.
  unfold float_of_str.
  destruct (drop_underscores _ _); [|congruence].
  destruct (parse_decimal _); [discriminate|].
  destruct (parse_inf_or_nan _); [discriminate | congruence].
Qed.

Lemma int_raise s e : int s = Raise e -> e = ValueError.
Proof.
  unfold Py.int. destruct (split_sign _) as [neg body].
  destruct (digits_value body PStart 0); [|congruence].
  destruct (count_digits body <=? max_str_digits); [discriminate | congruence].
Qed.

Lemma session_values_raise session e :
  session_values session = Raise e -> e = ValueError.
Proof.
  unfold session_values. generalize (session_lines session) as ls.
  induction ls as [|l ls IH]; [discriminate|].
  cbn [for_each]. unfold data_point at 1. rewrite split_comma_head. cbn [bind].
  destruct (int (before_first_comma l)) as [z|e0] eqn:Hi.
  - cbn [bind]. destruct (for_each data_point ls); [discriminate|].
    cbn [bind]. intros H. apply IH. injection H as ->. reflexivity.
  - cbn [bind]. intros H. injection H as <-. exact (int_raise _ _ Hi).
Qed.

(** On an array of numbers and at the rate of the program, the estimate
    fails for the empty array only. *)
Lemma find_osc_period_raise s e :
  find_osc_period s SAMPLING_RATE = Raise e -> e = ValueError /\ s = [].
Proof.
  destruct s as [|x s].
  - unfold find_osc_period, Numpy.truediv.
    destruct (Req_dec_T SAMPLING_RATE 0) as [E | _];
      [unfold SAMPLING_RATE in E; lra|].
    cbn. intros H. injection H as <-. auto.
  - destruct (find_osc_period_char (x :: s) SAMPLING_RATE)
      as (idx & _ & _ & _ & E); [discriminate | unfold SAMPLING_RATE; lra |].
    rewrite E. discriminate.
Qed.

Lemma float_of_int_raise z e : float_of_int z = Raise e -> e = OverflowError.
Proof. unfold Py.float_of_int. destruct (float_of_Z z); congruence. Qed.

Lemma int_truediv_raise a b e :
  b <> 0 -> int_truediv a b = Raise e -> e = OverflowError.
Proof.
  intros Hb. unfold Py.int_truediv. destruct b as [|b|b]; [congruence| |];
    (destruct (Z.abs a); [discriminate | | discriminate];
     destruct (float_of_ratio _ _ _); congruence).
Qed.

Lemma detrend_object_raise data e :
  data <> [] -> Numpy.detrend_object data = Raise e -> e = OverflowError.
Proof.
  intros Hd. unfold Numpy.detrend_object.
  destruct (int_truediv _ _) as [m|e0] eqn:Hm.
  - cbn [bind]. clear. induction data as [|x data IH]; [discriminate|].
    cbn [for_each]. destruct (float_of_int x) as [xf|e0] eqn:Hx.
    + cbn [bind]. destruct (for_each _ data); [discriminate|].
      cbn [bind]. intros H. apply IH. injection H as ->. reflexivity.
    + cbn [bind]. intros H. injection H as <-. exact (float_of_int_raise _ _ Hx).
  - cbn [bind]. intros H. injection H as <-.
    apply (int_truediv_raise _ _ _) in Hm; [exact Hm|].
    destruct data; [congruence | cbn [length]; lia].
Qed.

(** An array of objects has no estimate: a reading beyond the floats gives
    [OverflowError], and otherwise the transform gives [TypeError]. *)
Lemma find_osc_period_object_raise data :
  data <> [] ->
  find_osc_period_object data SAMPLING_RATE = Raise OverflowError \/
  find_osc_period_object data SAMPLING_RATE = Raise TypeError.
Proof.
  intros Hd. unfold find_osc_period_object.
  destruct (Numpy.detrend_object data) as [d|e] eqn:E.
  - right. cbn [bind]. unfold Numpy.truediv.
    destruct (Req_dec_T SAMPLING_RATE 0) as [N | _];
      [unfold SAMPLING_RATE in N; lra | reflexivity].
  - left. cbn [bind]. now rewrite (detrend_object_raise _ _ Hd E).
Qed.

Lemma array_object data zs :
  Numpy.array data = Numpy.Object zs ->
  zs = data /\ data <> [] /\ forallb Numpy.fits_machine_int data = false.
Proof.
  unfold Numpy.array.
  destruct (forallb Numpy.fits_machine_int data) eqn:E; [discriminate|].
  intros H. injection H as <-. split; [reflexivity|]. split; [|reflexivity].
  intros ->. discriminate.
Qed.

(** A record fails with [ValueError] when the gain is no numeral, a line
    has no integer in front, or there is no line at all; it fails with
    [TypeError] or [OverflowError] when a reading does not fit a 64-bit
    integer; it fails in no other way. *)
Lemma session_record_raise block e :
  session_record block = Raise e ->
  (e = ValueError /\ well_formed_block block = false) \/
  ((e = TypeError \/ e = OverflowError) /\ well_formed_block block = true /\
   readings_fit block = false).
Proof.
  destruct block as [session gain]. unfold session_record, well_formed_block, readings_fit.
  cbn [fst snd].
  destruct (float_of_str gain) as [g|e0] eqn:Hg.
  - cbn [bind succeeds]. unfold Py.truediv. rewrite thousand_not_zero. cbn [bind].
    destruct (session_values session) as [data|e1] eqn:Hv.
    + cbn [bind]. destruct (Numpy.array data) as [vs|zs] eqn:Ea.
      * cbn [find_osc_period_array].
        destruct (find_osc_period vs SAMPLING_RATE) as [p|e1] eqn:Ep; [discriminate|].
        cbn [bind]. intros H. injection H as <-. left.
        apply find_osc_period_raise in Ep as [-> ->]. split; [reflexivity|].
        unfold Numpy.array in Ea.
        destruct (forallb Numpy.fits_machine_int data); [|discriminate].
        destruct data; [reflexivity | discriminate].
      * apply array_object in Ea as (-> & Hne & Hfit).
        cbn [find_osc_period_array].
        destruct (find_osc_period_object_raise data Hne) as [-> | ->];
          cbn [bind]; intros H; injection H as <-; right;
          (split; [auto|]; split; [destruct data; [congruence | reflexivity] | exact Hfit]).
    + cbn [bind]. intros H. injection H as <-. left.
      split; [exact (session_values_raise _ _ Hv) | reflexivity].
  - cbn [bind]. intros H. injection H as <-. left.
    split; [exact (float_of_str_raise _ _ Hg) | reflexivity].
Qed.

(** What the loop over the trailing ids leaves in the dict. *)
Lemma process_sessions_ok_inv text n_last d :
  let sessions := Sre.findall match_exp text in
  let k := Z.of_nat (length sessions) in
  process_sessions text n_last = Ok d ->
  n_last <= k /\
  (forall i, k - n_last <= i < k ->
     exists block v, sessions !! Z.to_nat i = Some block /\ session_record block = Ok v) /\
  (forall key, key ∈ dom d <-> is_trailing_id k n_last key) /\
  (forall key v, d !! key = Some v ->
     exists block, sessions !! Z.to_nat (key - 1) = Some block /\
                   session_record block = Ok v).
Proof.
  intros sessions k H. unfold process_sessions in H. fold sessions in H. fold k in H.
  destruct (Z.geb_spec k n_last) as [Hn | Hlt]; [|discriminate].
  split; [exact Hn|].
  assert (Hrec : forall i, k - n_last <= i < k ->
            exists block v, sessions !! Z.to_nat i = Some block /\
                            session_record block = Ok v).
  { intros i Hi.
    destruct (for_sids_ok_inv _ _ _ _ H i) as (block & v & Hg & Hr).
    - apply -> in_rev. apply range_spec. exact Hi.
    - exists block, v. split; [|exact Hr].
      apply getitem_lookup_eq; [lia | exact Hg]. }
  split; [exact Hrec|].
  destruct (for_sids_spec sessions (rev (range (k - n_last) k)) ∅)
    as (d' & Hd & Hdom & Hval).
  { intros sid Hin. apply in_rev, range_spec in Hin. split; [unfold k in *; lia|].
    intros block Hblock. destruct (Hrec sid Hin) as (b & v & Hb & Hv).
    exists v. congruence. }
  rewrite H in Hd. injection Hd as <-.
  split.
  - intros key. rewrite Hdom, dom_empty_L, elem_of_union, elem_of_list_to_set.
    rewrite list_elem_of_In, in_map_iff. unfold is_trailing_id. split.
    + intros [H0 | (sid & <- & Hin)]; [now apply elem_of_empty in H0|].
      apply in_rev, range_spec in Hin. lia.
    + intros Hkey. right. exists (key - 1). split; [lia|].
      apply -> in_rev. apply range_spec. lia.
  - intros key v Hkey. destruct (Hval key v Hkey) as [H0 | (b & _ & Hb & Hr)].
    + rewrite lookup_empty in H0. discriminate.
    + eauto.
Qed.

(** The loop succeeds when every id of the list has a record. *)
Lemma process_sessions_ok_intro text n_last :
  let sessions := Sre.findall match_exp text in
  let k := Z.of_nat (length sessions) in
  n_last <= k ->
  (forall i block, k - n_last <= i < k -> sessions !! Z.to_nat i = Some block ->
     succeeds (session_record block) = true) ->
  exists d, process_sessions text n_last = Ok d.
Proof.
  intros sessions k Hn Hrec. unfold process_sessions. fold sessions. fold k.
  destruct (Z.geb_spec k n_last) as [_ | Hlt]; [|lia].
  destruct (for_sids_spec sessions (rev (range (k - n_last) k)) ∅)
    as (d & Hd & _).
  { intros sid Hin. apply in_rev, range_spec in Hin. split; [unfold k in *; lia|].
    intros block Hblock. specialize (Hrec sid block Hin Hblock).
    destruct (session_record block) as [v|]; [eauto | discriminate]. }
  eauto.
Qed.

(** The entries of the dict that [process_sessions] returns. *)
Lemma process_sessions_lookup text n_last d :
  let sessions := Sre.findall match_exp text in
  let k := Z.of_nat (length sessions) in
  process_sessions text n_last = Ok d ->
  forall key v,
    d !! key = Some v <->
    is_trailing_id k n_last key /\
    exists block, sessions !! Z.to_nat (key - 1) = Some block /\
                  session_record block = Ok v.
Proof.
  intros sessions k H.
  destruct (process_sessions_ok_inv text n_last d H) as (Hn & Hrec & Hdom & Hval).
  fold sessions in Hrec, Hval, Hdom. fold k in Hn, Hrec, Hdom.
  intros key v. split.
  - intros Hkey. split; [|exact (Hval key v Hkey)].
    apply Hdom. apply elem_of_dom. eauto.
  - intros (Hid & block & Hblock & Hr).
    apply Hdom in Hid. apply elem_of_dom in Hid as (v' & Hv').
    destruct (Hval key v' Hv') as (b & Hb & Hr').
    rewrite Hv'. congruence.
Qed.

(** X1: asking for no session, or for a negative number of sessions,
    passes the check [len(sessions) >= n_last] and returns the empty dict,
    whatever the text is: no block is converted, so that a malformed block
    goes unnoticed. *)
Theorem process_sessions_nothing_requested (text : str) (n_last : Z) :
  n_last <= 0 -> process_sessions text n_last = Ok ∅.
Proof.
  intros Hn. unfold process_sessions.
  set (k := Z.of_nat (length (Sre.findall match_exp text))).
  destruct (Z.geb_spec k n_last) as [_ | Hlt]; [|lia].
  unfold range. replace (Z.to_nat (k - (k - n_last))) with O by lia.
  reflexivity.
Qed.

(** X1 at the text with a malformed block and [n_last = -1]. *)
Lemma process_sessions_nothing_requested_witness :
  process_sessions bad_gain_then_good (-1) = Ok ∅.
Proof. apply process_sessions_nothing_requested. lia. Defined.

(** How [process_sessions] fails: at its check, or at the block nearest
    to the end of the text that has no record. *)
Lemma process_sessions_raise_inv text n_last e :
  let sessions := Sre.findall match_exp text in
  let k := Z.of_nat (length sessions) in
  process_sessions text n_last = Raise e ->
  (e = AssertionError /\ k < n_last) \/
  (n_last <= k /\
   exists i block, k - n_last <= i < k /\
     sessions !! Z.to_nat i = Some block /\
     session_record block = Raise e /\
     forall j b, i < j < k -> sessions !! Z.to_nat j = Some b ->
                 succeeds (session_record b) = true).
Proof.
  intros sessions k H. unfold process_sessions in H. fold sessions in H. fold k in H.
  destruct (Z.geb_spec k n_last) as [Hn | Hlt].
  - right. split; [exact Hn|].
    apply for_sids_raise_inv in H as (before & sid & after & E & Hb & Hs).
    assert (Hin : k - n_last <= sid < k).
    { apply range_spec. apply in_rev. rewrite E. apply in_elt. }
    destruct (getitem_lookup sessions sid) as (b & Hblock & Hg); [unfold k in *; lia|].
    destruct Hs as [Hs | (block & Hblock' & Hr)]; [congruence|].
    exists sid, block. split; [exact Hin|]. split; [congruence|]. split; [exact Hr|].
    intros j bj Hj Hbj.
    assert (Hbefore : In j before).
    { assert (Hjr : In j (rev (range (k - n_last) k)))
        by (apply -> in_rev; apply range_spec; lia).
      rewrite E in Hjr. apply in_app_or in Hjr as [Hjr | [Hjr | Hjr]];
        [exact Hjr | lia |].
      exfalso.
      assert (Er : range (k - n_last) k = rev after ++ sid :: rev before).
      { rewrite <- (rev_involutive (range (k - n_last) k)), E, rev_app_distr.
        cbn [rev]. now rewrite <- app_assoc. }
      assert (Ha : In j (rev after)) by (now apply -> in_rev).
      apply in_split in Ha as (a1 & a2 & Ea). rewrite Ea, <- app_assoc in Er.
      cbn [app] in Er.
      pose proof (range_split _ _ _ _ _ Er sid) as Hlt.
      specialize (Hlt ltac:(apply in_or_app; right; now left)). lia. }
    destruct (Hb j Hbefore) as (bj' & v & Hgj & Hrj).
    apply getitem_lookup_eq in Hgj; [|lia].
    replace bj with bj' by congruence. now rewrite Hrj.
  - left. injection H as <-. split; [reflexivity | exact Hlt].
Qed.

(** X2: how [process_sessions] fails.  It raises [AssertionError] only
    when more sessions are asked for than there are blocks.  Any other error
    is the error of one block among the last [n_last], the one nearest to
    the end of the text that has no record, the blocks behind it having been
    converted; it is a [ValueError] when that block is not well formed (the
    gain is no numeral, a line has no integer in front, there is no data
    line), and a [TypeError] or an [OverflowError] when it is, but a reading
    does not fit a 64-bit integer.  It is never an [IndexError] nor a
    [ZeroDivisionError]. *)
Theorem process_sessions_raises (text : str) (n_last : Z) (e : exn) :
  let sessions := Sre.findall match_exp text in
  let k := Z.of_nat (length sessions) in
  process_sessions text n_last = Raise e ->
  (e = AssertionError /\ k < n_last) \/
  (n_last <= k /\
   exists i block, k - n_last <= i < k /\
     sessions !! Z.to_nat i = Some block /\
     session_record block = Raise e /\
     (forall j b, i < j < k -> sessions !! Z.to_nat j = Some b ->
                  succeeds (session_record b) = true) /\
     ((e = ValueError /\ well_formed_block block = false) \/
      ((e = TypeError \/ e = OverflowError) /\ well_formed_block block = true /\
       readings_fit block = false))).
Proof.
  intros sessions k H.
  destruct (process_sessions_raise_inv text n_last e H)
    as [Ha | (Hn & i & block & Hi & Hb & Hr & Hlater)]; [now left|].
  right. split; [exact Hn|]. exists i, block.
  split; [exact Hi|]. split; [exact Hb|]. split; [exact Hr|]. split; [exact Hlater|].
  exact (session_record_raise block e Hr).
Qed.

(** X2 at a text whose one block has the gain [abc], and [n_last = 1]. *)
Lemma process_sessions_raises_witness :
  let text := unlines ["start"; "1,0"; "end [abc]"]%string in
  let sessions := Sre.findall match_exp text in
  let k := Z.of_nat (length sessions) in
  process_sessions text 1 = Raise ValueError /\
  ((ValueError = AssertionError /\ k < 1) \/
   (1 <= k /\
    exists i block, k - 1 <= i < k /\
      sessions !! Z.to_nat i = Some block /\
      session_record block = Raise ValueError /\
      (forall j b, i < j < k -> sessions !! Z.to_nat j = Some b ->
                   succeeds (session_record b) = true) /\
      ((ValueError = ValueError /\ well_formed_block block = false) \/
       ((ValueError = TypeError \/ ValueError = OverflowError) /\
        well_formed_block block = true /\ readings_fit block = false)))).
Proof.
  intros text sessions k.
  assert (H : process_sessions text 1 = Raise ValueError) by (vm_compute; reflexivity).
  split; [exact H|].
  exact (process_sessions_raises text 1 ValueError H).
Defined.

(** X3: whenever [process_sessions] returns, the dict holds exactly the
    trailing ids [k - n_last + 1 .. k], [k] being the number of blocks of the
    text, and the entry of an id is the record of the block at that
    position: no well-formedness of the other blocks is needed. *)
Theorem process_sessions_returns (text : str) (n_last : Z) (d : sid_dict_t) :
  let sessions := Sre.findall match_exp text in
  let k := Z.of_nat (length sessions) in
  process_sessions text n_last = Ok d ->
  Z.of_nat (size d) = Z.max 0 n_last /\
  forall key v,
    d !! key = Some v <->
    is_trailing_id k n_last key /\
    exists block, sessions !! Z.to_nat (key - 1) = Some block /\
                  session_record block = Ok v.
Proof.
  intros sessions k H.
  destruct (process_sessions_ok_inv text n_last d H) as (Hn & Hrec & Hdom & Hval).
  fold sessions in Hrec, Hval, Hdom. fold k in Hn, Hrec, Hdom.
  split.
  - assert (Hd : dom d = list_to_set (range (k - n_last + 1) (k + 1))).
    { apply set_eq. intros key. rewrite Hdom, elem_of_list_to_set, list_elem_of_In, range_spec.
      unfold is_trailing_id. lia. }
    rewrite <- size_dom, Hd, size_list_to_set.
    + rewrite range_length. lia.
    + apply NoDup_ListNoDup, range_NoDup.
  - exact (process_sessions_lookup text n_last d H).
Qed.

(** X3 at the text of two blocks and [n_last = 1]. *)
Lemma process_sessions_returns_witness :
  Z.of_nat (size ({[2 := (float_3, 5%R)]} : sid_dict_t)) = Z.max 0 1 /\
  forall key v,
    ({[2 := (float_3, 5%R)]} : sid_dict_t) !! key = Some v <->
    is_trailing_id (Z.of_nat (length (Sre.findall match_exp two_blocks))) 1 key /\
    exists block, Sre.findall match_exp two_blocks !! Z.to_nat (key - 1) = Some block /\
                  session_record block = Ok v.
Proof. apply (process_sessions_returns two_blocks 1). exact two_blocks_last. Defined.

(** X4: when no more sessions are asked for than there are blocks,
    [process_sessions] returns if and only if each of the last [n_last]
    blocks has a record; the blocks in front of them are not looked at. *)
Theorem process_sessions_succeeds_iff (text : str) (n_last : Z) :
  let sessions := Sre.findall match_exp text in
  let k := Z.of_nat (length sessions) in
  n_last <= k ->
  (succeeds (process_sessions text n_last) = true <->
   forall i block, k - n_last <= i < k -> sessions !! Z.to_nat i = Some block ->
     succeeds (session_record block) = true).
Proof.
  intros sessions k Hn. split.
  - intros H. destruct (process_sessions text n_last) as [d|] eqn:E; [|discriminate].
    destruct (process_sessions_ok_inv text n_last d E) as (_ & Hrec & _).
    intros i block Hi Hblock. destruct (Hrec i Hi) as (b & v & Hb & Hv).
    fold sessions in Hb. replace block with b by congruence. now rewrite Hv.
  - intros Hrec. destruct (process_sessions_ok_intro text n_last Hn Hrec) as [d ->].
    reflexivity.
Qed.

(** X4 at the text whose first block has a bad gain, and [n_last = 1]. *)
Lemma process_sessions_succeeds_iff_witness :
  succeeds (process_sessions bad_gain_then_good 1) = true <->
  forall i block,
    Z.of_nat (length (Sre.findall match_exp bad_gain_then_good)) - 1 <= i
      < Z.of_nat (length (Sre.findall match_exp bad_gain_then_good)) ->
    Sre.findall match_exp bad_gain_then_good !! Z.to_nat i = Some block ->
    succeeds (session_record block) = true.
Proof. apply (process_sessions_succeeds_iff bad_gain_then_good 1). vm_compute. discriminate. Defined.

(** X5: a call that returns for the last [m] sessions tells what every
    call for fewer sessions returns: such a call returns too, and its dict
    is a part of the larger one, with the same ids and the same records. *)
Theorem process_sessions_fewer (text : str) (n m : Z) (d2 : sid_dict_t) :
  process_sessions text m = Ok d2 -> n <= m ->
  exists d1, process_sessions text n = Ok d1 /\ d1 ⊆ d2.
Proof.
  intros H2 Hnm.
  destruct (process_sessions_ok_inv text m d2 H2) as (Hm & Hrec & _).
  destruct (process_sessions_ok_intro text n) as [d1 H1].
  - lia.
  - intros i block Hi Hblock. destruct (Hrec i) as (b & v & Hb & Hv); [lia|].
    replace block with b by congruence. now rewrite Hv.
  - exists d1. split; [exact H1|].
    apply map_subseteq_spec. intros key v Hv.
    apply (process_sessions_lookup text n d1 H1) in Hv as (Hid & block & Hb & Hr).
    apply (process_sessions_lookup text m d2 H2).
    split; [unfold is_trailing_id in *; lia | eauto].
Qed.

(** X5 at the text of two blocks, for one session out of two. *)
Lemma process_sessions_fewer_witness :
  exists d1, process_sessions two_blocks 1 = Ok d1 /\
             d1 ⊆ <[1 := (float_2, 5%R)]> {[2 := (float_3, 5%R)]}.
Proof. apply (process_sessions_fewer two_blocks 1 2); [exact two_blocks_both | lia]. Defined.

End Sessions.

(** ** More on the estimator *)
Section Spectrum.
Local Open Scope R_scope.

(** *** A series of equal samples *)









End Spectrum.

(** ** More on block discovery *)
Section Logs.
Local Open Scope nat_scope.

(** The scan passes the characters that the last match covers. *)
Lemma scan_skip p (w : str) : forall s prev pos,
  Sre.scan p prev (w ++ s) pos (length w)
  = Sre.scan p (last_of prev w) s (pos + length w) 0.
Proof.
  induction w as [|c w IH]; intros s prev pos.
  - cbn [app length last_of]. now rewrite Nat.add_0_r.
  - cbn [app length last_of Sre.scan]. rewrite IH. f_equal. lia.
Qed.

(** No match of [match_exp] begins at a character other than [s]. *)
Lemma match_exp_not_s prev c s :
  Ascii.eqb c "s" = false -> Sre.match_at match_exp prev (c :: s) = None.
Proof.
  intros H. unfold match_exp. cbn [app Sre.match_at].
  destruct (Sre.at_beginning_line prev); [|reflexivity].
  change (Sre.literal "start") with (Sre.LITERAL "s" :: Sre.literal "tart").
  cbn [app]. now apply match_at_literal_mismatch.
Qed.

(** The scan finds nothing in a text without the letter [s]. *)
Lemma scan_filler (f : str) : forall s prev pos,
  lacks "s" f = true ->
  Sre.scan match_exp prev (f ++ s) pos 0
  = Sre.scan match_exp (last_of prev f) s (pos + length f) 0.
Proof.
  induction f as [|c f IH]; intros s prev pos H.
  - cbn [app length last_of]. now rewrite Nat.add_0_r.
  - cbn in H. apply andb_true_iff in H as [Hc Hf]. apply negb_true_iff in Hc.
    cbn [app length last_of Sre.scan]. rewrite match_exp_not_s by exact Hc.
    rewrite IH by exact Hf. f_equal. lia.
Qed.

(** A plain block in front of the end of a line is matched, with its body
    and its gain. *)
Lemma match_exp_plain_block prev body sep gain rest :
  Sre.at_beginning_line prev = true ->
  body <> [] -> lacks "e" body = true ->
  sep <> [] -> lacks "[" sep = true ->
  gain <> [] -> lacks "]" gain = true ->
  Sre.at_end_line rest = true ->
  Sre.match_at match_exp prev
    (lit "start" ++ body ++ lit "end" ++ sep ++ lit "[" ++ gain ++ lit "]" ++ rest)
  = Some ([body; gain],
          5 + (length body + (3 + (length sep + (1 + (length gain + 1)))))).
Proof.
  intros Hp Hb Eb Hs Es Hg Eg Hr.
  unfold match_exp. cbn [app Sre.match_at]. rewrite Hp.
  unfold Sre.literal.
  rewrite (match_at_literal (lit "start")) by discriminate.
  cbn [Sre.match_at].
  change (map Sre.LITERAL (lit "end") ++ ?p)
    with (Sre.LITERAL "e" :: map Sre.LITERAL (lit "nd") ++ p).
  rewrite (min_repeat_any_until "e" _ true body _ [gain]
             (3 + (length sep + (1 + (length gain + 1))))); [reflexivity | exact Hb | exact Eb |].
  change (Sre.LITERAL "e" :: map Sre.LITERAL (lit "nd") ++ ?p)
    with (map Sre.LITERAL (lit "end") ++ p).
  rewrite (match_at_literal (lit "end")) by discriminate.
  cbn [Sre.match_at].
  change (map Sre.LITERAL (lit "[") ++ ?p) with (Sre.LITERAL "[" :: p).
  rewrite (min_repeat_any_until "[" _ false sep _ [gain] (1 + (length gain + 1)));
    [reflexivity | exact Hs | exact Es |].
  change (Sre.LITERAL "[" :: ?p) with (map Sre.LITERAL (lit "[") ++ p).
  rewrite (match_at_literal (lit "[")) by discriminate.
  cbn [Sre.match_at].
  change (map Sre.LITERAL (lit "]") ++ ?p) with (Sre.LITERAL "]" :: p).
  rewrite (min_repeat_any_until "]" _ true gain _ [] 1); [reflexivity | exact Hg | exact Eg |].
  change (lit "]" ++ rest) with ("]"%char :: rest).
  cbn [Sre.match_at]. rewrite Ascii.eqb_refl, Hr. reflexivity.
Qed.

Lemma whole_lines_bol (f : str) prev :
  whole_lines f = true -> Sre.at_beginning_line prev = true ->
  Sre.at_beginning_line (last_of prev f) = true.
Proof.
  intros Hf Hp. destruct f as [|c f] using rev_ind; [exact Hp|].
  rewrite last_of_snoc. unfold whole_lines in Hf. rewrite rev_unit in Hf.
  exact Hf.
Qed.

Lemma truthy_nonempty (s : str) : truthy s = true -> s <> [].
Proof. destruct s; [discriminate | discriminate]. Qed.

(** The scan of a log of plain blocks finds each block, and no other. *)
Lemma scan_written_log trailer : forall blocks prev pos,
  Sre.at_beginning_line prev = true ->
  forallb plain_block blocks = true ->
  lacks "s" trailer = true ->
  map Sre.group_pair (Sre.scan match_exp prev (written_log blocks trailer) pos 0)
  = map (fun b => (w_body b, w_gain b)) blocks.
Proof.
  induction blocks as [|b blocks IH]; intros prev pos Hp Hb Ht.
  - unfold written_log. cbn [map concat app].
    rewrite <- (app_nil_r trailer), scan_filler by exact Ht.
    cbn [Sre.scan]. now rewrite match_exp_nothing.
  - cbn [forallb] in Hb. apply andb_true_iff in Hb as [Hb Hbs].
    unfold plain_block in Hb. repeat (apply andb_true_iff in Hb as [Hb ?]).
    assert (E : written_log (b :: blocks) trailer
                = w_lead b ++ block_text b ++ newline :: written_log blocks trailer).
    { unfold written_log. cbn [map concat]. rewrite <- !app_assoc. reflexivity. }
    rewrite E. clear E.
    rewrite scan_filler by assumption.
    set (prev1 := last_of prev (w_lead b)).
    assert (Hp1 : Sre.at_beginning_line prev1 = true) by (now apply whole_lines_bol).
    set (rest := newline :: written_log blocks trailer).
    set (w := lit "tart" ++ w_body b ++ lit "end" ++ w_sep b ++ lit "["
              ++ w_gain b ++ lit "]").
    assert (Hw : length w = length (w_body b) + length (w_sep b) + length (w_gain b) + 9).
    { subst w. rewrite !length_app. cbn [lit list_ascii_of_string length]. lia. }
    assert (E : block_text b ++ rest = "s"%char :: w ++ rest).
    { unfold block_text. subst w. cbn [lit list_ascii_of_string app].
      rewrite <- !app_assoc. reflexivity. }
    assert (M : Sre.match_at match_exp prev1 (block_text b ++ rest)
                = Some ([w_body b; w_gain b], S (length w))).
    { unfold block_text. rewrite <- !app_assoc.
      rewrite match_exp_plain_block; try assumption; try (now apply truthy_nonempty).
      - do 2 f_equal. lia.
      - reflexivity. }
    rewrite E in *. cbn [Sre.scan]. rewrite M. cbn [map Nat.pred].
    f_equal.
    rewrite scan_skip. subst rest. cbn [Sre.scan].
    rewrite match_exp_not_s by reflexivity.
    apply IH; [reflexivity | exact Hbs | exact Ht].
Qed.

(** Every match takes thirteen characters at least. *)
Lemma ordered_blocks_room text : forall ms lo,
  lo <= length text ->
  ordered_from lo ms -> Forall (block_at text) ms ->
  lo + 13 * length ms <= length text.
Proof.
  induction ms as [|m ms IH]; intros lo Hlo Hord Hall.
  - cbn [length]. lia.
  - cbn [ordered_from] in Hord. destruct Hord as (H1 & H2 & Hord).
    inversion Hall as [|? ? Hm Hms]; subst.
    destruct Hm as (before & body & sep & gain & after & E & Hs & He & Hb & Hsep & Hg & _).
    assert (Lb : 1 <= length body) by (destruct body; [congruence | cbn; lia]).
    assert (Ls : 1 <= length sep) by (destruct sep; [congruence | cbn; lia]).
    assert (Lg : 1 <= length gain) by (destruct gain; [congruence | cbn; lia]).
    assert (Lt : Sre.m_end m <= length text).
    { rewrite E, !length_app. cbn [lit list_ascii_of_string length]. lia. }
    specialize (IH (Sre.m_end m) Lt Hord Hms). cbn [length]. lia.
Qed.

(** X11: a log that is written as the program expects it is read back
    block by block.  When each block is [start body end sep [gain]] on lines
    of its own, the body without the letter [e], the separator without an
    opening and the gain without a closing bracket, and the other lines of
    the text are without the letter [s], block discovery returns the body
    and the gain of each block, in the order of the text, and nothing
    else. *)
Theorem findall_written_log (blocks : list written_block) (trailer : str) :
  forallb plain_block blocks = true ->
  lacks "s" trailer = true ->
  Sre.findall match_exp (written_log blocks trailer)
  = map (fun b => (w_body b, w_gain b)) blocks.
Proof.
  intros Hb Ht. unfold Sre.findall, Sre.finditer.
  now apply scan_written_log.
Qed.

(** X11 at a log of two blocks with a helicopter line in front and a line behind. *)
Lemma findall_written_log_witness :
  Sre.findall match_exp
    (written_log
       [ {| w_lead := lit "Heli 3" ++ [newline];
            w_body := newline :: lit "1,0" ++ [newline];
            w_sep := lit " "; w_gain := lit "2000" |};
         {| w_lead := [];
            w_body := newline :: lit "3,0" ++ [newline];
            w_sep := lit " "; w_gain := lit "3000" |} ]
       (lit "done" ++ [newline]))
  = [(newline :: lit "1,0" ++ [newline], lit "2000");
     (newline :: lit "3,0" ++ [newline], lit "3000")].
Proof.
  apply (findall_written_log
           [ {| w_lead := lit "Heli 3" ++ [newline];
                w_body := newline :: lit "1,0" ++ [newline];
                w_sep := lit " "; w_gain := lit "2000" |};
             {| w_lead := [];
                w_body := newline :: lit "3,0" ++ [newline];
                w_sep := lit " "; w_gain := lit "3000" |} ]
           (lit "done" ++ [newline])); reflexivity.
Defined.

(** X12: a block takes thirteen characters at least ([start], [end], the
    two brackets, and one character each for the body, the separator and the
    gain), and blocks do not overlap: a text of [n] characters has no more
    than [n / 13] blocks. *)
Theorem findall_room (text : str) :
  13 * length (Sre.findall match_exp text) <= length text.
Proof.
  unfold Sre.findall. rewrite length_map.
  destruct (scan_blocks text text [] 0 eq_refl) as [Hord Hall].
  cbn [length last_of Nat.add] in Hord, Hall.
  apply (ordered_blocks_room text _ 0); [lia | exact Hord | exact Hall].
Qed.

(** *** The lazy repeat takes as little as it can *)

(** Where the lazy repeat stops, the tail matches, and it matched nowhere
    before. *)
Lemma min_repeat_any_inv tail capture : forall s taken gs n,
  Sre.min_repeat_any tail capture s taken = Some (gs, n) ->
  exists t rest gs' n',
    t <> [] /\ s = t ++ rest /\
    tail (last_of None t) rest = Some (gs', n') /\
    n = length taken + length t + n' /\
    gs = (if capture then [rev taken ++ t] else []) ++ gs' /\
    forall t1 c t2, t = t1 ++ c :: t2 -> t2 <> [] -> tail (Some c) (t2 ++ rest) = None.
Proof.
  induction s as [|c s IH]; intros taken gs n H; [discriminate|].
  cbn [Sre.min_repeat_any] in H. cbn zeta in H.
  destruct (tail (Some c) s) as [[gs0 n0]|] eqn:E.
  - injection H as <- <-. exists [c], s, gs0, n0.
    split; [discriminate|]. split; [reflexivity|]. split; [exact E|].
    split; [cbn; lia|]. split; [reflexivity|].
    intros t1 x t2 Ht Ht2. destruct t1 as [|y t1].
    + injection Ht as _ <-. congruence.
    + injection Ht as _ Ht. destruct t1; discriminate.
  - destruct (IH _ _ _ H) as (t & rest & gs' & n' & Ht & -> & Hok & -> & -> & Hmin).
    exists (c :: t), rest, gs', n'.
    split; [discriminate|]. split; [reflexivity|].
    split; [destruct t; [congruence | exact Hok]|].
    split; [cbn; lia|].
    split; [cbn [rev]; now rewrite <- app_assoc|].
    intros t1 x t2 Ht12 Ht2. destruct t1 as [|y t1].
    + injection Ht12 as <- <-. exact E.
    + injection Ht12 as _ Ht12. now apply (Hmin t1 x t2).
Qed.

Lemma match_at_literal_inv (w : str) : forall p prev s gs n,
  Sre.match_at (map Sre.LITERAL w ++ p) prev s = Some (gs, n) ->
  exists s' n', s = w ++ s' /\ n = length w + n' /\
                Sre.match_at p (last_of prev w) s' = Some (gs, n').
Proof.
  induction w as [|c w IH]; intros p prev s gs n H.
  - exists s, n. auto.
  - cbn [map app Sre.match_at] in H.
    destruct s as [|c' s]; [discriminate|].
    destruct (Ascii.eqb c' c) eqn:E; [|discriminate].
    apply ascii_eqb_eq in E. subst c'.
    destruct (Sre.match_at (map Sre.LITERAL w ++ p) (Some c) s) as [[gs0 n0]|] eqn:M;
      [|discriminate].
    injection H as <- <-.
    destruct (IH _ _ _ _ _ M) as (s' & n' & -> & -> & Hm).
    exists s', n'. auto.
Qed.

(** The gain of a match of [match_exp] stops at the first closing bracket
    that ends a line. *)
Lemma match_exp_gain_minimal prev s gs n :
  Sre.match_at match_exp prev s = Some (gs, n) ->
  exists body gain,
    gs = [body; gain] /\
    forall t1 c t2, gain <> t1 ++ c :: "]"%char :: newline :: t2.
Proof.
  intros H. unfold match_exp in H. cbn [app Sre.match_at] in H.
  destruct (Sre.at_beginning_line prev); [|discriminate].
  unfold Sre.literal in H.
  apply match_at_literal_inv in H as (s1 & n1 & -> & -> & H).
  cbn [Sre.match_at] in H.
  apply min_repeat_any_inv in H as (body & r1 & gs1 & m1 & _ & -> & H & _ & -> & _).
  apply match_at_literal_inv in H as (s2 & n2 & -> & -> & H).
  cbn [Sre.match_at] in H.
  apply min_repeat_any_inv in H as (sep & r2 & gs2 & m2 & _ & -> & H & _ & -> & _).
  apply match_at_literal_inv in H as (s3 & n3 & -> & -> & H).
  cbn [Sre.match_at] in H.
  apply min_repeat_any_inv in H as (gain & r3 & gs3 & m3 & _ & -> & H & _ & -> & Hmin).
  pose proof H as H'.
  apply match_at_literal_inv in H' as (s4 & n4 & -> & -> & H').
  cbn [Sre.match_at] in H'.
  destruct (Sre.at_end_line s4); [|discriminate]. injection H' as <- <-.
  exists body, gain. split; [reflexivity|].
  intros t1 c t2 E.
  specialize (Hmin t1 c ("]"%char :: newline :: t2) E ltac:(discriminate)).
  cbn in Hmin. discriminate.
Qed.

(** Every match of the scan is a match of the pattern somewhere. *)
Lemma scan_matches p : forall s prev pos skip m,
  In m (Sre.scan p prev s pos skip) ->
  exists prev' s' n, Sre.match_at p prev' s' = Some (Sre.m_groups m, n).
Proof.
  induction s as [|c s IH]; intros prev pos skip m H.
  - destruct skip; cbn [Sre.scan] in H; [|destruct H].
    destruct (Sre.match_at p prev []) as [[gs n]|] eqn:M; [|destruct H].
    destruct H as [<- | []]. cbn [Sre.m_groups]. eauto.
  - destruct skip as [|k]; cbn [Sre.scan] in H; [|eauto].
    destruct (Sre.match_at p prev (c :: s)) as [[gs n]|] eqn:M; [|eauto].
    destruct H as [<- | H]; [|eauto]. cbn [Sre.m_groups]. eauto.
Qed.

(** X13: the gain field of a block ends at the first closing bracket
    that ends a line: behind its first character, the gain that block
    discovery returns has no closing bracket with a newline after it. *)
Theorem findall_gain_stops_at_bracket (text body gain : str) :
  In (body, gain) (Sre.findall match_exp text) ->
  forall t1 c t2, gain <> t1 ++ c :: "]"%char :: newline :: t2.
Proof.
  intros H. unfold Sre.findall in H. apply in_map_iff in H as (m & Hm & Hin).
  apply scan_matches in Hin as (prev' & s' & n & M).
  apply match_exp_gain_minimal in M as (b & g & Hg & Hmin).
  unfold Sre.group_pair in Hm. rewrite Hg in Hm. cbn in Hm.
  injection Hm as _ <-. exact Hmin.
Qed.

(** X13 at the first block of the text of two blocks. *)
Lemma findall_gain_stops_at_bracket_witness :
  In (newline :: lit "1,0" ++ newline :: lit "2,1" ++ [newline], lit "2000")
     (Sre.findall match_exp two_blocks) /\
  forall t1 c t2, lit "2000" <> t1 ++ c :: "]"%char :: newline :: t2.
Proof.
  assert (H : In (newline :: lit "1,0" ++ newline :: lit "2,1" ++ [newline], lit "2000")
                 (Sre.findall match_exp two_blocks))
    by (vm_compute; left; reflexivity).
  split; [exact H|].
  exact (findall_gain_stops_at_bracket two_blocks
           (newline :: lit "1,0" ++ newline :: lit "2,1" ++ [newline]) (lit "2000") H).
Defined.

End Logs.

(** ** From the log to the dict *)
Section WrittenLogs.

Lemma findall_written blocks trailer :
  forallb plain_block blocks = true ->
  lacks "s" trailer = true ->
  Sre.findall match_exp (written_log blocks trailer)
  = map (fun b => (w_body b, w_gain b)) blocks.
Proof. intros Hb Ht. unfold Sre.findall, Sre.finditer. now apply scan_written_log. Qed.

(** The entries of the dict, told from the blocks as they were written. *)
Lemma process_sessions_written_lookup blocks trailer n_last d :
  forallb plain_block blocks = true ->
  lacks "s" trailer = true ->
  process_sessions (written_log blocks trailer) n_last = Ok d ->
  forall key v,
    d !! key = Some v <->
    is_trailing_id (Z.of_nat (length blocks)) n_last key /\
    exists b, blocks !! Z.to_nat (key - 1) = Some b /\
              session_record (w_body b, w_gain b) = Ok v.
Proof.
  intros Hb Ht Hd key v.
  rewrite (process_sessions_lookup _ n_last d Hd key v).
  rewrite findall_written, length_map by assumption.
  split; intros (Hid & x & Hx & Hr); (split; [exact Hid|]).
  - rewrite list_lookup_fmap in Hx.
    destruct (blocks !! Z.to_nat (key - 1)) as [b|]; [|discriminate].
    cbn in Hx. injection Hx as <-. eauto.
  - exists (w_body x, w_gain x). split; [|exact Hr].
    rewrite list_lookup_fmap, Hx. reflexivity.
Qed.

(** X14: on a log that is written as the program expects it, with [k]
    plain blocks, [process_sessions] fails its check when more than [k]
    sessions are asked for, and whenever it returns, the dict holds the last
    [n_last] ids of [1 .. k], each one with the record of the body and the
    gain of the block that was written at that position. *)
Theorem process_sessions_written_log (blocks : list written_block) (trailer : str)
    (n_last : Z) :
  forallb plain_block blocks = true ->
  lacks "s" trailer = true ->
  let text := written_log blocks trailer in
  let k := Z.of_nat (length blocks) in
  (k < n_last -> process_sessions text n_last = Raise AssertionError) /\
  (forall d, process_sessions text n_last = Ok d ->
     forall key v,
       d !! key = Some v <->
       is_trailing_id k n_last key /\
       exists b, blocks !! Z.to_nat (key - 1) = Some b /\
                 session_record (w_body b, w_gain b) = Ok v).
Proof.
  intros Hb Ht text k. split.
  - intros Hn. unfold process_sessions, text.
    rewrite findall_written, length_map by assumption. fold k.
    destruct (Z.geb_spec k n_last); [lia | reflexivity].
  - intros d Hd. now apply process_sessions_written_lookup with (trailer := trailer).
Qed.

(** X14 at a log of one block and [n_last = 2]. *)
Lemma process_sessions_written_log_witness :
  let blocks :=
    [ {| w_lead := lit "Heli 3" ++ [newline];
         w_body := newline :: lit "1,0" ++ [newline];
         w_sep := lit " "; w_gain := lit "2000" |} ] in
  let text := written_log blocks [] in
  (1 < 2 -> process_sessions text 2 = Raise AssertionError) /\
  (forall d, process_sessions text 2 = Ok d ->
     forall key v,
       d !! key = Some v <->
       is_trailing_id 1 2 key /\
       exists b, blocks !! Z.to_nat (key - 1) = Some b /\
                 session_record (w_body b, w_gain b) = Ok v).
Proof.
  apply (process_sessions_written_log
           [ {| w_lead := lit "Heli 3" ++ [newline];
                w_body := newline :: lit "1,0" ++ [newline];
                w_sep := lit " "; w_gain := lit "2000" |} ] [] 2); reflexivity.
Defined.

(** X15: the ids of the sessions are stable when the log grows.  When a
    call for the last [n_last] sessions of a log of [k] plain blocks returns
    a dict, and a plain block that has a record is written behind the log,
    the call for the last [n_last + 1] sessions of the longer log returns
    the same dict with one more entry, the record of the new block under the
    id [k + 1]. *)
Theorem process_sessions_log_grows (blocks : list written_block) (b : written_block)
    (trailer trailer' : str) (n_last : Z) (d : sid_dict_t) (v : float * R) :
  forallb plain_block blocks = true -> plain_block b = true ->
  lacks "s" trailer = true -> lacks "s" trailer' = true ->
  0 <= n_last ->
  process_sessions (written_log blocks trailer) n_last = Ok d ->
  session_record (w_body b, w_gain b) = Ok v ->
  process_sessions (written_log (blocks ++ [b]) trailer') (n_last + 1)
  = Ok (<[Z.of_nat (length blocks) + 1 := v]> d).
Proof.
  intros Hb Hpb Ht Ht' Hn Hd Hv.
  set (k := Z.of_nat (length blocks)).
  assert (Hb' : forallb plain_block (blocks ++ [b]) = true).
  { rewrite forallb_app, Hb. cbn. now rewrite Hpb. }
  pose proof (process_sessions_written_lookup blocks trailer n_last d Hb Ht Hd) as L1.
  fold k in L1.
  destruct (process_sessions_ok_inv _ _ _ Hd) as (Hk & Hrec & _).
  rewrite findall_written, length_map in Hk, Hrec by assumption. fold k in Hk, Hrec.
  destruct (process_sessions_ok_intro (written_log (blocks ++ [b]) trailer') (n_last + 1))
    as [d2 Hd2].
  - rewrite findall_written, length_map, length_app by assumption. cbn [length]. lia.
  - rewrite findall_written, length_map, length_app by assumption. cbn [length].
    intros i block Hi Hblock. rewrite list_lookup_fmap in Hblock.
    destruct (Z.eq_dec i k) as [-> | Hne].
    + unfold k in Hblock. rewrite Nat2Z.id, list_lookup_middle in Hblock by reflexivity.
      cbn in Hblock. injection Hblock as <-. now rewrite Hv.
    + destruct (Hrec i) as (x & y & Hx & Hy); [unfold k in *; lia|].
      rewrite list_lookup_fmap in Hx.
      rewrite lookup_app_l in Hblock by (unfold k in *; lia).
      replace block with x by congruence. now rewrite Hy.
  - rewrite Hd2. f_equal. apply map_eq. intros key. apply option_eq. intros x.
    rewrite (process_sessions_written_lookup _ trailer' _ d2 Hb' Ht' Hd2 key x).
    rewrite length_app. cbn [length].
    replace (Z.of_nat (length blocks + 1)) with (k + 1) by (unfold k; lia).
    destruct (Z.eq_dec key (k + 1)) as [-> | Hne].
    + rewrite lookup_insert_eq. replace (k + 1 - 1) with k by lia.
      unfold k at 2 3. rewrite Nat2Z.id, list_lookup_middle by reflexivity.
      unfold is_trailing_id. split.
      * intros (_ & b' & Eb & Hr). injection Eb as <-. congruence.
      * intros E. injection E as <-. split; [lia | eauto].
    + rewrite lookup_insert_ne by congruence. rewrite L1.
      unfold is_trailing_id. split.
      * intros (Hid & b' & Eb & Hr). split; [lia|]. exists b'. split; [|exact Hr].
        rewrite lookup_app_l in Eb by (unfold k in *; lia). exact Eb.
      * intros (Hid & b' & Eb & Hr). split; [lia|]. exists b'. split; [|exact Hr].
        rewrite lookup_app_l by (unfold k in *; lia). exact Eb.
Qed.

(** X15 at the text of two blocks, the second one written behind the first. *)
Lemma process_sessions_log_grows_witness :
  let b1 := {| w_lead := []; w_body := newline :: lit "1,0" ++ newline :: lit "2,1" ++ [newline];
               w_sep := lit " "; w_gain := lit "2000" |} in
  let b2 := {| w_lead := []; w_body := newline :: lit "3,0" ++ newline :: lit "4,1" ++ [newline];
               w_sep := lit " "; w_gain := lit "3000" |} in
  process_sessions (written_log ([b1] ++ [b2]) []) (1 + 1)
  = Ok (<[Z.of_nat (length [b1]) + 1 := (float_3, 5%R)]> {[1 := (float_2, 5%R)]}).
Proof.
  intros b1 b2.
  apply (process_sessions_log_grows [b1] b2 [] [] 1 {[1 := (float_2, 5%R)]} (float_3, 5%R));
    try reflexivity; try lia.
  - apply (process_one_block (written_log [b1] []) (w_body b1) (w_gain b1)
             (float_of_Z 2000) 1 2);
      try (vm_compute; reflexivity). discriminate.
  - run_record.
Defined.

End WrittenLogs.

(** ** More on the body of a session *)
Section Bodies.

Lemma split_nonempty sep s : split sep s <> [].
Proof.
  destruct s as [|c s]; [discriminate|]. cbn [split].
  destruct (Ascii.eqb c sep); [discriminate|].
  destruct (split sep s); discriminate.
Qed.

Lemma split_app_sep sep a b :
  split sep (a ++ sep :: b) = split sep a ++ split sep b.
Proof.
  induction a as [|c a IH].
  - cbn [app split]. now rewrite Ascii.eqb_refl.
  - cbn [app split]. destruct (Ascii.eqb c sep); [now rewrite IH|].
    rewrite IH. destruct (split sep a) as [|h t] eqn:E; [|reflexivity].
    now apply split_nonempty in E.
Qed.

Lemma split_lacks sep s : lacks sep s = true -> split sep s = [s].
Proof.
  induction s as [|c s IH]; [reflexivity|]. intros H. cbn in H.
  apply andb_true_iff in H as [Hc Hs]. apply negb_true_iff in Hc.
  cbn [split]. rewrite Hc, IH by exact Hs. reflexivity.
Qed.

Lemma for_each_app {A B} (f : A -> result B) l1 l2 :
  for_each f (l1 ++ l2)
  = let* x := for_each f l1 in
    let* y := for_each f l2 in
    Ok (x ++ y).
Proof.
  induction l1 as [|a l1 IH].
  - cbn [app for_each bind]. destruct (for_each f l2); reflexivity.
  - cbn [app for_each]. destruct (f a) as [b|]; [|reflexivity]. cbn [bind].
    rewrite IH. destruct (for_each f l1) as [x|]; [|reflexivity]. cbn [bind].
    destruct (for_each f l2); reflexivity.
Qed.

Lemma session_lines_app a b :
  session_lines (a ++ newline :: b) = session_lines a ++ session_lines b.
Proof.
  unfold session_lines. now rewrite split_app_sep, map_app, List.filter_app.
Qed.

Lemma session_values_app a b :
  session_values (a ++ newline :: b)
  = let* x := session_values a in
    let* y := session_values b in
    Ok (x ++ y).
Proof. unfold session_values. rewrite session_lines_app. apply for_each_app. Qed.

(** The pieces of a blank text are blank. *)
Lemma split_blank sep s :
  blank s = true -> Forall (fun piece => blank piece = true) (split sep s).
Proof.
  induction s as [|c s IH]; intros H.
  - repeat constructor.
  - cbn in H. apply andb_true_iff in H as [Hc Hs]. specialize (IH Hs).
    cbn [split]. destruct (Ascii.eqb c sep).
    + constructor; [reflexivity | exact IH].
    + destruct (split sep s) as [|h t]; [repeat constructor; cbn; now rewrite Hc|].
      inversion IH; subst. constructor; [|assumption].
      cbn. rewrite Hc. assumption.
Qed.

Lemma session_lines_blank body : blank body = true -> session_lines body = [].
Proof.
  intros H. unfold session_lines.
  pose proof (split_blank newline body H) as Hall.
  induction Hall as [|piece pieces Hp _ IH]; [reflexivity|].
  cbn [map List.filter]. rewrite blank_strip, Hp. exact IH.
Qed.

Lemma session_record_no_data session gain :
  session_values session = Ok [] -> session_record (session, gain) = Raise ValueError.
Proof.
  intros Hv. unfold session_record.
  destruct (float_of_str gain) as [g|e] eqn:Hg.
  - cbn [bind]. unfold Py.truediv. rewrite thousand_not_zero. cbn [bind].
    rewrite Hv. cbn [bind]. change (Numpy.array []) with (Numpy.Numeric []).
    cbn [find_osc_period_array]. unfold find_osc_period, Numpy.truediv.
    destruct (Req_dec_T SAMPLING_RATE 0) as [E | _];
      [unfold SAMPLING_RATE in E; lra | reflexivity].
  - cbn [bind]. f_equal. exact (float_of_str_raise _ _ Hg).
Qed.

(** *** Lines with a comma *)

Lemma rstrip_after_kept (sp : ascii -> bool) a c t :
  sp c = false ->
  rstrip_with sp (a ++ c :: t) = a ++ c :: rstrip_with sp t.
Proof.
  intros Hc. unfold rstrip_with.
  rewrite rev_app_distr. cbn [rev]. rewrite <- app_assoc. cbn [app].
  destruct (lstrip_decompose sp (rev t)) as (w & E & Hw & Hk).
  set (k := lstrip_with sp (rev t)) in *.
  rewrite E at 1. rewrite <- app_assoc, lstrip_spaces by exact Hw.
  assert (lstrip_with sp (k ++ c :: rev a) = k ++ c :: rev a) as ->.
  { apply lstrip_kept. destruct k as [|x k']; [exact Hc | exact Hk]. }
  rewrite rev_app_distr. cbn [rev]. rewrite rev_involutive, <- app_assoc.
  reflexivity.
Qed.

Lemma no_comma_app a b : no_comma (a ++ b) = no_comma a && no_comma b.
Proof. unfold no_comma. apply forallb_app. Qed.

Lemma comma_kept : isspace comma = false.
Proof. reflexivity. Qed.

Lemma strip_comma_line v t :
  strip (v ++ comma :: t)
  = lstrip_with isspace v ++ comma :: rstrip_with isspace t.
Proof.
  unfold strip, strip_with.
  destruct (lstrip_decompose isspace v) as (w & E & Hw & Hk).
  set (k := lstrip_with isspace v) in *.
  rewrite E at 1. rewrite <- app_assoc, lstrip_spaces by exact Hw.
  assert (lstrip_with isspace (k ++ comma :: t) = k ++ comma :: t) as ->.
  { apply lstrip_kept. destruct k as [|x k']; [exact comma_kept | exact Hk]. }
  apply rstrip_after_kept. exact comma_kept.
Qed.

Lemma no_comma_lstrip (sp : ascii -> bool) v :
  no_comma v = true -> no_comma (lstrip_with sp v) = true.
Proof.
  intros H. destruct (lstrip_decompose sp v) as (w & E & _).
  rewrite E, no_comma_app in H. now apply andb_true_iff in H as [_ H].
Qed.

(** The datum of a line with a comma is read from what stands in front of
    the comma; what stands behind it is not looked at. *)
Lemma data_point_comma_line v t :
  no_comma v = true ->
  data_point (strip (v ++ comma :: t)) = int (lstrip_with isspace v).
Proof.
  intros Hv. unfold data_point. rewrite split_comma_head. cbn [bind].
  rewrite strip_comma_line, before_first_comma_prefix; [reflexivity|].
  now apply no_comma_lstrip.
Qed.

Lemma truthy_comma_line v t : truthy (strip (v ++ comma :: t)) = true.
Proof. rewrite strip_comma_line. now destruct (lstrip_with isspace v). Qed.

Lemma lacks_app c a b : lacks c (a ++ b) = lacks c a && lacks c b.
Proof. unfold lacks. apply forallb_app. Qed.

Lemma session_lines_written_body rows :
  forallb plain_row rows = true ->
  session_lines (written_body rows) = map (fun row => strip (row_line row)) rows.
Proof.
  induction rows as [|row rows IH]; intros H; [reflexivity|].
  cbn [forallb] in H. apply andb_true_iff in H as [Hrow Hrows].
  unfold plain_row in Hrow. apply andb_true_iff in Hrow as [Hrow Ht].
  apply andb_true_iff in Hrow as [Hc Hv].
  unfold written_body. cbn [map concat]. rewrite <- app_assoc. cbn [app].
  rewrite session_lines_app. fold (written_body rows). rewrite IH by exact Hrows.
  unfold session_lines at 1. rewrite split_lacks.
  - cbn [map List.filter]. unfold row_line. now rewrite truthy_comma_line.
  - unfold row_line. rewrite lacks_app. cbn. rewrite Hv. cbn.
    exact Ht.
Qed.

Lemma session_values_written rows :
  forallb plain_row rows = true ->
  session_values (written_body rows)
  = for_each (fun row => int (lstrip_with isspace (fst row))) rows.
Proof.
  intros H. unfold session_values. rewrite session_lines_written_body by exact H.
  induction rows as [|row rows IH]; [reflexivity|].
  cbn [forallb] in H. apply andb_true_iff in H as [Hrow Hrows].
  unfold plain_row in Hrow. apply andb_true_iff in Hrow as [Hrow _].
  apply andb_true_iff in Hrow as [Hc _].
  cbn [map for_each]. unfold row_line at 1. rewrite data_point_comma_line by exact Hc.
  now rewrite IH.
Qed.

(** X16: the data of a body are collected line by line: the data of two
    texts joined by a newline are the data of the first followed by the data
    of the second, and an error in the first one comes first. *)
Theorem session_values_concatenation (a b : str) :
  session_values (a ++ newline :: b)
  = let* x := session_values a in
    let* y := session_values b in
    Ok (x ++ y).
Proof. apply session_values_app. Qed.

(** X17: a body of nothing but whitespace has no datum, and a block with
    such a body has no record: it fails with [ValueError], as a block with a
    bad numeral does, because the transform takes no empty series. *)
Theorem session_record_blank_body (body gain : str) :
  blank body = true ->
  session_values body = Ok [] /\
  session_record (body, gain) = Raise ValueError.
Proof.
  intros H.
  assert (Hv : session_values body = Ok []).
  { unfold session_values. now rewrite session_lines_blank. }
  split; [exact Hv | now apply session_record_no_data].
Qed.

(** X17 at a body of two newlines and a blank. *)
Lemma session_record_blank_body_witness :
  session_values [newline; " "%char; newline] = Ok [] /\
  session_record ([newline; " "%char; newline], lit "1500") = Raise ValueError.
Proof. apply (session_record_blank_body [newline; " "%char; newline] (lit "1500")). reflexivity. Defined.

(** X18: on a body whose lines are [value,rest], the data are the
    integers that the values are numerals of, leading whitespace left aside,
    in the order of the lines; the first value that is no numeral gives
    [ValueError].  What stands behind the first comma of a line, the time
    stamp, has no effect at all.  A newline in front of the first line, as
    the one that ends the [start] line, changes nothing. *)
Theorem session_values_written_body (rows : list (str * str)) :
  forallb plain_row rows = true ->
  session_values (written_body rows)
  = for_each (fun row => int (lstrip_with isspace (fst row))) rows /\
  session_values (newline :: written_body rows)
  = for_each (fun row => int (lstrip_with isspace (fst row))) rows.
Proof.
  intros H. split; [now apply session_values_written|].
  change (newline :: written_body rows) with ([] ++ newline :: written_body rows).
  rewrite session_values_app. change (session_values []) with (@Ok (list Z) []).
  cbn [bind]. rewrite session_values_written by exact H.
  destruct (for_each _ rows); reflexivity.
Qed.

(** X18 at a body of two lines, the second one indented and with two commas. *)
Lemma session_values_written_body_witness :
  session_values (written_body [(lit "12", lit "0.1"); (lit " -3", lit "0.2,x")])
  = for_each (fun row => int (lstrip_with isspace (fst row)))
      [(lit "12", lit "0.1"); (lit " -3", lit "0.2,x")] /\
  session_values (newline :: written_body [(lit "12", lit "0.1"); (lit " -3", lit "0.2,x")])
  = for_each (fun row => int (lstrip_with isspace (fst row)))
      [(lit "12", lit "0.1"); (lit " -3", lit "0.2,x")].
Proof.
  apply (session_values_written_body [(lit "12", lit "0.1"); (lit " -3", lit "0.2,x")]).
  reflexivity.
Defined.

End Bodies.

(** ** Blanks around a numeral *)
Section Padding.

Lemma strip_with_pad (sp : ascii -> bool) w1 s w2 :
  forallb sp w1 = true -> forallb sp w2 = true ->
  strip_with sp (w1 ++ s ++ w2) = strip_with sp s.
Proof.
  intros H1 H2.
  destruct (strip_decompose sp s) as (v1 & v2 & E & Hv1 & Hv2 & Hh & Hl).
  set (core := strip_with sp s) in *.
  rewrite E at 1.
  replace (w1 ++ (v1 ++ core ++ v2) ++ w2) with ((w1 ++ v1) ++ core ++ (v2 ++ w2))
    by (now rewrite <- !app_assoc).
  apply strip_with_core; try assumption; rewrite forallb_app; now apply andb_true_iff.
Qed.

Lemma float_of_str_strip_eq s t :
  strip_with isspace_numeric s = strip_with isspace_numeric t ->
  float_of_str s = float_of_str t.
Proof. intros E. unfold float_of_str. now rewrite E. Qed.

(** X19: blanks around a numeral do not count.  With spaces, tabs or
    newlines in front of the text and behind it, [int] and [float] give what
    they give on the text alone, value or error, so that a gain written as
    [[ 1500 ]] is recorded as the gain [[1500]] is. *)
Theorem numeral_padding (w1 s w2 : str) :
  forallb isspace_numeric w1 = true -> forallb isspace_numeric w2 = true ->
  int (w1 ++ s ++ w2) = int s /\
  float_of_str (w1 ++ s ++ w2) = float_of_str s /\
  forall body, session_record (body, w1 ++ s ++ w2) = session_record (body, s).
Proof.
  intros H1 H2.
  assert (E : strip_with isspace_numeric (w1 ++ s ++ w2) = strip_with isspace_numeric s)
    by (now apply strip_with_pad).
  split; [now apply int_strip_eq|].
  split; [now apply float_of_str_strip_eq|].
  intros body. unfold session_record.
  now rewrite (float_of_str_strip_eq _ _ E).
Qed.

(** X19 at the gain [1500] between two blanks. *)
Lemma numeral_padding_witness :
  int (lit " " ++ lit "1500" ++ lit " ") = int (lit "1500") /\
  float_of_str (lit " " ++ lit "1500" ++ lit " ") = float_of_str (lit "1500") /\
  forall body,
    session_record (body, lit " " ++ lit "1500" ++ lit " ")
    = session_record (body, lit "1500").
Proof. apply (numeral_padding (lit " ") (lit "1500") (lit " ")); reflexivity. Defined.

End Padding.

(** ** The helicopter line *)
Section Heli.

Lemma lower_char_newline c : Ascii.eqb (lower_char c) newline = Ascii.eqb c newline.
Proof.
  destruct c as [[] [] [] [] [] [] [] []]; reflexivity.
Qed.

Lemma lower_char_space c : isspace c = true -> lower_char c = c.
Proof.
  destruct c as [[] [] [] [] [] [] [] []]; try reflexivity; discriminate.
Qed.

Lemma str_lower_app a b : str_lower (a ++ b) = str_lower a ++ str_lower b.
Proof. apply map_app. Qed.

Lemma lacks_lower s : lacks newline (str_lower s) = lacks newline s.
Proof.
  unfold lacks, str_lower. induction s as [|c s IH]; [reflexivity|].
  cbn [map forallb]. now rewrite lower_char_newline, IH.
Qed.

(** *** Lines *)

Lemma readlines_line l rest :
  lacks newline l = true ->
  readlines (l ++ newline :: rest) = (l ++ [newline]) :: readlines rest.
Proof.
  induction l as [|c l IH]; intros H.
  - cbn [app readlines]. now rewrite Ascii.eqb_refl.
  - cbn in H. apply andb_true_iff in H as [Hc Hl]. apply negb_true_iff in Hc.
    cbn [app readlines]. rewrite Hc, IH by exact Hl. reflexivity.
Qed.

Lemma readlines_last l :
  lacks newline l = true -> l <> [] -> readlines l = [l].
Proof.
  induction l as [|c l IH]; intros H Hl; [congruence|].
  cbn in H. apply andb_true_iff in H as [Hc H]. apply negb_true_iff in Hc.
  cbn [readlines]. rewrite Hc. destruct l as [|c' l]; [reflexivity|].
  rewrite IH by (exact H || discriminate). reflexivity.
Qed.

Lemma first_line (text : str) :
  lacks newline text = true \/
  exists l rest, text = l ++ newline :: rest /\ lacks newline l = true.
Proof.
  induction text as [|c text IH]; [now left|].
  destruct (Ascii.eqb c newline) eqn:E.
  - right. apply Ascii.eqb_eq in E. subst c. exists [], text. auto.
  - destruct IH as [H | (l & rest & -> & H)].
    + left. unfold lacks in *. cbn [forallb]. now rewrite E, H.
    + right. exists (c :: l), rest. split; [reflexivity|].
      unfold lacks in *. cbn [forallb]. now rewrite E, H.
Qed.

(** A line of [readlines] has no newline but the one that ends it. *)
Lemma readlines_shape : forall n text line,
  (length text <= n)%nat -> In line (readlines text) ->
  exists l, lacks newline l = true /\ (line = l ++ [newline] \/ line = l).
Proof.
  induction n as [|n IH]; intros text line Hn Hin.
  - destruct text; [destruct Hin | cbn in Hn; lia].
  - destruct (first_line text) as [H | (l & rest & -> & H)].
    + destruct text as [|c text]; [destruct Hin|].
      rewrite readlines_last in Hin by (exact H || discriminate).
      destruct Hin as [<- | []]. eauto.
    + rewrite readlines_line in Hin by exact H.
      destruct Hin as [<- | Hin]; [eauto|].
      apply (IH rest); [|exact Hin].
      rewrite length_app in Hn. cbn in Hn. lia.
Qed.

(** *** Occurrences *)

Lemma startswith_line l rest n :
  lacks newline n = true ->
  startswith (l ++ newline :: rest) n = startswith (l ++ [newline]) n.
Proof.
  revert n. induction l as [|c l IH]; intros n Hn.
  - destruct n as [|p n]; [reflexivity|]. cbn in Hn.
    apply andb_true_iff in Hn as [Hp _]. apply negb_true_iff in Hp.
    cbn [app startswith]. rewrite Ascii.eqb_sym, Hp. reflexivity.
  - destruct n as [|p n]; [reflexivity|]. cbn in Hn.
    apply andb_true_iff in Hn as [_ Hn].
    cbn [app startswith]. now rewrite IH.
Qed.

(** An occurrence of a text without a newline lies within one line. *)
Lemma contains_line l rest n :
  n <> [] -> lacks newline n = true ->
  contains (l ++ newline :: rest) n = contains (l ++ [newline]) n || contains rest n.
Proof.
  intros Hne Hn. induction l as [|c l IH].
  - destruct n as [|p n]; [congruence|]. cbn in Hn.
    apply andb_true_iff in Hn as [Hp _]. apply negb_true_iff in Hp.
    cbn [app contains startswith]. rewrite Ascii.eqb_sym, Hp. reflexivity.
  - cbn [app contains]. rewrite IH.
    change (c :: l ++ newline :: rest) with ((c :: l) ++ newline :: rest).
    rewrite startswith_line by exact Hn. cbn [app].
    now rewrite orb_assoc.
Qed.

(** The characters of [w] do not occur in [n]. *)
Lemma contains_skip w s n :
  n <> [] -> forallb (fun c => lacks c n) w = true ->
  contains (w ++ s) n = contains s n.
Proof.
  intros Hne. induction w as [|c w IH]; intros H; [reflexivity|].
  cbn in H. apply andb_true_iff in H as [Hc Hw].
  cbn [app contains]. rewrite IH by exact Hw.
  destruct n as [|p n]; [congruence|]. cbn in Hc.
  apply andb_true_iff in Hc as [Hp _]. apply negb_true_iff in Hp.
  cbn [startswith]. rewrite Ascii.eqb_sym, Hp. reflexivity.
Qed.

Lemma startswith_skip_end w : forall s n,
  forallb (fun c => lacks c n) w = true ->
  startswith (s ++ w) n = startswith s n.
Proof.
  induction s as [|c s IH]; intros n H.
  - destruct n as [|p n]; [now destruct w|]. destruct w as [|x w]; [reflexivity|].
    cbn in H. apply andb_true_iff in H as [Hx _].
    apply andb_true_iff in Hx as [Hp _]. apply negb_true_iff in Hp.
    cbn [app startswith]. rewrite Ascii.eqb_sym, Hp. reflexivity.
  - destruct n as [|p n]; [reflexivity|]. cbn [app startswith]. rewrite IH; [reflexivity|].
    clear -H. unfold lacks in *. induction w as [|x w IHw]; [reflexivity|].
    cbn [forallb] in *. apply andb_true_iff in H as [Hx Hw].
    apply andb_true_iff in Hx as [_ Hx].
    rewrite Hx, IHw by exact Hw. reflexivity.
Qed.

Lemma contains_skip_end w s n :
  n <> [] -> forallb (fun c => lacks c n) w = true ->
  contains (s ++ w) n = contains s n.
Proof.
  intros Hne H. induction s as [|c s IH].
  - cbn [app]. rewrite <- (app_nil_r w), contains_skip by assumption. reflexivity.
  - cbn [app contains]. rewrite IH.
    change (c :: s ++ w) with ((c :: s) ++ w). now rewrite startswith_skip_end.
Qed.

(** Whitespace has no part in an occurrence of [heli]. *)
Lemma space_not_in_heli w :
  forallb isspace w = true ->
  forallb (fun c => lacks c (lit "heli")) (str_lower w) = true.
Proof.
  induction w as [|c w IH]; intros H; [reflexivity|].
  cbn in H. apply andb_true_iff in H as [Hc Hw].
  cbn [str_lower map forallb]. fold (str_lower w). rewrite IH by exact Hw.
  rewrite (lower_char_space c Hc). rewrite andb_true_r. clear -Hc.
  destruct c as [[] [] [] [] [] [] [] []]; try reflexivity; discriminate.
Qed.

Lemma contains_strip line :
  contains (str_lower (strip line)) (lit "heli") = contains (str_lower line) (lit "heli").
Proof.
  destruct (strip_decompose isspace line) as (w1 & w2 & E & H1 & H2 & _).
  fold (strip line) in E. rewrite E at 2. rewrite !str_lower_app.
  rewrite contains_skip by (discriminate || now apply space_not_in_heli).
  rewrite contains_skip_end by (discriminate || now apply space_not_in_heli).
  reflexivity.
Qed.

Lemma strip_idempotent s : strip (strip s) = strip s.
Proof.
  destruct (strip_decompose isspace s) as (w1 & w2 & _ & _ & _ & Hh & Hl).
  fold (strip s) in Hh, Hl. unfold strip at 1.
  rewrite <- (app_nil_r (strip s)) at 1.
  change (strip s ++ []) with ([] ++ strip s ++ []).
  now apply strip_with_core.
Qed.

Lemma only_newline_last l : forall x y,
  lacks newline l = true -> x ++ newline :: y = l ++ [newline] -> y = [].
Proof.
  induction l as [|c l IH]; intros x y H E.
  - destruct x as [|a x]; [now injection E | ].
    injection E as _ E. destruct x; discriminate.
  - cbn in H. apply andb_true_iff in H as [Hc Hl]. apply negb_true_iff in Hc.
    destruct x as [|a x].
    + injection E as <- _. now rewrite Ascii.eqb_refl in Hc.
    + injection E as _ E. now apply (IH x y).
Qed.

Lemma lacks_spec c s : lacks c s = false -> exists x y, s = x ++ c :: y.
Proof.
  induction s as [|a s IH]; [discriminate|]. unfold lacks. cbn [forallb].
  destruct (Ascii.eqb a c) eqn:E.
  - intros _. apply Ascii.eqb_eq in E. subst a. exists [], s. reflexivity.
  - cbn. intros H. destruct (IH H) as (x & y & ->). exists (a :: x), y. reflexivity.
Qed.

(** The stripped form of a line has no newline. *)
Lemma strip_line_no_newline l line :
  lacks newline l = true -> line = l ++ [newline] \/ line = l ->
  lacks newline (strip line) = true.
Proof.
  intros Hl Hline.
  destruct (strip_decompose isspace line) as (w1 & w2 & E & _ & _ & _ & Hk).
  fold (strip line) in E, Hk.
  destruct (lacks newline (strip line)) eqn:N; [reflexivity|]. exfalso.
  apply lacks_spec in N as (x & y & Ex).
  destruct Hline as [-> | ->].
  - rewrite Ex in E. rewrite <- !app_assoc in E. cbn [app] in E.
    rewrite (app_assoc w1 x) in E. symmetry in E.
    apply only_newline_last in E; [|exact Hl].
    apply app_eq_nil in E as [-> _].
    rewrite Ex in Hk. unfold last_kept in Hk. rewrite rev_unit in Hk. cbn in Hk.
    discriminate.
  - rewrite E, Ex in Hl. rewrite !lacks_app in Hl.
    apply andb_true_iff in Hl as [_ Hl]. apply andb_true_iff in Hl as [Hl _].
    apply andb_true_iff in Hl as [_ Hl]. cbn in Hl.
    unfold newline in Hl. cbn in Hl. discriminate.
Qed.

Lemma get_heli_lines_some lines r :
  get_heli_lines lines = Some r ->
  exists before line after,
    lines = before ++ line :: after /\ r = strip line /\
    contains (str_lower line) (lit "heli") = true /\
    Forall (fun l => contains (str_lower l) (lit "heli") = false) before.
Proof.
  induction lines as [|l lines IH]; [discriminate|]. cbn [get_heli_lines].
  destruct (contains (str_lower l) (lit "heli")) eqn:E.
  - intros H. injection H as <-. exists [], l, lines. auto.
  - intros H. destruct (IH H) as (before & line & after & -> & Hr & Hc & Hb).
    exists (l :: before), line, after. auto.
Qed.

Lemma get_heli_none : forall n text,
  (length text <= n)%nat ->
  (get_heli text = None <-> contains (str_lower text) (lit "heli") = false).
Proof.
  unfold get_heli.
  induction n as [|n IH]; intros text Hn.
  - destruct text; [cbn; tauto | cbn in Hn; lia].
  - destruct (first_line text) as [H | (l & rest & -> & H)].
    + destruct text as [|c text]; [cbn; tauto|].
      rewrite readlines_last by (exact H || discriminate).
      cbn [get_heli_lines].
      destruct (contains (str_lower (c :: text)) (lit "heli")); split; congruence.
    + rewrite readlines_line by exact H. cbn [get_heli_lines].
      rewrite !str_lower_app.
      change (str_lower (newline :: rest)) with (newline :: str_lower rest).
      change (str_lower [newline]) with [newline].
      rewrite (contains_line (str_lower l) (str_lower rest))
        by (discriminate || reflexivity).
      destruct (contains (str_lower l ++ [newline]) (lit "heli")).
      * cbn [orb]. split; discriminate.
      * cbn [orb]. apply IH. rewrite length_app in Hn. cbn in Hn. lia.
Qed.

(** X20: [get_heli] falls off its end, returning [None], exactly when
    the text of the file has no [heli] in it, in whatever case of the
    letters: an occurrence always lies within one line. *)
Theorem get_heli_none_iff (text : str) :
  get_heli text = None <-> contains (str_lower text) (lit "heli") = false.
Proof. apply (get_heli_none (length text)). lia. Qed.

(** X21: what [get_heli] returns is the first line of the file that has
    [heli] in it, in whatever case, without the whitespace around it: the
    value has [heli] in it, has no newline, and stripping it again leaves
    it as it is. *)
Theorem get_heli_first_line (text r : str) :
  get_heli text = Some r ->
  (exists before line after,
     readlines text = before ++ line :: after /\ r = strip line /\
     Forall (fun l => contains (str_lower l) (lit "heli") = false) before) /\
  contains (str_lower r) (lit "heli") = true /\
  lacks newline r = true /\
  strip r = r.
Proof.
  intros H. unfold get_heli in H.
  apply get_heli_lines_some in H as (before & line & after & E & -> & Hc & Hb).
  split; [exists before, line, after; auto|].
  split; [now rewrite contains_strip|].
  split; [|apply strip_idempotent].
  destruct (readlines_shape (length text) text line) as (l & Hl & Hline);
    [lia | rewrite E; apply in_elt |].
  now apply (strip_line_no_newline l).
Qed.

(** X21 at a text whose second line names the helicopter. *)
Lemma get_heli_first_line_witness :
  (exists before line after,
     readlines (lit "log 7" ++ newline :: lit "  HeLi 3 " ++ newline :: lit "heli 4")
     = before ++ line :: after /\ lit "HeLi 3" = strip line /\
     Forall (fun l => contains (str_lower l) (lit "heli") = false) before) /\
  contains (str_lower (lit "HeLi 3")) (lit "heli") = true /\
  lacks newline (lit "HeLi 3") = true /\
  strip (lit "HeLi 3") = lit "HeLi 3".
Proof.
  apply (get_heli_first_line
           (lit "log 7" ++ newline :: lit "  HeLi 3 " ++ newline :: lit "heli 4")
           (lit "HeLi 3")).
  reflexivity.
Defined.

End Heli.

(** ** The data files *)
Section Files.

Lemma startswith_spec s p :
  startswith s p = true <-> exists post, s = p ++ post.
Proof.
  revert s. induction p as [|c p IH]; intros s.
  - destruct s; cbn; split; eauto.
  - destruct s as [|x s]; cbn [startswith].
    + split; [discriminate | intros (post & E); discriminate].
    + rewrite andb_true_iff, IH, Ascii.eqb_eq. split.
      * intros (-> & post & ->). eauto.
      * intros (post & E). injection E as -> ->. eauto.
Qed.

Lemma endswith_spec s suffix :
  endswith s suffix = true <-> exists stem, s = stem ++ suffix.
Proof.
  unfold endswith. rewrite startswith_spec. split.
  - intros (post & E). exists (rev post).
    apply (f_equal (@rev ascii)) in E.
    rewrite rev_involutive, rev_app_distr, rev_involutive in E. exact E.
  - intros (stem & ->). exists (rev stem). apply rev_app_distr.
Qed.

(** X22: [get_files] returns the paths of the entries that are files and
    whose name is some text followed by [.txt], in lower case, and of no
    other entry; the paths come in the order of the scan, and a directory
    named like a text file is left out. *)
Theorem get_files_spec (it : list Os.DirEntry) :
  (forall p, In p (get_files it) <->
     exists entry stem,
       In entry it /\ Os.path entry = p /\ Os.is_file entry = true /\
       Os.name entry = stem ++ lit ".txt") /\
  sublist (get_files it) (map Os.path it).
Proof.
  split.
  - intros p. unfold get_files. rewrite in_map_iff. split.
    + intros (entry & Hp & Hin). apply filter_In in Hin as [Hin Hf].
      apply andb_true_iff in Hf as [Hn Hf]. apply endswith_spec in Hn as [stem Hn].
      exists entry, stem. auto.
    + intros (entry & stem & Hin & Hp & Hf & Hn). exists entry. split; [exact Hp|].
      apply filter_In. split; [exact Hin|]. apply andb_true_iff. split; [|exact Hf].
      apply endswith_spec. eauto.
  - unfold get_files. induction it as [|entry it IH]; [constructor|].
    cbn [List.filter map].
    destruct (endswith (Os.name entry) (lit ".txt") && Os.is_file entry).
    + cbn [map]. now apply sublist_skip.
    + now apply sublist_cons.
Qed.

End Files.

(** ** The report *)
Section Report.

Lemma getitem_last {A} (l : list A) (a : A) :
  getitem (l ++ [a]) (Z.of_nat (length l)) = Ok a.
Proof.
  rewrite (getitem_nth _ _ a) by (rewrite length_app; cbn; lia).
  now rewrite nth_middle.
Qed.

Lemma range_one k : range (k - 1) k = [k - 1].
Proof.
  unfold range. replace (Z.to_nat (k - (k - 1))) with 1%nat by lia.
  cbn. f_equal. lia.
Qed.

(** Asking for one session: the last block of the text decides. *)
Lemma process_sessions_one text :
  let sessions := Sre.findall match_exp text in
  process_sessions text 1
  = match last sessions with
    | None => Raise AssertionError
    | Some block =>
        let* record := session_record block in
        Ok {[Z.of_nat (length sessions) := record]}
    end.
Proof.
  intros sessions. unfold process_sessions. fold sessions.
  destruct (last sessions) as [block|] eqn:E.
  - apply last_Some in E as [blocks E]. rewrite E, length_app. cbn [length].
    destruct (Z.geb_spec (Z.of_nat (length blocks + 1)) 1) as [_ | H]; [|lia].
    rewrite range_one. cbn [rev app for_sids]. unfold session_step.
    replace (Z.of_nat (length blocks + 1) - 1) with (Z.of_nat (length blocks)) by lia.
    rewrite getitem_last. cbn [bind].
    destruct (session_record block) as [v|]; [|reflexivity]. cbn [bind].
    rewrite insert_empty. do 2 f_equal. lia.
  - apply last_None in E. rewrite E. reflexivity.
Qed.

Lemma max_key_singleton k v : max_key {[k := v]} = Ok k.
Proof. unfold max_key, keys. now rewrite map_to_list_singleton. Qed.

Lemma sorted_singleton k v : sorted {[k := v]} = [k].
Proof. unfold sorted, keys. now rewrite map_to_list_singleton. Qed.

Lemma print_file_report read infile :
  print_file read infile = file_report read infile.
Proof.
  unfold print_file, file_report. rewrite process_sessions_one.
  set (sessions := Sre.findall match_exp (read infile)).
  destruct (last sessions) as [block|]; [|reflexivity].
  destruct (session_record block) as [[gain period]|e]; [|reflexivity].
  cbn [bind io_of_result]. unfold io_bind at 3.
  unfold print at 1 2. unfold io_bind at 1 2.
  rewrite max_key_singleton, sorted_singleton. cbn [io_of_result rev app io_for].
  unfold print_session, lookup_key. rewrite lookup_singleton_eq.
  reflexivity.
Qed.

Lemma io_for_completes {A} (body : A -> io unit) l :
  (forall a, In a l -> completes (body a) = true) ->
  io_for body l = (flat_map (fun a => fst (body a)) l, inl tt).
Proof.
  induction l as [|a l IH]; intros H; [reflexivity|].
  cbn [io_for flat_map]. rewrite IH by (intros x Hx; apply H; now right).
  specialize (H a (or_introl eq_refl)). unfold completes in H.
  destruct (body a) as [out [[]|e]]; [reflexivity | discriminate].
Qed.

Lemma io_for_stops {A} (body : A -> io unit) good bad rest :
  (forall a, In a good -> completes (body a) = true) ->
  completes (body bad) = false ->
  io_for body (good ++ bad :: rest)
  = (flat_map (fun a => fst (body a)) good ++ fst (body bad), snd (body bad)).
Proof.
  intros Hgood Hbad. induction good as [|a good IH].
  - cbn [app io_for flat_map]. unfold completes in Hbad.
    destruct (body bad) as [out [u|e]]; [discriminate | reflexivity].
  - cbn [app io_for flat_map]. rewrite IH by (intros x Hx; apply Hgood; now right).
    specialize (Hgood a (or_introl eq_refl)). unfold completes in Hgood.
    destruct (body a) as [out [[]|e]]; [|discriminate].
    cbn [io_bind fst]. now rewrite <- app_assoc.
Qed.

(** X23: what [main] prints for one file follows from the last block of
    the file alone.  After the two lines of the heading, a file without a
    block ends the program with the [AssertionError] of [process_sessions];
    a file whose last block has no record ends it with the error that the
    conversion of that block raises; otherwise the number of the blocks of
    the file is printed as the total, then the last session under that
    number with its gain and its period, and no other session.  Neither
    [max] nor the lookup in the dict can fail. *)
Theorem print_file_outcome (read : str -> str) (infile : str) :
  print_file read infile = file_report read infile.
Proof. apply print_file_report. Qed.

(** X24: when the last block of every data file has a record, [main]
    runs to its end, and its output is the reports of the files one after
    the other, in the order in which [get_files] gives them. *)
Theorem main_completes (scandir : str -> list Os.DirEntry) (read : str -> str) :
  (forall infile, In infile (get_files (scandir DATA_PATH)) ->
     completes (file_report read infile) = true) ->
  main scandir read
  = (flat_map (fun infile => fst (file_report read infile))
       (get_files (scandir DATA_PATH)),
     inl tt).
Proof.
  intros H. unfold main. rewrite io_for_completes.
  - f_equal. apply flat_map_ext. intros infile. now rewrite print_file_report.
  - intros infile Hin. rewrite print_file_report. now apply H.
Qed.

(** X24 at a directory of one file, the text of two blocks. *)
Lemma main_completes_witness :
  let scandir := fun _ : str =>
    [ {| Os.name := lit "a.txt"; Os.path := lit "data/a.txt"; Os.is_file := true |} ] in
  let read := fun _ : str => two_blocks in
  main scandir read
  = (flat_map (fun infile => fst (file_report read infile))
       (get_files (scandir DATA_PATH)),
     inl tt).
Proof.
  intros scandir read. apply (main_completes scandir read).
  intros infile _. unfold file_report, completes, read.
  replace (Sre.findall match_exp two_blocks)
    with [(newline :: lit "1,0" ++ newline :: lit "2,1" ++ [newline], lit "2000");
          (newline :: lit "3,0" ++ newline :: lit "4,1" ++ [newline], lit "3000")]
    by (vm_compute; reflexivity).
  cbn [last].
  replace (session_record
             (newline :: lit "3,0" ++ newline :: lit "4,1" ++ [newline], lit "3000"))
    with (Ok (float_3, 5%R)) by (symmetry; run_record).
  reflexivity.
Defined.

(** X25: [main] ends at the first data file whose report fails: the
    reports of the files in front of it are printed, then the heading of
    that file, and the program ends with the error that
    [process_sessions] raises on that file; the files behind it are not
    read. *)
Theorem main_stops_at_first_failure (scandir : str -> list Os.DirEntry)
    (read : str -> str) (good : list str) (bad : str) (rest : list str) :
  get_files (scandir DATA_PATH) = good ++ bad :: rest ->
  (forall infile, In infile good -> completes (file_report read infile) = true) ->
  completes (file_report read bad) = false ->
  main scandir read
  = (flat_map (fun infile => fst (file_report read infile)) good ++ heading read bad,
     snd (file_report read bad)) /\
  exists e, snd (file_report read bad) = inr (Raised e) /\
            process_sessions (read bad) 1 = Raise e.
Proof.
  intros E Hgood Hbad. split.
  - unfold main. rewrite E, io_for_stops.
    + rewrite print_file_report. f_equal. f_equal.
      * apply flat_map_ext. intros infile. now rewrite print_file_report.
      * revert Hbad. unfold file_report, completes.
        destruct (last _) as [block|]; [|reflexivity].
        destruct (session_record block) as [[g p]|e]; [discriminate | reflexivity].
    + intros infile Hin. rewrite print_file_report. now apply Hgood.
    + now rewrite print_file_report.
  - revert Hbad. rewrite process_sessions_one. unfold file_report, completes.
    destruct (last _) as [block|]; [|intros _; exists AssertionError; auto].
    destruct (session_record block) as [[g p]|e] eqn:Hr; [discriminate|].
    intros _. exists e. auto.
Qed.

(** X25 at a directory of two files without a block. *)
Lemma main_stops_at_first_failure_witness :
  let scandir := fun _ : str =>
    [ {| Os.name := lit "b.txt"; Os.path := lit "data/b.txt"; Os.is_file := true |};
      {| Os.name := lit "c.txt"; Os.path := lit "data/c.txt"; Os.is_file := true |} ] in
  let read := fun _ : str => lit "Heli 3" ++ [newline] in
  main scandir read
  = (flat_map (fun infile => fst (file_report read infile)) []
     ++ heading read (lit "data/b.txt"),
     snd (file_report read (lit "data/b.txt"))) /\
  exists e, snd (file_report read (lit "data/b.txt")) = inr (Raised e) /\
            process_sessions (read (lit "data/b.txt")) 1 = Raise e.
Proof.
  intros scandir read.
  apply (main_stops_at_first_failure scandir read [] (lit "data/b.txt") [lit "data/c.txt"]).
  - reflexivity.
  - intros infile [].
  - reflexivity.
Defined.

End Report.
